(** * Production line (bounded buffer, producers and consumers)

    A shallow embedding of [src/production_line.py]: the constructor of
    [ProductionLine] with its parameter validation, the threads of one
    simulation run (the main thread running [start] and [wait_completion],
    the producer threads running [producer_task], the consumer threads
    running [consumer_task]) as an interleaving of atomic steps over the
    shared object, [get_report] and [print_report]; and of what reads
    reports back in [src/analyze_results.py]: the loop of
    [create_comparison_table], without the data frame built from it, and
    [generate_full_report].

    Python integers are [Z].  The floating-point computations of the
    source, [int(num_producers * 1.1)] in the constructor, the times and
    rates of the report and the quotients of its analysis, are carried out
    on IEEE 754 binary64 numbers as specified by [SpecFloat].

    A step is one access to the shared object: a read or write of a field,
    an operation on a lock or a semaphore, an operation on the buffer.  A
    thread that would block has no step.  The statements guarded by a lock
    are one step each.  [time.sleep] is a step that changes nothing, and
    [thread.join(timeout=1.0)] is a step the main thread can always take:
    the thread has ended, or the timeout has expired. *)

From Stdlib Require Import ZArith List Bool Lia Sorted FinFun.
From Stdlib Require Import SpecFloat.
From Stdlib Require String.
Import ListNotations.
Import String.StringSyntax.
Open Scope Z_scope.
Delimit Scope string_scope with string.

(** ** Python floats (binary64) *)

Module PyFloat.

Definition prec : Z := 53.
Definition emax : Z := 1024.

(** [float(n)] for an integer [n]: rounded to the nearest binary64 number,
    ties to even; an integer that rounds beyond the largest finite float
    raises [OverflowError] ([None]). *)
Definition of_int (n : Z) : option spec_float :=
  match binary_normalize prec emax n 0 false with
  | S754_infinity _ => None
  | f => Some f
  end.

(** The literal [1.1], that is 0x1.199999999999ap+0. *)
Definition lit_1_1 : spec_float := S754_finite false 4953959590107546 (-52).

Definition mul : spec_float -> spec_float -> spec_float := SFmul prec emax.

(** [int(x)]: truncation toward zero; infinities and NaN raise. *)
Definition to_int (x : spec_float) : option Z :=
  match x with
  | S754_zero _ => Some 0
  | S754_finite s m e =>
      let a := match e with
               | Zneg p => Z.shiftr (Zpos m) (Zpos p)
               | _ => Z.shiftl (Zpos m) e
               end in
      Some (if s then - a else a)
  | S754_infinity _ | S754_nan => None
  end.

End PyFloat.

(** ** Exceptions raised by the constructor *)

(** The messages of the [ValueError]s, in source order; [ConsumersMin m] is
    the message that names the computed minimum [m];
    [SemaphoreInitialValue] is the error of [threading.Semaphore] on a
    negative initial value. *)
Inductive message :=
| BufferMin
| ProducersMin
| ConsumersMin (min_consumers : Z)
| TimestepsMin
| SemaphoreInitialValue.

Inductive exn :=
| ValueError (m : message)
| OverflowError.

(** ** Threads and their control points *)

Inductive worker :=
| Producer (producer_id : nat)
| Consumer (consumer_id : nat).

Inductive tid :=
| Main
| Worker (w : worker).

Definition worker_eq_dec (a b : worker) : {a = b} + {a <> b}.
Proof. decide equality; apply Nat.eq_dec. Defined.

(** [piece_id = f"P{producer_id}-T{timestep}"]: the two numbers it is
    formatted from. *)
Record piece := { piece_producer : nat; piece_timestep : Z }.

(** Control points of [get_current_timestep]. *)
Inductive get_pc :=
| Get_lock             (* with self.timestep_lock: *)
| Get_read             (* return self.current_timestep *)
| Get_unlock (v : Z).  (* leaving the with block with the value read *)

(** Control points of [should_continue]. *)
Inductive sc_pc :=
| SC_running           (* self.running and ... *)
| SC_get (g : get_pc). (* ... self.get_current_timestep() < self.total_timesteps *)

(** Control points of [increment_timestep]. *)
Inductive inc_pc :=
| Inc_lock             (* with self.timestep_lock: *)
| Inc_add              (* self.current_timestep += 1 *)
| Inc_read             (* return self.current_timestep *)
| Inc_unlock (v : Z).

(** Which counter a statistics block updates. *)
Inductive stat :=
| Produced (timestep : Z)  (* total_produced, then the snapshot test *)
| Consumed                 (* total_consumed *)
| ProducerWait             (* producer_waits *)
| ConsumerWait.            (* consumer_waits *)

(** Control points of [producer_task] and [consumer_task]; the two loops
    share those of equal shape; [Increment], [Append], [SnapTest] and
    [Snapshot] are reached by producers only, [Pop] by consumers only. *)
Inductive pc :=
| NotStarted
| Loop (c : sc_pc)          (* while self.should_continue(): *)
| SemAcquire                (* empty_slots.acquire() / filled_slots.acquire() *)
| Recheck (c : sc_pc)       (* if not self.should_continue(): *)
| ReleaseBack               (* release what was acquired; break *)
| MutexAcquire              (* with self.mutex: *)
| TestLen                   (* if len(self.buffer) < capacity / > 0 *)
| Increment (i : inc_pc)    (* timestep = self.increment_timestep() *)
| Append (timestep : Z)     (* self.buffer.append(piece_id) *)
| Pop                       (* piece_id = self.buffer.pop(0) *)
| StatsAcquire (k : stat)   (* with self.stats_lock: *)
| StatsUpdate (k : stat)    (* self.stats.<counter> += 1 *)
| SnapTest (timestep : Z)   (* if timestep % self.snapshot_interval == 0: *)
| Snapshot                  (* self.stats.buffer_snapshots.append(len(self.buffer)) *)
| StatsRelease              (* leaving with self.stats_lock *)
| MutexRelease              (* leaving with self.mutex *)
| SemRelease                (* filled_slots.release() / empty_slots.release() *)
| Sleep                     (* time.sleep(random.uniform(0.0001, 0.0005)) *)
| Crashed                   (* ended by an uncaught exception *)
| Finished.

(** Control points of the main thread: [start()] then [wait_completion()]. *)
Inductive main_pc :=
| StartProducers (i : nat)  (* for i in range(self.num_producers): thread.start() *)
| StartConsumers (i : nat)  (* for i in range(self.num_consumers): thread.start() *)
| Poll (g : get_pc)         (* while self.get_current_timestep() < self.total_timesteps: *)
| PollSleep                 (* time.sleep(0.1) *)
| Stop                      (* self.running = False *)
| ReleaseEmpty (i : nat)    (* for _ in range(self.num_producers): empty_slots.release() *)
| ReleaseFilled (i : nat)   (* for _ in range(self.num_consumers): filled_slots.release() *)
| JoinProducers (i : nat)   (* for thread in producer_threads: thread.join(timeout=1.0) *)
| JoinConsumers (i : nat)   (* for thread in consumer_threads: thread.join(timeout=1.0) *)
| Completed.                (* wait_completion has returned *)

(** ** The shared object *)

Record ProductionStats := {
  total_produced : Z;
  total_consumed : Z;
  producer_waits : Z;
  consumer_waits : Z;
  buffer_snapshots : list Z
}.

(** A [threading.Lock] is the thread that holds it, if any; a
    [threading.Semaphore] is its counter. *)
Record ProductionLine := {
  buffer_capacity : Z;
  num_producers : Z;
  num_consumers : Z;
  total_timesteps : Z;
  buffer : list piece;
  mutex : option tid;
  empty_slots : Z;
  filled_slots : Z;
  current_timestep : Z;
  running : bool;
  timestep_lock : option tid;
  stats : ProductionStats;
  stats_lock : option tid;
  snapshot_interval : Z
}.

(** The object together with the control point of every thread. *)
Record system := {
  line : ProductionLine;
  at_main : main_pc;
  at_worker : worker -> pc
}.

(** What a step shows to an observer: a piece entering or leaving the
    buffer. *)
Inductive event :=
| Put (p : piece)
| Take (p : piece).

(** ** Field updates *)

Definition set_buffer (b : list piece) (l : ProductionLine) : ProductionLine :=
  {| buffer_capacity := buffer_capacity l; num_producers := num_producers l;
     num_consumers := num_consumers l; total_timesteps := total_timesteps l;
     buffer := b; mutex := mutex l;
     empty_slots := empty_slots l; filled_slots := filled_slots l;
     current_timestep := current_timestep l; running := running l;
     timestep_lock := timestep_lock l; stats := stats l;
     stats_lock := stats_lock l; snapshot_interval := snapshot_interval l |}.

Definition set_mutex (m : option tid) (l : ProductionLine) : ProductionLine :=
  {| buffer_capacity := buffer_capacity l; num_producers := num_producers l;
     num_consumers := num_consumers l; total_timesteps := total_timesteps l;
     buffer := buffer l; mutex := m;
     empty_slots := empty_slots l; filled_slots := filled_slots l;
     current_timestep := current_timestep l; running := running l;
     timestep_lock := timestep_lock l; stats := stats l;
     stats_lock := stats_lock l; snapshot_interval := snapshot_interval l |}.

Definition set_empty_slots (n : Z) (l : ProductionLine) : ProductionLine :=
  {| buffer_capacity := buffer_capacity l; num_producers := num_producers l;
     num_consumers := num_consumers l; total_timesteps := total_timesteps l;
     buffer := buffer l; mutex := mutex l;
     empty_slots := n; filled_slots := filled_slots l;
     current_timestep := current_timestep l; running := running l;
     timestep_lock := timestep_lock l; stats := stats l;
     stats_lock := stats_lock l; snapshot_interval := snapshot_interval l |}.

Definition set_filled_slots (n : Z) (l : ProductionLine) : ProductionLine :=
  {| buffer_capacity := buffer_capacity l; num_producers := num_producers l;
     num_consumers := num_consumers l; total_timesteps := total_timesteps l;
     buffer := buffer l; mutex := mutex l;
     empty_slots := empty_slots l; filled_slots := n;
     current_timestep := current_timestep l; running := running l;
     timestep_lock := timestep_lock l; stats := stats l;
     stats_lock := stats_lock l; snapshot_interval := snapshot_interval l |}.

Definition set_current_timestep (n : Z) (l : ProductionLine) : ProductionLine :=
  {| buffer_capacity := buffer_capacity l; num_producers := num_producers l;
     num_consumers := num_consumers l; total_timesteps := total_timesteps l;
     buffer := buffer l; mutex := mutex l;
     empty_slots := empty_slots l; filled_slots := filled_slots l;
     current_timestep := n; running := running l;
     timestep_lock := timestep_lock l; stats := stats l;
     stats_lock := stats_lock l; snapshot_interval := snapshot_interval l |}.

Definition set_running (b : bool) (l : ProductionLine) : ProductionLine :=
  {| buffer_capacity := buffer_capacity l; num_producers := num_producers l;
     num_consumers := num_consumers l; total_timesteps := total_timesteps l;
     buffer := buffer l; mutex := mutex l;
     empty_slots := empty_slots l; filled_slots := filled_slots l;
     current_timestep := current_timestep l; running := b;
     timestep_lock := timestep_lock l; stats := stats l;
     stats_lock := stats_lock l; snapshot_interval := snapshot_interval l |}.

Definition set_timestep_lock (m : option tid) (l : ProductionLine) : ProductionLine :=
  {| buffer_capacity := buffer_capacity l; num_producers := num_producers l;
     num_consumers := num_consumers l; total_timesteps := total_timesteps l;
     buffer := buffer l; mutex := mutex l;
     empty_slots := empty_slots l; filled_slots := filled_slots l;
     current_timestep := current_timestep l; running := running l;
     timestep_lock := m; stats := stats l;
     stats_lock := stats_lock l; snapshot_interval := snapshot_interval l |}.

Definition set_stats (st : ProductionStats) (l : ProductionLine) : ProductionLine :=
  {| buffer_capacity := buffer_capacity l; num_producers := num_producers l;
     num_consumers := num_consumers l; total_timesteps := total_timesteps l;
     buffer := buffer l; mutex := mutex l;
     empty_slots := empty_slots l; filled_slots := filled_slots l;
     current_timestep := current_timestep l; running := running l;
     timestep_lock := timestep_lock l; stats := st;
     stats_lock := stats_lock l; snapshot_interval := snapshot_interval l |}.

Definition set_stats_lock (m : option tid) (l : ProductionLine) : ProductionLine :=
  {| buffer_capacity := buffer_capacity l; num_producers := num_producers l;
     num_consumers := num_consumers l; total_timesteps := total_timesteps l;
     buffer := buffer l; mutex := mutex l;
     empty_slots := empty_slots l; filled_slots := filled_slots l;
     current_timestep := current_timestep l; running := running l;
     timestep_lock := timestep_lock l; stats := stats l;
     stats_lock := m; snapshot_interval := snapshot_interval l |}.

(** [self.stats.<counter> += 1] for the counter of [k]. *)
Definition bump (k : stat) (st : ProductionStats) : ProductionStats :=
  match k with
  | Produced _ =>
      {| total_produced := total_produced st + 1; total_consumed := total_consumed st;
         producer_waits := producer_waits st; consumer_waits := consumer_waits st;
         buffer_snapshots := buffer_snapshots st |}
  | Consumed =>
      {| total_produced := total_produced st; total_consumed := total_consumed st + 1;
         producer_waits := producer_waits st; consumer_waits := consumer_waits st;
         buffer_snapshots := buffer_snapshots st |}
  | ProducerWait =>
      {| total_produced := total_produced st; total_consumed := total_consumed st;
         producer_waits := producer_waits st + 1; consumer_waits := consumer_waits st;
         buffer_snapshots := buffer_snapshots st |}
  | ConsumerWait =>
      {| total_produced := total_produced st; total_consumed := total_consumed st;
         producer_waits := producer_waits st; consumer_waits := consumer_waits st + 1;
         buffer_snapshots := buffer_snapshots st |}
  end.

(** [self.stats.buffer_snapshots.append(n)]. *)
Definition snapshot (n : Z) (st : ProductionStats) : ProductionStats :=
  {| total_produced := total_produced st; total_consumed := total_consumed st;
     producer_waits := producer_waits st; consumer_waits := consumer_waits st;
     buffer_snapshots := buffer_snapshots st ++ [n] |}.

(** [len(self.buffer)]. *)
Definition len (l : ProductionLine) : Z := Z.of_nat (length (buffer l)).

(** ** The constructor *)

(** [min_consumers = int(num_producers * 1.1)]; [None] when the conversion
    of [num_producers] to a float, or of the product back to an integer,
    raises [OverflowError]. *)
Definition min_consumers (num_producers : Z) : option Z :=
  match PyFloat.of_int num_producers with
  | Some f => PyFloat.to_int (PyFloat.mul f PyFloat.lit_1_1)
  | None => None
  end.

(** The [if validate:] block: the first failing check raises. *)
Definition validation (buffer_capacity num_producers num_consumers total_timesteps : Z)
  : option exn :=
  if buffer_capacity <? 1000 then Some (ValueError BufferMin)
  else if num_producers <? 200 then Some (ValueError ProducersMin)
  else match min_consumers num_producers with
       | None => Some OverflowError
       | Some m =>
           if num_consumers <? m then Some (ValueError (ConsumersMin m))
           else if total_timesteps <? 1000000 then Some (ValueError TimestepsMin)
           else None
       end.

Definition empty_stats : ProductionStats :=
  {| total_produced := 0; total_consumed := 0; producer_waits := 0;
     consumer_waits := 0; buffer_snapshots := [] |}.

(** [ProductionLine(buffer_capacity, num_producers, num_consumers,
    total_timesteps, validate)]: an exception, or the fresh object.
    [threading.Semaphore(buffer_capacity)] raises on a negative value. *)
Definition __init__ (buffer_capacity num_producers num_consumers total_timesteps : Z)
    (validate : bool) : exn + ProductionLine :=
  match (if validate
         then validation buffer_capacity num_producers num_consumers total_timesteps
         else None) with
  | Some e => inl e
  | None =>
      if buffer_capacity <? 0 then inl (ValueError SemaphoreInitialValue)
      else inr {| buffer_capacity := buffer_capacity;
                  num_producers := num_producers;
                  num_consumers := num_consumers;
                  total_timesteps := total_timesteps;
                  buffer := [];
                  mutex := None;
                  empty_slots := buffer_capacity;
                  filled_slots := 0;
                  current_timestep := 0;
                  running := true;
                  timestep_lock := None;
                  stats := empty_stats;
                  stats_lock := None;
                  snapshot_interval := Z.max 1 (total_timesteps / 100) |}
  end.

(** ** Atomic steps *)

(** Thread [t] acquires a free lock; a held lock blocks ([None]). *)
Definition lock_acquire (t : tid) (lk : option tid) : option (option tid) :=
  match lk with
  | None => Some (Some t)
  | Some _ => None
  end.

(** One step inside a call, or its return value. *)
Inductive progress (P R : Type) :=
| Next (p : P)
| Return (r : R).
Arguments Next {P R} p.
Arguments Return {P R} r.

(** [get_current_timestep], one step of thread [t]. *)
Definition get_current_timestep (t : tid) (g : get_pc) (l : ProductionLine)
  : option (ProductionLine * progress get_pc Z) :=
  match g with
  | Get_lock =>
      match lock_acquire t (timestep_lock l) with
      | Some lk => Some (set_timestep_lock lk l, Next Get_read)
      | None => None
      end
  | Get_read => Some (l, Next (Get_unlock (current_timestep l)))
  | Get_unlock v => Some (set_timestep_lock None l, Return v)
  end.

(** [increment_timestep], one step of thread [t]. *)
Definition increment_timestep (t : tid) (i : inc_pc) (l : ProductionLine)
  : option (ProductionLine * progress inc_pc Z) :=
  match i with
  | Inc_lock =>
      match lock_acquire t (timestep_lock l) with
      | Some lk => Some (set_timestep_lock lk l, Next Inc_add)
      | None => None
      end
  | Inc_add => Some (set_current_timestep (current_timestep l + 1) l, Next Inc_read)
  | Inc_read => Some (l, Next (Inc_unlock (current_timestep l)))
  | Inc_unlock v => Some (set_timestep_lock None l, Return v)
  end.

(** [should_continue], one step of thread [t]: [self.running and
    self.get_current_timestep() < self.total_timesteps]. *)
Definition should_continue (t : tid) (c : sc_pc) (l : ProductionLine)
  : option (ProductionLine * progress sc_pc bool) :=
  match c with
  | SC_running =>
      if running l then Some (l, Next (SC_get Get_lock)) else Some (l, Return false)
  | SC_get g =>
      match get_current_timestep t g l with
      | Some (l', Next g') => Some (l', Next (SC_get g'))
      | Some (l', Return v) => Some (l', Return (v <? total_timesteps l'))
      | None => None
      end
  end.

(** The control points [f] with worker [w] moved to [p]. *)
Definition upd (f : worker -> pc) (w : worker) (p : pc) : worker -> pc :=
  fun w' => if worker_eq_dec w' w then p else f w'.

(** Worker [w] moves to [p], the object becomes [l]. *)
Definition goto (s : system) (w : worker) (p : pc) (l : ProductionLine) : system :=
  {| line := l; at_main := at_main s; at_worker := upd (at_worker s) w p |}.

(** The main thread moves to [p], the object becomes [l]. *)
Definition main_goto (s : system) (p : main_pc) (l : ProductionLine) : system :=
  {| line := l; at_main := p; at_worker := at_worker s |}.

(** One step of [producer_task(producer_id)]. *)
Definition producer_task (s : system) (producer_id : nat) : option (system * list event) :=
  let l := line s in
  let w := Producer producer_id in
  let t := Worker w in
  match at_worker s w with
  | Loop c =>
      match should_continue t c l with
      | Some (l', Next c') => Some (goto s w (Loop c') l', [])
      | Some (l', Return true) => Some (goto s w SemAcquire l', [])
      | Some (l', Return false) => Some (goto s w Finished l', [])
      | None => None
      end
  | SemAcquire =>
      if 0 <? empty_slots l
      then Some (goto s w (Recheck SC_running) (set_empty_slots (empty_slots l - 1) l), [])
      else None
  | Recheck c =>
      match should_continue t c l with
      | Some (l', Next c') => Some (goto s w (Recheck c') l', [])
      | Some (l', Return true) => Some (goto s w MutexAcquire l', [])
      | Some (l', Return false) => Some (goto s w ReleaseBack l', [])
      | None => None
      end
  | ReleaseBack =>
      Some (goto s w Finished (set_empty_slots (empty_slots l + 1) l), [])
  | MutexAcquire =>
      match lock_acquire t (mutex l) with
      | Some lk => Some (goto s w TestLen (set_mutex lk l), [])
      | None => None
      end
  | TestLen =>
      if len l <? buffer_capacity l
      then Some (goto s w (Increment Inc_lock) l, [])
      else Some (goto s w (StatsAcquire ProducerWait) l, [])
  | Increment i =>
      match increment_timestep t i l with
      | Some (l', Next i') => Some (goto s w (Increment i') l', [])
      | Some (l', Return v) => Some (goto s w (Append v) l', [])
      | None => None
      end
  | Append timestep =>
      let piece_id := {| piece_producer := producer_id; piece_timestep := timestep |} in
      Some (goto s w (StatsAcquire (Produced timestep))
              (set_buffer (buffer l ++ [piece_id]) l),
            [Put piece_id])
  | StatsAcquire (Produced _ as k) | StatsAcquire (ProducerWait as k) =>
      match lock_acquire t (stats_lock l) with
      | Some lk => Some (goto s w (StatsUpdate k) (set_stats_lock lk l), [])
      | None => None
      end
  | StatsUpdate (Produced timestep as k) =>
      Some (goto s w (SnapTest timestep) (set_stats (bump k (stats l)) l), [])
  | StatsUpdate (ProducerWait as k) =>
      Some (goto s w StatsRelease (set_stats (bump k (stats l)) l), [])
  | SnapTest timestep =>
      if timestep mod snapshot_interval l =? 0
      then Some (goto s w Snapshot l, [])
      else Some (goto s w StatsRelease l, [])
  | Snapshot =>
      Some (goto s w StatsRelease (set_stats (snapshot (len l) (stats l)) l), [])
  | StatsRelease => Some (goto s w MutexRelease (set_stats_lock None l), [])
  | MutexRelease => Some (goto s w SemRelease (set_mutex None l), [])
  | SemRelease =>
      Some (goto s w Sleep (set_filled_slots (filled_slots l + 1) l), [])
  | Sleep => Some (goto s w (Loop SC_running) l, [])
  | Pop | StatsAcquire _ | StatsUpdate _ | NotStarted | Crashed | Finished => None
  end.

(** One step of [consumer_task(consumer_id)]. *)
Definition consumer_task (s : system) (consumer_id : nat) : option (system * list event) :=
  let l := line s in
  let w := Consumer consumer_id in
  let t := Worker w in
  match at_worker s w with
  | Loop c =>
      match should_continue t c l with
      | Some (l', Next c') => Some (goto s w (Loop c') l', [])
      | Some (l', Return true) => Some (goto s w SemAcquire l', [])
      | Some (l', Return false) => Some (goto s w Finished l', [])
      | None => None
      end
  | SemAcquire =>
      if 0 <? filled_slots l
      then Some (goto s w (Recheck SC_running) (set_filled_slots (filled_slots l - 1) l), [])
      else None
  | Recheck c =>
      match should_continue t c l with
      | Some (l', Next c') => Some (goto s w (Recheck c') l', [])
      | Some (l', Return true) => Some (goto s w MutexAcquire l', [])
      | Some (l', Return false) => Some (goto s w ReleaseBack l', [])
      | None => None
      end
  | ReleaseBack =>
      Some (goto s w Finished (set_filled_slots (filled_slots l + 1) l), [])
  | MutexAcquire =>
      match lock_acquire t (mutex l) with
      | Some lk => Some (goto s w TestLen (set_mutex lk l), [])
      | None => None
      end
  | TestLen =>
      if 0 <? len l
      then Some (goto s w Pop l, [])
      else Some (goto s w (StatsAcquire ConsumerWait) l, [])
  | Pop =>
      match buffer l with
      | piece_id :: rest =>
          Some (goto s w (StatsAcquire Consumed) (set_buffer rest l), [Take piece_id])
      | [] => (* IndexError leaves the with block and ends the thread *)
          Some (goto s w Crashed (set_mutex None l), [])
      end
  | StatsAcquire (Consumed as k) | StatsAcquire (ConsumerWait as k) =>
      match lock_acquire t (stats_lock l) with
      | Some lk => Some (goto s w (StatsUpdate k) (set_stats_lock lk l), [])
      | None => None
      end
  | StatsUpdate (Consumed as k) | StatsUpdate (ConsumerWait as k) =>
      Some (goto s w StatsRelease (set_stats (bump k (stats l)) l), [])
  | StatsRelease => Some (goto s w MutexRelease (set_stats_lock None l), [])
  | MutexRelease => Some (goto s w SemRelease (set_mutex None l), [])
  | SemRelease =>
      Some (goto s w Sleep (set_empty_slots (empty_slots l + 1) l), [])
  | Sleep => Some (goto s w (Loop SC_running) l, [])
  | Increment _ | Append _ | SnapTest _ | Snapshot | StatsAcquire _ | StatsUpdate _
  | NotStarted | Crashed | Finished => None
  end.

(** One step of worker [w] in its task. *)
Definition worker_step (s : system) (w : worker) : option (system * list event) :=
  match w with
  | Producer producer_id => producer_task s producer_id
  | Consumer consumer_id => consumer_task s consumer_id
  end.

(** [thread.start()]: the new thread stands at the head of its task. *)
Definition spawn (s : system) (w : worker) (p : main_pc) : system :=
  {| line := line s; at_main := p; at_worker := upd (at_worker s) w (Loop SC_running) |}.

(** One step of the main thread through [start()] and [wait_completion()].
    [thread.join(timeout=1.0)] returns when the thread has ended or when
    the timeout expires, so a join step is always enabled. *)
Definition main_step (s : system) : option (system * list event) :=
  let l := line s in
  match at_main s with
  | StartProducers i =>
      if Z.of_nat i <? num_producers l
      then Some (spawn s (Producer i) (StartProducers (S i)), [])
      else Some (main_goto s (StartConsumers 0) l, [])
  | StartConsumers i =>
      if Z.of_nat i <? num_consumers l
      then Some (spawn s (Consumer i) (StartConsumers (S i)), [])
      else Some (main_goto s (Poll Get_lock) l, [])
  | Poll g =>
      match get_current_timestep Main g l with
      | Some (l', Next g') => Some (main_goto s (Poll g') l', [])
      | Some (l', Return v) =>
          if v <? total_timesteps l'
          then Some (main_goto s PollSleep l', [])
          else Some (main_goto s Stop l', [])
      | None => None
      end
  | PollSleep => Some (main_goto s (Poll Get_lock) l, [])
  | Stop => Some (main_goto s (ReleaseEmpty 0) (set_running false l), [])
  | ReleaseEmpty i =>
      if Z.of_nat i <? num_producers l
      then Some (main_goto s (ReleaseEmpty (S i)) (set_empty_slots (empty_slots l + 1) l), [])
      else Some (main_goto s (ReleaseFilled 0) l, [])
  | ReleaseFilled i =>
      if Z.of_nat i <? num_consumers l
      then Some (main_goto s (ReleaseFilled (S i)) (set_filled_slots (filled_slots l + 1) l), [])
      else Some (main_goto s (JoinProducers 0) l, [])
  | JoinProducers i =>
      if Z.of_nat i <? num_producers l
      then Some (main_goto s (JoinProducers (S i)) l, [])
      else Some (main_goto s (JoinConsumers 0) l, [])
  | JoinConsumers i =>
      if Z.of_nat i <? num_consumers l
      then Some (main_goto s (JoinConsumers (S i)) l, [])
      else Some (main_goto s Completed l, [])
  | Completed => None
  end.

Definition step (s : system) (t : tid) : option (system * list event) :=
  match t with
  | Main => main_step s
  | Worker w => worker_step s w
  end.

(** Runs the threads in the order of the schedule; [None] when the
    schedule names a thread that is blocked or has ended. *)
Fixpoint run (s : system) (schedule : list tid) : option (system * list event) :=
  match schedule with
  | [] => Some (s, [])
  | t :: rest =>
      match step s t with
      | Some (s', e) =>
          match run s' rest with
          | Some (s'', tr) => Some (s'', e ++ tr)
          | None => None
          end
      | None => None
      end
  end.

(** The program of [main()]: the object is built, then [start()] and
    [wait_completion()] run on the main thread. *)
Definition boot (l : ProductionLine) : system :=
  {| line := l; at_main := StartProducers 0; at_worker := fun _ => NotStarted |}.

(** [s] with trace [tr] is reached from the construction with the given
    arguments under some schedule. *)
Definition execution (cap np nc tt : Z) (validate : bool)
    (schedule : list tid) (s : system) (tr : list event) : Prop :=
  exists l0, __init__ cap np nc tt validate = inr l0 /\
             run (boot l0) schedule = Some (s, tr).

(** The pieces put into, and taken from, the buffer along a trace. *)
Fixpoint puts (tr : list event) : list piece :=
  match tr with
  | [] => []
  | Put p :: tr' => p :: puts tr'
  | Take _ :: tr' => puts tr'
  end.

Fixpoint takes (tr : list event) : list piece :=
  match tr with
  | [] => []
  | Put _ :: tr' => takes tr'
  | Take p :: tr' => p :: takes tr'
  end.

(** ** Locks held, read off the control points *)

Inductive lock_name := BufferMutex | TimestepLock | StatsLock.

Definition holder (k : lock_name) (l : ProductionLine) : option tid :=
  match k with
  | BufferMutex => mutex l
  | TimestepLock => timestep_lock l
  | StatsLock => stats_lock l
  end.

Definition tid_eqb (a b : tid) : bool :=
  match a, b with
  | Main, Main => true
  | Worker x, Worker y => if worker_eq_dec x y then true else false
  | _, _ => false
  end.

Definition holds (l : ProductionLine) (t : tid) (k : lock_name) : bool :=
  match holder k l with
  | Some t' => tid_eqb t' t
  | None => false
  end.

(** The locks thread [t] holds, in the order mutex, timestep, statistics. *)
Definition held_by (l : ProductionLine) (t : tid) : list lock_name :=
  filter (holds l t) [BufferMutex; TimestepLock; StatsLock].

(** Control points inside [with self.mutex]. *)
Definition in_mutex (p : pc) : bool :=
  match p with
  | TestLen | Increment _ | Append _ | Pop | StatsAcquire _ | StatsUpdate _
  | SnapTest _ | Snapshot | StatsRelease | MutexRelease => true
  | _ => false
  end.

(** Control points inside [with self.stats_lock]. *)
Definition in_stats_lock (p : pc) : bool :=
  match p with
  | StatsUpdate _ | SnapTest _ | Snapshot | StatsRelease => true
  | _ => false
  end.

(** Control points inside [with self.timestep_lock]. *)
Definition get_in_lock (g : get_pc) : bool :=
  match g with
  | Get_lock => false
  | Get_read | Get_unlock _ => true
  end.

Definition in_timestep_lock (p : pc) : bool :=
  match p with
  | Loop (SC_get g) | Recheck (SC_get g) => get_in_lock g
  | Increment Inc_lock => false
  | Increment _ => true
  | _ => false
  end.

Definition main_in_timestep_lock (p : main_pc) : bool :=
  match p with
  | Poll g => get_in_lock g
  | _ => false
  end.

(** Whether thread [t] stands at a control point selected by [hw] (for a
    worker) or [hm] (for the main thread). *)
Definition stands (hw : pc -> bool) (hm : main_pc -> bool) (s : system) (t : tid) : bool :=
  match t with
  | Main => hm (at_main s)
  | Worker w => hw (at_worker s w)
  end.

(** Threads not yet started by the loops of [start()]. *)
Definition unborn (s : system) : Prop :=
  match at_main s with
  | StartProducers i =>
      (forall j, (i <= j)%nat -> at_worker s (Producer j) = NotStarted) /\
      (forall j, at_worker s (Consumer j) = NotStarted)
  | StartConsumers i =>
      forall j, (i <= j)%nat -> at_worker s (Consumer j) = NotStarted
  | _ => True
  end.

(** Every lock is held by exactly the thread standing inside its block. *)
Record coherent (s : system) : Prop := {
  coh_mutex : forall t, mutex (line s) = Some t <->
                        stands in_mutex (fun _ => false) s t = true;
  coh_timestep : forall t, timestep_lock (line s) = Some t <->
                           stands in_timestep_lock main_in_timestep_lock s t = true;
  coh_stats : forall t, stats_lock (line s) = Some t <->
                        stands in_stats_lock (fun _ => false) s t = true;
  coh_unborn : unborn s
}.

(** The control point of the worker inside the critical section, if any. *)
Definition critical (s : system) : option pc :=
  match mutex (line s) with
  | Some (Worker w) => Some (at_worker s w)
  | _ => None
  end.

(** ** Bookkeeping in flight inside the critical section *)

(** The timestep counter has been incremented for a piece not yet appended. *)
Definition ticking (c : option pc) : Z :=
  match c with
  | Some (Increment Inc_read) | Some (Increment (Inc_unlock _)) | Some (Append _) => 1
  | _ => 0
  end.

(** A piece has been appended and [total_produced] not yet incremented. *)
Definition uncounted_put (c : option pc) : Z :=
  match c with
  | Some (StatsAcquire (Produced _)) | Some (StatsUpdate (Produced _)) => 1
  | _ => 0
  end.

(** A piece has been popped and [total_consumed] not yet incremented. *)
Definition uncounted_take (c : option pc) : Z :=
  match c with
  | Some (StatsAcquire Consumed) | Some (StatsUpdate Consumed) => 1
  | _ => 0
  end.

(** A piece has been appended and its snapshot test is not yet over. *)
Definition unlogged (c : option pc) : Z :=
  match c with
  | Some (StatsAcquire (Produced _)) | Some (StatsUpdate (Produced _))
  | Some (SnapTest _) | Some Snapshot => 1
  | _ => 0
  end.

(** The timesteps 1, 2, ..., n. *)
Definition stamps (n : nat) : list Z := map Z.of_nat (seq 1 n).

Definition count (tr : list piece) : Z := Z.of_nat (length tr).

Definition count_snapshots (s : system) : Z :=
  Z.of_nat (length (buffer_snapshots (stats (line s)))).

(** What the local variable [timestep] of the producer in the critical
    section is worth, and what its tests have established. *)
Definition carried (c : option pc) (l : ProductionLine) (tr : list event) : Prop :=
  match c with
  | Some (Increment (Inc_unlock v)) | Some (Append v) =>
      v = current_timestep l /\ len l < buffer_capacity l
  | Some (Increment _) => len l < buffer_capacity l
  | Some Pop => 0 < len l
  | Some (StatsAcquire (Produced v)) | Some (StatsUpdate (Produced v))
  | Some (SnapTest v) => v = count (puts tr)
  | Some Snapshot => count (puts tr) mod snapshot_interval l = 0
  | _ => True
  end.

(** The state of the object against the trace that led to it. *)
Record consistent (s : system) (tr : list event) : Prop := {
  con_fifo : puts tr = takes tr ++ buffer (line s);
  con_stamps : map piece_timestep (puts tr) = stamps (length (puts tr));
  con_clock : current_timestep (line s) = count (puts tr) + ticking (critical s);
  con_carried : carried (critical s) (line s) tr;
  con_produced : total_produced (stats (line s)) + uncounted_put (critical s)
                 = count (puts tr);
  con_consumed : total_consumed (stats (line s)) + uncounted_take (critical s)
                 = count (takes tr);
  con_snapshots : count_snapshots s
                  = (count (puts tr) - unlogged (critical s)) / snapshot_interval (line s);
  con_capacity : 0 <= len (line s) <= buffer_capacity (line s);
  con_range : Forall (fun v => 0 <= v <= buffer_capacity (line s))
                     (buffer_snapshots (stats (line s)));
  con_interval : snapshot_interval (line s) = Z.max 1 (total_timesteps (line s) / 100)
}.

(** ** The semaphore discipline *)

(** The sum of [f 0], ..., [f (n - 1)]. *)
Fixpoint tally (f : nat -> Z) (n : nat) : Z :=
  match n with
  | O => 0
  | S k => tally f k + f k
  end.

(** The sum of the weights [g] of the control points of the first [n]
    workers of a role. *)
Definition among (role : nat -> worker) (g : pc -> Z) (n : Z) (f : worker -> pc) : Z :=
  tally (fun i => g (f (role i))) (Z.to_nat n).

Definition producers (g : pc -> Z) (s : system) : Z :=
  among Producer g (num_producers (line s)) (at_worker s).

Definition consumers (g : pc -> Z) (s : system) : Z :=
  among Consumer g (num_consumers (line s)) (at_worker s).

(** Weight 1 on the control points where a worker holds what it acquired
    from its semaphore and has not yet used it on the buffer. *)
Definition holding (p : pc) : Z :=
  match p with
  | Recheck _ | ReleaseBack | MutexAcquire | TestLen | Increment _ | Append _ | Pop => 1
  | _ => 0
  end.

(** Among these, the control points from which the worker can still
    reach its buffer operation whatever [self.running] becomes. *)
Definition committed (p : pc) : Z :=
  match p with
  | Recheck (SC_get _) | MutexAcquire | TestLen | Increment _ | Append _ | Pop => 1
  | _ => 0
  end.

(** Weight 1 on the control points between the buffer operation and the
    release of the counterpart semaphore. *)
Definition passing (p : pc) : Z :=
  match p with
  | StatsAcquire _ | StatsUpdate _ | SnapTest _ | Snapshot
  | StatsRelease | MutexRelease | SemRelease => 1
  | _ => 0
  end.

(** The control points of the defensive branches, and the crash of a
    [pop] on an empty buffer. *)
Definition defensive (p : pc) : bool :=
  match p with
  | StatsAcquire ProducerWait | StatsAcquire ConsumerWait
  | StatsUpdate ProducerWait | StatsUpdate ConsumerWait | Crashed => true
  | _ => false
  end.

(** The main thread is past [self.running = False]. *)
Definition stopped (p : main_pc) : bool :=
  match p with
  | ReleaseEmpty _ | ReleaseFilled _ | JoinProducers _ | JoinConsumers _ | Completed => true
  | _ => false
  end.

(** The semaphore discipline: only configured workers exist, none stands
    on a defensive branch, the semaphore counters are not negative; while
    the run is on, every slot is free in [empty_slots], reserved by a
    producer, occupied in the buffer, or being handed back by a consumer,
    and every piece in the buffer is announced in [filled_slots], about to
    be announced by its producer, or reserved by a consumer; at all times
    the producers bound for the buffer find room and the consumers bound
    for it find a piece. *)
Record balanced (s : system) : Prop := {
  bal_producers : forall i, num_producers (line s) <= Z.of_nat i ->
                            at_worker s (Producer i) = NotStarted;
  bal_consumers : forall i, num_consumers (line s) <= Z.of_nat i ->
                            at_worker s (Consumer i) = NotStarted;
  bal_alive : forall w, defensive (at_worker s w) = false;
  bal_counts : 0 <= empty_slots (line s) /\ 0 <= filled_slots (line s);
  bal_stopped : stopped (at_main s) = true -> running (line s) = false;
  bal_slots : running (line s) = true ->
              empty_slots (line s) + producers holding s + consumers passing s + len (line s)
              = buffer_capacity (line s);
  bal_items : running (line s) = true ->
              filled_slots (line s) + producers passing s + consumers holding s
              = len (line s);
  bal_room : producers committed s + consumers passing s + len (line s)
             <= buffer_capacity (line s);
  bal_stock : consumers committed s <= len (line s)
}.

(** ** Validation, as the spec words it *)

(** The consumer minimum in the spec's words, [ceil(1.1 * numProducers)],
    over the rationals: the least integer not below [11 * n / 10]. *)
Definition spec_min_consumers (n : Z) : Z := (11 * n + 9) / 10.

(** The constraint a [ValueError] message names is violated by the
    arguments. *)
Definition violated (m : message) (cap np nc tt : Z) : Prop :=
  match m with
  | BufferMin => cap < 1000
  | ProducersMin => np < 200
  | ConsumersMin k => min_consumers np = Some k /\ nc < k
  | TimestepsMin => tt < 1000000
  | SemaphoreInitialValue => False
  end.

(** The checks that come before the one of message [m], in source order,
    all pass. *)
Definition earlier_pass (m : message) (cap np nc tt : Z) : Prop :=
  match m with
  | BufferMin => True
  | ProducersMin => 1000 <= cap
  | ConsumersMin _ => 1000 <= cap /\ 200 <= np
  | TimestepsMin =>
      1000 <= cap /\ 200 <= np /\ exists k, min_consumers np = Some k /\ k <= nc
  | SemaphoreInitialValue => True
  end.

(** [int(n * 1.1)] is the floor of [11 * n / 10] for the [k] integers from
    [n] on. *)
Fixpoint floor_on_range (k : nat) (n : Z) : bool :=
  match k with
  | O => true
  | S k' =>
      match min_consumers n with
      | Some m => (m =? 11 * n / 10) && floor_on_range k' (n + 1)
      | None => false
      end
  end.

(** ** Running a configuration *)

(** Construction followed by a schedule; [None] when the constructor
    raises or the schedule cannot be followed. *)
Definition outcome (cap np nc tt : Z) (validate : bool) (schedule : list tid)
  : option (system * list event) :=
  match __init__ cap np nc tt validate with
  | inr l0 => run (boot l0) schedule
  | inl _ => None
  end.

(** Every started worker has left its task. *)
Definition workers_ended (s : system) : Prop :=
  forall w, at_worker s w = NotStarted \/ at_worker s w = Finished \/
            at_worker s w = Crashed.

(** Pieces of schedules. *)

(** [start()] up to the first poll: one step for each thread started and
    one to leave each of the two loops. *)
Definition starting (np nc : nat) : list tid := repeat Main (np + nc + 2).

(** A worker from the head of its loop to the door of the critical
    section: the four steps of [should_continue], the acquire, and the four
    steps of the second [should_continue]. *)
Definition approaching (w : worker) : list tid := repeat (Worker w) 9.

(** The shutdown of [wait_completion]: the three steps of a poll that sees
    the target reached, [self.running = False], the two release loops and
    the two join loops. *)
Definition stopping (np nc : nat) : list tid :=
  repeat Main (3 + 1 + (np + 1) + (nc + 1) + (np + 1) + (nc + 1)).

(** Worker [w] alone for [n] steps. *)
Definition only (w : worker) (n : nat) : list tid := repeat (Worker w) n.

(** ** Scenarios *)

(** The reduced configuration of [main()] (capacity 10, 2 producers, 3
    consumers, 100 timesteps, validation off): producer 0 produces a piece,
    consumer 0 takes it, producer 1 appends a second piece and stands
    before its statistics block. *)
Definition toy : list tid :=
  starting 2 3
  ++ approaching (Producer 0) ++ only (Producer 0) 15
  ++ approaching (Consumer 0) ++ only (Consumer 0) 9
  ++ approaching (Producer 1) ++ only (Producer 1) 7.

(** One producer appends its piece; the main thread then sees the target
    reached, stops the run and returns from its joins while the producer
    still stands before its statistics block. *)
Definition timed_out_join : list tid :=
  starting 1 1 ++ approaching (Producer 0) ++ only (Producer 0) 7 ++ stopping 1 1.

(** A producer inside [increment_timestep], called from the critical
    section. *)
Definition nested_locks : list tid :=
  starting 1 1 ++ approaching (Producer 0) ++ only (Producer 0) 3.

(** A producer about to run [self.stats.total_produced += 1]. *)
Definition counting : list tid :=
  starting 1 1 ++ approaching (Producer 0) ++ only (Producer 0) 8.

(** Two producers pass both calls of [should_continue] before either
    enters the critical section; each then produces; the run is stopped
    and both leave their loops. *)
Definition overshoot : list tid :=
  starting 2 0
  ++ approaching (Producer 0) ++ approaching (Producer 1)
  ++ only (Producer 0) 15 ++ only (Producer 1) 15
  ++ stopping 2 0
  ++ only (Producer 0) 1 ++ only (Producer 1) 1.

(** The same with three producers. *)
Definition overshoot_by_two : list tid :=
  starting 3 0
  ++ approaching (Producer 0) ++ approaching (Producer 1) ++ approaching (Producer 2)
  ++ only (Producer 0) 15 ++ only (Producer 1) 15 ++ only (Producer 2) 15
  ++ stopping 3 0
  ++ only (Producer 0) 1 ++ only (Producer 1) 1 ++ only (Producer 2) 1.

(** [k] rounds of producer 0 producing a piece and consumer 0 taking it. *)
Fixpoint handoffs (k : nat) : list tid :=
  match k with
  | O => []
  | S k' =>
      approaching (Producer 0) ++ only (Producer 0) 15
      ++ approaching (Consumer 0) ++ only (Consumer 0) 9
      ++ handoffs k'
  end.

(** The reduced configuration of [main()] run to completion: 99 pieces
    handed over one at a time, then both producers pass
    [should_continue] at timestep 99 and each produces. *)
Definition toy_overshoot : list tid :=
  starting 2 3 ++ handoffs 99
  ++ approaching (Producer 0) ++ approaching (Producer 1)
  ++ only (Producer 0) 15 ++ only (Producer 1) 15
  ++ stopping 2 3
  ++ only (Producer 0) 1 ++ only (Producer 1) 1
  ++ only (Consumer 0) 1 ++ only (Consumer 1) 1 ++ only (Consumer 2) 1.

(** What the final check of a run looks at. *)
Definition summary (r : option (system * list event))
  : option (main_pc * list pc * Z * Z * Z * Z * Z) :=
  match r with
  | Some (s, _) =>
      Some (at_main s,
            map (at_worker s)
              [Producer 0; Producer 1; Consumer 0; Consumer 1; Consumer 2],
            total_timesteps (line s), current_timestep (line s),
            total_produced (stats (line s)), total_consumed (stats (line s)),
            len (line s))
  | None => None
  end.

(** The situations the defensive branches are written for, set up from
    outside as a test of these branches would: a fresh line (capacity 1)
    whose buffer already holds a piece, with producer 0 at the head of
    [producer_task]; and a fresh line whose [filled_slots] was released
    once with nothing in the buffer, with consumer 0 at the head of
    [consumer_task]. *)
Definition prefilled : system :=
  {| line := {| buffer_capacity := 1; num_producers := 1; num_consumers := 1;
                total_timesteps := 10;
                buffer := [{| piece_producer := 7; piece_timestep := 0 |}];
                mutex := None;
                empty_slots := 1; filled_slots := 0;
                current_timestep := 0; running := true; timestep_lock := None;
                stats := empty_stats;
                stats_lock := None; snapshot_interval := 1 |};
     at_main := Poll Get_lock;
     at_worker := upd (fun _ => NotStarted) (Producer 0) (Loop SC_running) |}.

Definition oversignalled : system :=
  {| line := {| buffer_capacity := 1; num_producers := 1; num_consumers := 1;
                total_timesteps := 10;
                buffer := [];
                mutex := None;
                empty_slots := 1; filled_slots := 1;
                current_timestep := 0; running := true; timestep_lock := None;
                stats := empty_stats;
                stats_lock := None; snapshot_interval := 1 |};
     at_main := Poll Get_lock;
     at_worker := upd (fun _ => NotStarted) (Consumer 0) (Loop SC_running) |}.

(** Worker [w] runs alone from the head of its loop through one whole
    iteration that takes the defensive branch. *)
Definition defensive_pass (w : worker) : list tid := approaching w ++ only w 7.

(** [prefilled] with producer 0 brought to the length test. *)
Definition prefilled_at_test : system :=
  match run prefilled (approaching (Producer 0) ++ only (Producer 0) 1) with
  | Some (r, _) => r
  | None => prefilled
  end.

(** The semaphore a worker releases after its critical section:
    [filled_slots] for a producer, [empty_slots] for a consumer. *)
Definition signalled (w : worker) (l : ProductionLine) : Z :=
  match w with
  | Producer _ => filled_slots l
  | Consumer _ => empty_slots l
  end.

(** ** Roles, the polling loop *)

(** Control points of [producer_task]. *)
Definition producer_pc (p : pc) : bool :=
  match p with
  | Pop | StatsAcquire Consumed | StatsAcquire ConsumerWait
  | StatsUpdate Consumed | StatsUpdate ConsumerWait => false
  | _ => true
  end.

(** Control points of [consumer_task]. *)
Definition consumer_pc (p : pc) : bool :=
  match p with
  | Increment _ | Append _ | SnapTest _ | Snapshot
  | StatsAcquire (Produced _) | StatsAcquire ProducerWait
  | StatsUpdate (Produced _) | StatsUpdate ProducerWait => false
  | _ => true
  end.

Definition in_role (s : system) : Prop :=
  forall i, producer_pc (at_worker s (Producer i)) = true /\
            consumer_pc (at_worker s (Consumer i)) = true.

(** The main thread has left the polling loop of [wait_completion]. *)
Definition past_polling (p : main_pc) : bool :=
  match p with
  | Stop => true
  | _ => stopped p
  end.

Record gate (s : system) : Prop := {
  gate_read : forall v, at_main s = Poll (Get_unlock v) -> v <= current_timestep (line s);
  gate_passed : past_polling (at_main s) = true ->
                total_timesteps (line s) <= current_timestep (line s);
  gate_running : running (line s) = false -> stopped (at_main s) = true
}.

(** ** The counter against the total *)

(** Weight 1 on the control points of a producer that has seen the
    counter below [total] in its second [should_continue] and has not yet
    incremented it. *)
Definition armed (total : Z) (p : pc) : Z :=
  match p with
  | Recheck (SC_get (Get_unlock v)) => if v <? total then 1 else 0
  | MutexAcquire | TestLen | Increment Inc_lock | Increment Inc_add => 1
  | _ => 0
  end.

(** The highest value the timestep counter can take. *)
Definition peak (cap np tt : Z) : Z :=
  if 0 <? tt then tt - 1 + Z.min (Z.max 0 np) cap else 0.

Definition bounded_clock (s : system) : Prop :=
  current_timestep (line s) + producers (armed (total_timesteps (line s))) s
  <= peak (buffer_capacity (line s)) (num_producers (line s)) (total_timesteps (line s)).

(** ** The semaphores through the shutdown *)

(** What [wait_completion] has added to [empty_slots] so far. *)
Definition released_empty (p : main_pc) (np : Z) : Z :=
  match p with
  | ReleaseEmpty i => Z.of_nat i
  | ReleaseFilled _ | JoinProducers _ | JoinConsumers _ | Completed => Z.max 0 np
  | _ => 0
  end.

(** What [wait_completion] has added to [filled_slots] so far. *)
Definition released_filled (p : main_pc) (nc : Z) : Z :=
  match p with
  | ReleaseFilled i => Z.of_nat i
  | JoinProducers _ | JoinConsumers _ | Completed => Z.max 0 nc
  | _ => 0
  end.

(** The loop counters of the main thread stay within their ranges. *)
Definition loop_bound (s : system) : Prop :=
  match at_main s with
  | StartProducers i | ReleaseEmpty i | JoinProducers i =>
      Z.of_nat i <= Z.max 0 (num_producers (line s))
  | StartConsumers i | ReleaseFilled i | JoinConsumers i =>
      Z.of_nat i <= Z.max 0 (num_consumers (line s))
  | _ => True
  end.

(** The two semaphores at all times, shutdown included. *)
Record ledger (s : system) : Prop := {
  led_bound : loop_bound s;
  led_slots : empty_slots (line s) + producers holding s + consumers passing s + len (line s)
              = buffer_capacity (line s)
                + released_empty (at_main s) (num_producers (line s));
  led_items : filled_slots (line s) + producers passing s + consumers holding s
              = len (line s) + released_filled (at_main s) (num_consumers (line s))
}.

(** ** Threads that can step *)

(** Thread [t] is not blocked: it has a step. *)
Definition enabled (s : system) (t : tid) : bool :=
  match step s t with
  | Some _ => true
  | None => false
  end.

(** Weight 1 on the control points of a worker that has started and not
    ended. *)
Definition live (p : pc) : Z :=
  match p with
  | NotStarted | Finished | Crashed => 0
  | _ => 1
  end.

(** ** Steps left after the stop *)

(** An upper bound on the steps a worker at [p] still takes once
    [self.running] is [False]: with the flag down no control point leads
    back to an earlier one. *)
Definition rank (p : pc) : Z :=
  match p with
  | NotStarted | Finished | Crashed => 0
  | ReleaseBack => 1
  | Recheck SC_running => 2
  | SemAcquire => 3
  | Loop (SC_get (Get_unlock _)) => 4
  | Loop (SC_get Get_read) => 5
  | Loop (SC_get Get_lock) => 6
  | Loop SC_running => 7
  | Sleep => 8
  | SemRelease => 9
  | MutexRelease => 10
  | StatsRelease => 11
  | Snapshot => 12
  | SnapTest _ => 13
  | StatsUpdate _ => 14
  | StatsAcquire _ => 15
  | Append _ | Pop => 16
  | Increment (Inc_unlock _) => 17
  | Increment Inc_read => 18
  | Increment Inc_add => 19
  | Increment Inc_lock => 20
  | TestLen => 21
  | MutexAcquire => 22
  | Recheck (SC_get (Get_unlock _)) => 23
  | Recheck (SC_get Get_read) => 24
  | Recheck (SC_get Get_lock) => 25
  end.

(** The steps the main thread still takes from a control point of the
    shutdown: what is left of the two release loops and the two join
    loops, with one step to leave each loop. *)
Definition main_rank (p : main_pc) (np nc : Z) : Z :=
  let P := Z.max 0 np in
  let C := Z.max 0 nc in
  match p with
  | ReleaseEmpty i => (P - Z.of_nat i + 1) + (C + 1) + (P + 1) + (C + 1)
  | ReleaseFilled i => (C - Z.of_nat i + 1) + (P + 1) + (C + 1)
  | JoinProducers i => (P - Z.of_nat i + 1) + (C + 1)
  | JoinConsumers i => C - Z.of_nat i + 1
  | _ => 0
  end.

(** An upper bound on the steps all threads together still take once the
    run is stopped. *)
Definition remaining (s : system) : Z :=
  main_rank (at_main s) (num_producers (line s)) (num_consumers (line s))
  + producers rank s + consumers rank s.

(** ** Threads started *)

(** Whether [start()] has started worker [w] when the main thread stands
    at [p]. *)
Definition started (p : main_pc) (np nc : Z) (w : worker) : bool :=
  match w, p with
  | Producer j, StartProducers i => (j <? i)%nat
  | Consumer _, StartProducers _ => false
  | Consumer j, StartConsumers i => (j <? i)%nat
  | Producer j, _ => Z.of_nat j <? np
  | Consumer j, _ => Z.of_nat j <? nc
  end.

(** [start()] has returned. *)
Definition after_start (p : main_pc) : bool :=
  match p with
  | StartProducers _ | StartConsumers _ => false
  | _ => true
  end.

Definition launched (s : system) : Prop :=
  forall w, at_worker s w = NotStarted <->
            started (at_main s) (num_producers (line s)) (num_consumers (line s)) w = false.

(** ** Snapshots *)

(** A snapshot is taken with the piece just appended still in the
    buffer. *)
Record recorded (s : system) : Prop := {
  rec_fresh : unlogged (critical s) = 1 -> 0 < len (line s);
  rec_positive : Forall (fun n => 1 <= n) (buffer_snapshots (stats (line s)))
}.

(** ** Python values of the report and of its analysis *)

Module Py.

(** The exceptions raised by the code of the report and of its analysis. *)
Inductive error :=
| KeyError (key : String.string)
| TypeError
| ValueError
| ZeroDivisionError
| OverflowError.

(** A value known to be an [int] or a [float]. *)
Inductive number :=
| Int (n : Z)
| Float (x : spec_float).

(** What [json.load] returns: [None], a [bool], an [int], a [float], a
    [str], a [list], or a [dict] with its items in order; a [dict] holds
    no two items under the same key. *)
#[local] Unset Elimination Schemes.
Inductive value :=
| VNone
| VBool (b : bool)
| VInt (n : Z)
| VFloat (x : spec_float)
| VStr (s : String.string)
| VList (items : list value)
| VDict (items : list (String.string * value)).
#[local] Set Elimination Schemes.

End Py.

(** Raising and propagating. *)
Definition bind {A B : Type} (x : Py.error + A) (k : A -> Py.error + B) : Py.error + B :=
  match x with
  | inl e => inl e
  | inr a => k a
  end.

Notation "'let!' x ':=' e 'in' k" := (bind e (fun x => k))
  (at level 10, x name, e at level 200, k at level 200).

(** ** Arithmetic on Python numbers *)

(** [float(n)] for a number. *)
Definition to_float (n : Py.number) : Py.error + spec_float :=
  match n with
  | Py.Int k =>
      match PyFloat.of_int k with
      | Some f => inr f
      | None => inl Py.OverflowError
      end
  | Py.Float x => inr x
  end.

(** [bool(x)] for a float: false for 0.0 and -0.0 only. *)
Definition float_bool (x : spec_float) : bool :=
  match x with
  | S754_zero _ => false
  | _ => true
  end.

(** [x > 0] for a float; false for NaN. *)
Definition float_positive (x : spec_float) : bool := SFltb (S754_zero false) x.

(** [a / b] for two floats. *)
Definition float_truediv (a b : spec_float) : Py.error + spec_float :=
  match b with
  | S754_zero _ => inl Py.ZeroDivisionError
  | _ => inr (SFdiv PyFloat.prec PyFloat.emax a b)
  end.

(** [a / b] for two ints: the float nearest to the quotient. *)
Definition int_truediv (a b : Z) : Py.error + spec_float :=
  match b with
  | Z0 => inl Py.ZeroDivisionError
  | _ =>
      match a with
      | Z0 => inr (S754_zero (b <? 0))
      | _ =>
          match SFdiv PyFloat.prec PyFloat.emax
                  (S754_finite (a <? 0) (Z.to_pos (Z.abs a)) 0)
                  (S754_finite (b <? 0) (Z.to_pos (Z.abs b)) 0) with
          | S754_infinity _ => inl Py.OverflowError
          | q => inr q
          end
      end
  end.

(** [a / b] for two numbers: both operands are converted before the
    divisor is tested. *)
Definition number_truediv (a b : Py.number) : Py.error + spec_float :=
  match a, b with
  | Py.Int x, Py.Int y => int_truediv x y
  | _, _ =>
      let! x := to_float a in
      let! y := to_float b in
      float_truediv x y
  end.

(** [x * n] for a float and an int. *)
Definition float_times_int (x : spec_float) (n : Z) : Py.error + spec_float :=
  let! f := to_float (Py.Int n) in
  inr (SFmul PyFloat.prec PyFloat.emax x f).

(** The integer nearest to [n / d], ties to the even one ([d > 0]). *)
Definition round_half_even (n d : Z) : Z :=
  let q := n / d in
  match 2 * (n mod d) ?= d with
  | Lt => q
  | Gt => q + 1
  | Eq => if Z.even q then q else q + 1
  end.

(** [round(x, 2)] for a float: the float nearest to the exact value of
    [x] rounded to hundredths, ties to even; infinities and NaN are
    returned as they are. *)
Definition round2 (x : spec_float) : spec_float :=
  match x with
  | S754_finite s m e =>
      let hundredths := match e with
                        | Zneg p => round_half_even (Zpos m * 100) (2 ^ Zpos p)
                        | _ => Zpos m * 100 * 2 ^ e
                        end in
      match hundredths with
      | Zpos k =>
          SFdiv PyFloat.prec PyFloat.emax (S754_finite s k 0) (S754_finite false 100 0)
      | _ => S754_zero s
      end
  | _ => x
  end.

(** ** The report *)

(** The dictionary [get_report] returns, section by section, under the
    keys of the source. *)
Module Report.

Record configuracao := {
  capacidade_buffer : Z;
  num_produtores : Z;
  num_consumidores : Z;
  total_timesteps : Z
}.

Record resultados := {
  total_produzido : Z;
  total_consumido : Z;
  itens_restantes_buffer : Z;
  esperas_produtores : Z;
  esperas_consumidores : Z
}.

Record desempenho := {
  tempo_execucao_segundos : Py.number;
  taxa_producao_por_segundo : Py.number;
  taxa_consumo_por_segundo : Py.number
}.

Record dict := {
  configuracao_ : configuracao;
  resultados_ : resultados;
  desempenho_ : desempenho;
  buffer_snapshots : list Z
}.

End Report.

(** [self.end_time - self.start_time if self.end_time else 0]; [None] is
    the int [0] of the [else] branch.  The two attributes are [None] until
    [start()] and [wait_completion()] set them to [time.time()]. *)
Definition execution_time (start_time end_time : option spec_float)
  : Py.error + option spec_float :=
  match end_time with
  | Some e =>
      if float_bool e
      then match start_time with
           | Some b => inr (Some (SFsub PyFloat.prec PyFloat.emax e b))
           | None => inl Py.TypeError
           end
      else inr None
  | None => inr None
  end.

(** [round(total / execution_time, 2) if execution_time > 0 else 0]. *)
Definition rate (total : Z) (execution_time : option spec_float)
  : Py.error + Py.number :=
  match execution_time with
  | Some d =>
      if float_positive d
      then let! q := number_truediv (Py.Int total) (Py.Float d) in
           inr (Py.Float (round2 q))
      else inr (Py.Int 0)
  | None => inr (Py.Int 0)
  end.

(** [get_report()], on an object whose [start_time] and [end_time] are as
    given; the fields are read from one state of the object, as they are
    when no worker runs any more. *)
Definition get_report (l : ProductionLine) (start_time end_time : option spec_float)
  : Py.error + Report.dict :=
  let! t := execution_time start_time end_time in
  let! taxa_producao := rate (total_produced (stats l)) t in
  let! taxa_consumo := rate (total_consumed (stats l)) t in
  inr {| Report.configuracao_ :=
           {| Report.capacidade_buffer := buffer_capacity l;
              Report.num_produtores := num_producers l;
              Report.num_consumidores := num_consumers l;
              Report.total_timesteps := total_timesteps l |};
         Report.resultados_ :=
           {| Report.total_produzido := total_produced (stats l);
              Report.total_consumido := total_consumed (stats l);
              Report.itens_restantes_buffer := len l;
              Report.esperas_produtores := producer_waits (stats l);
              Report.esperas_consumidores := consumer_waits (stats l) |};
         Report.desempenho_ :=
           {| Report.tempo_execucao_segundos :=
                match t with
                | Some d => Py.Float (round2 d)
                | None => Py.Int 0
                end;
              Report.taxa_producao_por_segundo := taxa_producao;
              Report.taxa_consumo_por_segundo := taxa_consumo |};
         Report.buffer_snapshots := buffer_snapshots (stats l) |}.

(** ** Reading reports: [print_report] and [src/analyze_results.py]

    [ProductionAnalyzer.reports] is the list of the values [load_report]
    read with [json.load].  Of [create_comparison_table] the embedding
    keeps the list [data] its loop builds, one dictionary for each report,
    with the values as they are read; the data frame [pd.DataFrame(data)]
    the function returns, whose columns pandas types (an int next to floats
    becomes a float), is not modelled.  Of [print_report] and
    [generate_full_report] it keeps the values looked up and formatted,
    in the order of the source, and the three numbers of the analysis
    block, not the text written. *)

(** The dictionary of [get_report] as a Python value; [json.load] gives
    the same value back from what [json.dump] wrote for it: the same keys
    in the same order, every number as it was. *)
Definition json_of_number (n : Py.number) : Py.value :=
  match n with
  | Py.Int k => Py.VInt k
  | Py.Float x => Py.VFloat x
  end.

Definition json_of_report (r : Report.dict) : Py.value :=
  Py.VDict
    [ ("configuracao"%string,
       Py.VDict
         [ ("capacidade_buffer"%string,
            Py.VInt (Report.capacidade_buffer (Report.configuracao_ r)));
           ("num_produtores"%string,
            Py.VInt (Report.num_produtores (Report.configuracao_ r)));
           ("num_consumidores"%string,
            Py.VInt (Report.num_consumidores (Report.configuracao_ r)));
           ("total_timesteps"%string,
            Py.VInt (Report.total_timesteps (Report.configuracao_ r))) ]);
      ("resultados"%string,
       Py.VDict
         [ ("total_produzido"%string,
            Py.VInt (Report.total_produzido (Report.resultados_ r)));
           ("total_consumido"%string,
            Py.VInt (Report.total_consumido (Report.resultados_ r)));
           ("itens_restantes_buffer"%string,
            Py.VInt (Report.itens_restantes_buffer (Report.resultados_ r)));
           ("esperas_produtores"%string,
            Py.VInt (Report.esperas_produtores (Report.resultados_ r)));
           ("esperas_consumidores"%string,
            Py.VInt (Report.esperas_consumidores (Report.resultados_ r))) ]);
      ("desempenho"%string,
       Py.VDict
         [ ("tempo_execucao_segundos"%string,
            json_of_number (Report.tempo_execucao_segundos (Report.desempenho_ r)));
           ("taxa_producao_por_segundo"%string,
            json_of_number (Report.taxa_producao_por_segundo (Report.desempenho_ r)));
           ("taxa_consumo_por_segundo"%string,
            json_of_number (Report.taxa_consumo_por_segundo (Report.desempenho_ r))) ]);
      ("buffer_snapshots"%string, Py.VList (map Py.VInt (Report.buffer_snapshots r))) ].

(** The value under [key] in the items of a [dict]. *)
Fixpoint lookup (key : String.string) (items : list (String.string * Py.value))
  : option Py.value :=
  match items with
  | [] => None
  | (k, v) :: rest => if String.eqb k key then Some v else lookup key rest
  end.

(** [v[key]] for a [str] key: only a [dict] can be indexed so. *)
Definition subscript (v : Py.value) (key : String.string) : Py.error + Py.value :=
  match v with
  | Py.VDict items =>
      match lookup key items with
      | Some x => inr x
      | None => inl (Py.KeyError key)
      end
  | _ => inl Py.TypeError
  end.

(** A [bool], an [int] or a [float] as a number; a [bool] counts as the
    int 0 or 1. *)
Definition as_number (v : Py.value) : option Py.number :=
  match v with
  | Py.VBool b => Some (Py.Int (if b then 1 else 0))
  | Py.VInt n => Some (Py.Int n)
  | Py.VFloat x => Some (Py.Float x)
  | _ => None
  end.

(** [f"{v:,}"]: whether the formatting raises.  The limit the interpreter
    sets on the digits of an [int] turned into text (4300 by default from
    CPython 3.11, a [ValueError] beyond) is left out: the integers are
    taken below it. *)
Definition format_comma (v : Py.value) : Py.error + unit :=
  match v with
  | Py.VBool _ | Py.VInt _ | Py.VFloat _ => inr tt
  | Py.VStr _ => inl Py.ValueError
  | _ => inl Py.TypeError
  end.

(** [f"{v:.2f}"]: whether the formatting raises; an [int] is converted
    to a float first. *)
Definition format_2f (v : Py.value) : Py.error + unit :=
  match v with
  | Py.VStr _ => inl Py.ValueError
  | _ =>
      match as_number v with
      | Some n => let! _ := to_float n in inr tt
      | None => inl Py.TypeError
      end
  end.

(** [v > 0]. *)
Definition greater_than_zero (v : Py.value) : Py.error + bool :=
  match as_number v with
  | Some (Py.Int n) => inr (0 <? n)
  | Some (Py.Float x) => inr (float_positive x)
  | None => inl Py.TypeError
  end.

(** [a / b]. *)
Definition truediv (a b : Py.value) : Py.error + spec_float :=
  match as_number a, as_number b with
  | Some x, Some y => number_truediv x y
  | _, _ => inl Py.TypeError
  end.

(** The dictionary appended to [data] for a report, key by key. *)
Record row := {
  Configuracao : Z;
  Buffer : Py.value;
  Produtores : Py.value;
  Consumidores : Py.value;
  Timesteps : Py.value;
  Produzido : Py.value;
  Consumido : Py.value;
  Restante : Py.value;
  Tempo : Py.value;
  Taxa_Prod : Py.value;
  Taxa_Cons : Py.value
}.

(** The loop of [create_comparison_table] from index [i] on: the
    dictionaries appended to [data]. *)
Fixpoint comparison_rows (i : Z) (reports : list Py.value) : Py.error + list row :=
  match reports with
  | [] => inr []
  | report :: rest =>
      let! config := subscript report "configuracao"%string in
      let! results := subscript report "resultados"%string in
      let! perf := subscript report "desempenho"%string in
      let! buffer := subscript config "capacidade_buffer"%string in
      let! produtores := subscript config "num_produtores"%string in
      let! consumidores := subscript config "num_consumidores"%string in
      let! timesteps := subscript config "total_timesteps"%string in
      let! produzido := subscript results "total_produzido"%string in
      let! consumido := subscript results "total_consumido"%string in
      let! restante := subscript results "itens_restantes_buffer"%string in
      let! tempo := subscript perf "tempo_execucao_segundos"%string in
      let! taxa_prod := subscript perf "taxa_producao_por_segundo"%string in
      let! taxa_cons := subscript perf "taxa_consumo_por_segundo"%string in
      let! more := comparison_rows (i + 1) rest in
      inr ({| Configuracao := i + 1;
              Buffer := buffer; Produtores := produtores;
              Consumidores := consumidores; Timesteps := timesteps;
              Produzido := produzido; Consumido := consumido; Restante := restante;
              Tempo := tempo; Taxa_Prod := taxa_prod; Taxa_Cons := taxa_cons |}
           :: more)
  end.

(** The list [data] at the end of the loop of [create_comparison_table],
    the argument of [pd.DataFrame]. *)
Definition create_comparison_table_data (reports : list Py.value) : Py.error + list row :=
  comparison_rows 0 reports.

(** [f.write(f"... {d[key]:,}")] and [f.write(f"... {d[key]:.2f}")]. *)
Definition write_comma (d : Py.value) (key : String.string) : Py.error + unit :=
  let! v := subscript d key in format_comma v.

Definition write_2f (d : Py.value) (key : String.string) : Py.error + unit :=
  let! v := subscript d key in format_2f v.

(** The three numbers of the analysis block; [eficiencia] is a float, or
    the int [0] of the [else] branch. *)
Record analise := {
  eficiencia : Py.number;
  taxa_ocupacao : spec_float;
  ratio : spec_float
}.

(** The body of the loop of [generate_full_report] for one report. *)
Definition report_section (report : Py.value) : Py.error + analise :=
  let! config := subscript report "configuracao"%string in
  let! results := subscript report "resultados"%string in
  let! perf := subscript report "desempenho"%string in
  let! _ := write_comma config "capacidade_buffer"%string in
  let! _ := write_comma config "num_produtores"%string in
  let! _ := write_comma config "num_consumidores"%string in
  let! _ := write_comma config "total_timesteps"%string in
  let! _ := write_comma results "total_produzido"%string in
  let! _ := write_comma results "total_consumido"%string in
  let! _ := write_comma results "itens_restantes_buffer"%string in
  let! _ := write_comma results "esperas_produtores"%string in
  let! _ := write_comma results "esperas_consumidores"%string in
  let! _ := write_2f perf "tempo_execucao_segundos"%string in
  let! _ := write_2f perf "taxa_producao_por_segundo"%string in
  let! _ := write_2f perf "taxa_consumo_por_segundo"%string in
  let! eficiencia :=
    (let! produzido := subscript results "total_produzido"%string in
     let! positive := greater_than_zero produzido in
     if positive
     then let! consumido := subscript results "total_consumido"%string in
          let! produzido := subscript results "total_produzido"%string in
          let! q := truediv consumido produzido in
          let! x := float_times_int q 100 in
          inr (Py.Float x)
     else inr (Py.Int 0)) in
  let! _ := format_2f (json_of_number eficiencia) in
  let! taxa_ocupacao :=
    (let! restante := subscript results "itens_restantes_buffer"%string in
     let! capacidade := subscript config "capacidade_buffer"%string in
     let! q := truediv restante capacidade in
     float_times_int q 100) in
  let! _ := format_2f (Py.VFloat taxa_ocupacao) in
  let! ratio :=
    (let! consumidores := subscript config "num_consumidores"%string in
     let! produtores := subscript config "num_produtores"%string in
     truediv consumidores produtores) in
  let! _ := format_2f (Py.VFloat ratio) in
  inr {| eficiencia := eficiencia; taxa_ocupacao := taxa_ocupacao; ratio := ratio |}.

(** [generate_full_report()]: the analysis of every report, in order; the
    first exception ends the loop. *)
Fixpoint generate_full_report (reports : list Py.value) : Py.error + list analise :=
  match reports with
  | [] => inr []
  | report :: rest =>
      let! a := report_section report in
      let! more := generate_full_report rest in
      inr (a :: more)
  end.




(** The keys [create_comparison_table] looks up. *)
Definition table_keys : list String.string :=
  [ "configuracao"; "resultados"; "desempenho";
    "capacidade_buffer"; "num_produtores"; "num_consumidores"; "total_timesteps";
    "total_produzido"; "total_consumido"; "itens_restantes_buffer";
    "tempo_execucao_segundos"; "taxa_producao_por_segundo";
    "taxa_consumo_por_segundo" ]%string.

(** The dictionary appended to [data] for a report of [get_report]. *)
Definition expected_row (n : nat) (r : Report.dict) : row :=
  {| Configuracao := Z.of_nat n + 1;
     Buffer := Py.VInt (Report.capacidade_buffer (Report.configuracao_ r));
     Produtores := Py.VInt (Report.num_produtores (Report.configuracao_ r));
     Consumidores := Py.VInt (Report.num_consumidores (Report.configuracao_ r));
     Timesteps := Py.VInt (Report.total_timesteps (Report.configuracao_ r));
     Produzido := Py.VInt (Report.total_produzido (Report.resultados_ r));
     Consumido := Py.VInt (Report.total_consumido (Report.resultados_ r));
     Restante := Py.VInt (Report.itens_restantes_buffer (Report.resultados_ r));
     Tempo := json_of_number (Report.tempo_execucao_segundos (Report.desempenho_ r));
     Taxa_Prod := json_of_number (Report.taxa_producao_por_segundo (Report.desempenho_ r));
     Taxa_Cons := json_of_number (Report.taxa_consumo_por_segundo (Report.desempenho_ r)) |}.

(** ** The pieces the consumers can take *)

(** Weight 1 on the control points of a consumer that has seen the
    counter below [total] in its second [should_continue] and has not yet
    taken its piece. *)
Definition eager (total : Z) (p : pc) : Z :=
  match p with
  | Recheck (SC_get (Get_unlock v)) => if v <? total then 1 else 0
  | MutexAcquire | TestLen | Pop => 1
  | _ => 0
  end.

(** The pieces taken and the consumers about to take one stay below the
    total. *)
Definition starved (s : system) (tr : list event) : Prop :=
  count (takes tr) + consumers (eager (total_timesteps (line s))) s
  <= Z.max 0 (total_timesteps (line s) - 1).

(** ** Between two iterations *)

(** Every worker stands at the head of its loop, or is not started. *)
Definition idle (s : system) : Prop :=
  forall w, at_worker s w = Loop SC_running \/ at_worker s w = NotStarted.

(** Between two iterations: [start()] has returned, the main thread is
    about to poll, no worker is inside an iteration, the buffer holds
    [items] and both semaphores agree with it, the counter is [c]. *)
Record settled (c : Z) (items : list piece) (s : system) : Prop := {
  stl_main : at_main s = Poll Get_lock;
  stl_idle : idle s;
  stl_producer : at_worker s (Producer 0) = Loop SC_running;
  stl_consumer : at_worker s (Consumer 0) = Loop SC_running;
  stl_running : running (line s) = true;
  stl_mutex : mutex (line s) = None;
  stl_timestep_lock : timestep_lock (line s) = None;
  stl_stats_lock : stats_lock (line s) = None;
  stl_buffer : buffer (line s) = items;
  stl_empty : empty_slots (line s) = buffer_capacity (line s) - count items;
  stl_filled : filled_slots (line s) = count items;
  stl_clock : current_timestep (line s) = c
}.

(** Steps of the main thread left in [start()]. *)
Definition start_rank (s : system) : nat :=
  match at_main s with
  | StartProducers i =>
      Z.to_nat (num_producers (line s) - Z.of_nat i)
      + Z.to_nat (num_consumers (line s)) + 2
  | StartConsumers i => Z.to_nat (num_consumers (line s) - Z.of_nat i) + 1
  | _ => 0
  end.

(** ** Workers that stay, workers that wait *)

(** A worker on its way out of its loop: it has read a counter at or
    above [total] in [should_continue], or it stands past the failed
    test. *)
Definition leaving (total : Z) (p : pc) : bool :=
  match p with
  | Loop (SC_get (Get_unlock v)) | Recheck (SC_get (Get_unlock v)) => total <=? v
  | ReleaseBack | Finished => true
  | _ => false
  end.

(** While the counter is below the total no worker leaves its loop. *)
Definition staying (s : system) : Prop :=
  current_timestep (line s) < total_timesteps (line s) ->
  forall w, leaving (total_timesteps (line s)) (at_worker s w) = false.

(** Thread [t] can step, and if it is the main thread it stands inside
    [get_current_timestep], holding the timestep lock. *)
Definition moving (s : system) (t : tid) : Prop :=
  enabled s t = true /\ (t = Main -> timestep_lock (line s) = Some Main).

(** The main thread in the polling loop of [wait_completion], reading a
    counter below the total, the timestep lock being its own or free. *)
Definition polling (l : ProductionLine) (p : main_pc) : Prop :=
  match p with
  | Poll Get_lock | PollSleep => timestep_lock l = None
  | Poll Get_read => timestep_lock l = Some Main
  | Poll (Get_unlock v) => timestep_lock l = Some Main /\ v < total_timesteps l
  | _ => False
  end.

(** No consumer was started, every producer started waits for an empty
    slot and there is none, the counter is below the total and the main
    thread polls. *)
Definition parked (s : system) : Prop :=
  empty_slots (line s) = 0 /\
  current_timestep (line s) < total_timesteps (line s) /\
  (forall i, at_worker s (Producer i) = SemAcquire \/ at_worker s (Producer i) = NotStarted) /\
  (forall i, at_worker s (Consumer i) = NotStarted) /\
  polling (line s) (at_main s).

(** * Properties *)

(** ** Updates of the control points *)

Lemma upd_same f w p : upd f w p w = p.
Proof. unfold upd. destruct (worker_eq_dec w w); congruence. Qed.

Lemma upd_other f w p w' : w' <> w -> upd f w p w' = f w'.
Proof. unfold upd. destruct (worker_eq_dec w' w); congruence. Qed.

Lemma lock_acquire_some t lk r : lock_acquire t lk = Some r -> lk = None /\ r = Some t.
Proof. destruct lk; simpl; intros H; inversion H; auto. Qed.

(** Case analysis on a step that succeeded: every test and every match
    of the step function is decided, and the resulting system is made
    explicit. *)
Ltac crack :=
  repeat match goal with
    | H : Some _ = Some _ |- _ => inversion H; subst; clear H
    | H : None = Some _ |- _ => discriminate H
    | H : lock_acquire _ _ = Some _ |- _ =>
        apply lock_acquire_some in H; destruct H; subst
    | H : (match ?x with _ => _ end) = Some _ |- _ =>
        (is_var x; destruct x) || (let E := fresh "E" in destruct x eqn:E)
    | H : (if ?x then _ else _) = Some _ |- _ =>
        let E := fresh "E" in destruct x eqn:E
    end.

(** Projections of updated records. *)
Ltac fields :=
  unfold goto, main_goto, spawn in *;
  cbn [line at_main at_worker stands
       set_buffer set_mutex set_empty_slots set_filled_slots set_current_timestep
       set_running set_timestep_lock set_stats set_stats_lock
       buffer_capacity num_producers num_consumers total_timesteps buffer mutex
       empty_slots filled_slots current_timestep running timestep_lock stats
       stats_lock snapshot_interval] in *.

(** ** Locks and control points agree

    [coherent] is preserved by every step: a lock is taken at the entry of
    its block and released at its exit, by the same thread. *)

(** Who holds a lock after a worker's step, from who held it before. *)
Ltac owner w E H :=
  let t := fresh "t" in
  let w' := fresh "w" in
  intros t;
  pose proof (H (Worker w)) as ?Hw; pose proof (H t) as ?Ht;
  destruct t as [|w']; fields;
  [ | destruct (worker_eq_dec w' w) as [->|?];
      [ rewrite upd_same | rewrite upd_other by assumption ] ];
  rewrite ?E in *; cbn [in_mutex in_stats_lock in_timestep_lock get_in_lock] in *;
  solve [intuition (try congruence; try discriminate)].

Ltac still_unborn :=
  unfold unborn in *; fields;
  match goal with
  | |- match ?pm with _ => _ end => destruct pm; try exact I
  end;
  repeat match goal with
    | H : _ /\ _ |- _ => destruct H
    | |- _ /\ _ => split
    end;
  intros;
  (rewrite upd_other;
   [ auto
   | match goal with
     | E : ?f ?w = _ |- _ <> ?w =>
         let Heq := fresh in
         intro Heq; rewrite <- Heq in E;
         match goal with
         | H : forall _, _ |- _ => rewrite H in E by assumption; discriminate E
         end
     end ]).

Lemma worker_step_coherent s w s' e :
  coherent s -> worker_step s w = Some (s', e) -> coherent s'.
Proof.
  intros [Hm Ht Hs Hu] H.
  destruct s as [l pm pw]. 
  unfold worker_step, producer_task, consumer_task, should_continue,
    get_current_timestep, increment_timestep in H.
  fields. crack.
  all: match goal with
       | E : ?f ?w = _ |- coherent {| line := _; at_main := _; at_worker := upd ?f ?w _ |} =>
           split; [owner w E Hm | owner w E Ht | owner w E Hs | still_unborn]
       end.
Qed.

(** Who holds a lock after a step of the main thread. *)
Ltac main_owner H Hu :=
  let t := fresh "t" in
  let w' := fresh "w" in
  intros t;
  pose proof (H Main) as ?Hmain; pose proof (H t) as ?Ht;
  destruct t as [|w']; fields;
  cbn [main_in_timestep_lock get_in_lock] in *;
  try solve [intuition (try congruence; try discriminate)];
  match goal with
  | |- context [upd ?f ?w ?p w'] =>
      unfold unborn in Hu; fields;
      destruct (worker_eq_dec w' w) as [->|?];
      [ rewrite upd_same;
        let Hw := fresh in
        assert (Hw : f w = NotStarted) by (apply Hu; lia);
        rewrite Hw in *
      | rewrite upd_other by assumption ];
      cbn [in_mutex in_stats_lock in_timestep_lock get_in_lock] in *;
      solve [intuition (try congruence; try discriminate)]
  end.

Lemma main_step_coherent s s' e :
  coherent s -> main_step s = Some (s', e) -> coherent s'.
Proof.
  intros [Hm Ht Hs Hu] H.
  destruct s as [l pm pw]. 
  unfold main_step, get_current_timestep in H.
  fields. crack.
  all: split; [main_owner Hm Hu | main_owner Ht Hu | main_owner Hs Hu | ].
  all: unfold unborn in *; fields; try exact I.
  - destruct Hu as [Hp Hc]. split; intros j; intros.
    + rewrite upd_other; [apply Hp; lia | intros Heq; inversion Heq; subst; lia].
    + rewrite upd_other; [apply Hc | discriminate].
  - intros j _. apply Hu.
  - intros j Hj.
    rewrite upd_other; [apply Hu; lia | intros Heq; inversion Heq; subst; lia].
Qed.

Lemma step_coherent s t s' e : coherent s -> step s t = Some (s', e) -> coherent s'.
Proof.
  destruct t; simpl; eauto using main_step_coherent, worker_step_coherent.
Qed.

Lemma boot_coherent l :
  mutex l = None -> timestep_lock l = None -> stats_lock l = None -> coherent (boot l).
Proof.
  intros Hm Ht Hs.
  split; unfold boot; cbn [line at_main at_worker unborn]; try rewrite Hm; try rewrite Ht;
    try rewrite Hs; try (intros [|w]; cbn; split; discriminate).
  split; reflexivity.
Qed.

(** ** Runs, step by step *)

Lemma run_snoc : forall schedule s t s' tr,
  run s (schedule ++ [t]) = Some (s', tr) ->
  exists s1 tr1 e, run s schedule = Some (s1, tr1) /\ step s1 t = Some (s', e) /\ tr = tr1 ++ e.
Proof.
  induction schedule as [|t0 rest IH]; intros s t s' tr; simpl.
  - destruct (step s t) as [[s1 e]|] eqn:E; [|discriminate].
    intros H; inversion H; subst. exists s, [], e. rewrite app_nil_r. auto.
  - destruct (step s t0) as [[s1 e]|] eqn:E; [|discriminate].
    destruct (run s1 (rest ++ [t])) as [[s2 tr2]|] eqn:R; [|discriminate].
    intros H; inversion H; subst.
    destruct (IH _ _ _ _ R) as (s3 & tr3 & e3 & H1 & H2 & ->).
    rewrite H1. exists s3, (e ++ tr3), e3. rewrite app_assoc. auto.
Qed.

(** Induction over the schedules of [run]. *)
Lemma run_ind (P : system -> list event -> Prop) s0 :
  P s0 [] ->
  (forall s tr t s' e, P s tr -> step s t = Some (s', e) -> P s' (tr ++ e)) ->
  forall schedule s tr, run s0 schedule = Some (s, tr) -> P s tr.
Proof.
  intros H0 Hstep schedule.
  induction schedule as [|t rest IH] using rev_ind; intros s tr H.
  - inversion H; subst. exact H0.
  - apply run_snoc in H. destruct H as (s1 & tr1 & e & H1 & H2 & ->). eauto.
Qed.

(** ** Traces, timesteps and the snapshot cadence *)

Lemma puts_app a b : puts (a ++ b) = puts a ++ puts b.
Proof. induction a as [|[p|p] a IH]; simpl; congruence. Qed.

Lemma takes_app a b : takes (a ++ b) = takes a ++ takes b.
Proof. induction a as [|[p|p] a IH]; simpl; congruence. Qed.

Lemma stamps_snoc n : stamps (S n) = stamps n ++ [Z.of_nat n + 1].
Proof.
  unfold stamps. rewrite seq_S, map_app. simpl. do 2 f_equal. lia.
Qed.

(** The multiples of the interval [i] among 1, ..., [n] are [n / i] many:
    passing a timestep that is no multiple keeps the quotient, passing a
    multiple adds one. *)
Section Cadence.

Variables n i : Z.
Hypothesis interval_positive : 1 <= i.

Lemma div_skip : n mod i <> 0 -> (n - 1) / i = n / i.
Proof.
  intros Hr. pose proof interval_positive as Hi.
  pose proof (Z.div_mod n i ltac:(lia)). pose proof (Z.mod_pos_bound n i ltac:(lia)).
  symmetry. apply Z.div_unique with (r := n mod i - 1); lia.
Qed.

Lemma div_hit : n mod i = 0 -> (n - 1) / i + 1 = n / i.
Proof.
  intros Hr. pose proof interval_positive as Hi.
  pose proof (Z.div_mod n i ltac:(lia)).
  assert ((n - 1) / i = n / i - 1); [|lia].
  symmetry. apply Z.div_unique with (r := i - 1); lia.
Qed.

End Cadence.

(** ** The state agrees with the trace

    [consistent] is preserved by every step.  Steps outside the critical
    section leave everything it speaks of alone; steps inside are taken
    one control point at a time. *)

(** The worker standing inside [with self.mutex] holds the mutex. *)
Lemma critical_inside s w :
  coherent s -> in_mutex (at_worker s w) = true ->
  mutex (line s) = Some (Worker w).
Proof. intros [Hm _ _ _] H. apply (Hm (Worker w)). exact H. Qed.

(** A step of a worker outside the critical section leaves the buffer,
    the statistics and the timestep counter alone. *)
Lemma worker_step_outside s w s' e :
  coherent s -> worker_step s w = Some (s', e) -> in_mutex (at_worker s w) = false ->
  e = [] /\ buffer (line s') = buffer (line s) /\ stats (line s') = stats (line s) /\
  current_timestep (line s') = current_timestep (line s) /\
  buffer_capacity (line s') = buffer_capacity (line s) /\
  total_timesteps (line s') = total_timesteps (line s) /\
  snapshot_interval (line s') = snapshot_interval (line s) /\
  (critical s' = critical s \/ critical s = None /\ critical s' = Some TestLen).
Proof.
  intros [Hm _ _ _] H Hout.
  destruct s as [l pm pw].
  unfold worker_step, producer_task, consumer_task, should_continue,
    get_current_timestep, increment_timestep in H.
  fields. crack.
  all: try discriminate Hout.
  all: repeat split; fields; try reflexivity.
  all: unfold critical; fields.
  all: match goal with
       | E : ?f ?w = _ |- context [upd ?f ?w _] =>
           pose proof (Hm (Worker w)) as Hw; fields; rewrite E in Hw; cbn [in_mutex] in Hw
       end.
  all: try solve [ right; rewrite upd_same; split; [|reflexivity];
                   match goal with H : mutex _ = None |- _ => rewrite H end; reflexivity ].
  all: left;
    match goal with
    | |- context [mutex ?l] => destruct (mutex l) as [[|w0]|]; try reflexivity
    end;
    rewrite upd_other; [reflexivity | intros ->; destruct Hw as [Hw _]; discriminate (Hw eq_refl)].
Qed.

(** So does every step of the main thread. *)
Lemma main_step_outside s s' e :
  coherent s -> main_step s = Some (s', e) ->
  e = [] /\ buffer (line s') = buffer (line s) /\ stats (line s') = stats (line s) /\
  current_timestep (line s') = current_timestep (line s) /\
  buffer_capacity (line s') = buffer_capacity (line s) /\
  total_timesteps (line s') = total_timesteps (line s) /\
  snapshot_interval (line s') = snapshot_interval (line s) /\
  critical s' = critical s.
Proof.
  intros [Hm _ _ Hu] H.
  destruct s as [l pm pw].
  unfold main_step, get_current_timestep in H.
  fields. crack.
  all: repeat split; fields; try reflexivity.
  all: unfold critical, unborn in *; fields.
  all: match goal with
       | |- context [mutex ?l] =>
           destruct (mutex l) as [[|w0]|] eqn:Hw; try reflexivity
       end.
  all: pose proof (proj1 (Hm (Worker w0)) eq_refl) as Hin; fields.
  all: rewrite upd_other; [reflexivity|].
  - intros ->. destruct Hu as [Hu _]. rewrite Hu in Hin by lia. discriminate Hin.
  - intros ->. rewrite Hu in Hin by lia. discriminate Hin.
Qed.

(** [consistent] only looks at what such steps leave alone. *)
Lemma consistent_frame s s' tr :
  consistent s tr ->
  buffer (line s') = buffer (line s) -> stats (line s') = stats (line s) ->
  current_timestep (line s') = current_timestep (line s) ->
  buffer_capacity (line s') = buffer_capacity (line s) ->
  total_timesteps (line s') = total_timesteps (line s) ->
  snapshot_interval (line s') = snapshot_interval (line s) ->
  critical s' = critical s \/ critical s = None /\ critical s' = Some TestLen ->
  consistent s' tr.
Proof.
  intros [] Hb Hs Ht Hc Hn Hi Hcr.
  assert (Hl : len (line s') = len (line s)) by (unfold len; now rewrite Hb).
  assert (Hq : ticking (critical s') = ticking (critical s) /\
               uncounted_put (critical s') = uncounted_put (critical s) /\
               uncounted_take (critical s') = uncounted_take (critical s) /\
               unlogged (critical s') = unlogged (critical s) /\
               (carried (critical s) (line s) tr -> carried (critical s') (line s') tr)).
  { destruct Hcr as [-> | [-> ->]]; repeat split; auto.
    unfold carried. rewrite Hl, Ht, Hc, Hi. auto. }
  destruct Hq as (Q1 & Q2 & Q3 & Q4 & Q5).
  split; unfold count_snapshots in *; rewrite ?Hb, ?Hs, ?Ht, ?Hc, ?Hn, ?Hi, ?Hl, ?Q1, ?Q2, ?Q3, ?Q4; auto.
Qed.

(** Bookkeeping in flight at a known control point. *)
Ltac inflight :=
  cbn [ticking uncounted_put uncounted_take unlogged carried] in *.

(** Lengths of the buffer, of the traces and of the snapshot list. *)
Ltac sizes :=
  unfold len, count, count_snapshots, critical in *; fields;
  cbn [bump snapshot total_produced total_consumed producer_waits consumer_waits
       buffer_snapshots puts takes] in *;
  rewrite ?upd_same, ?puts_app, ?takes_app, ?app_nil_r, ?length_app, ?Nat2Z.inj_add in *;
  cbn [puts takes length Z.of_nat Pos.of_succ_nat] in *.

(** Every step inside the critical section keeps the state and the trace
    in agreement. *)
Lemma worker_step_inside s w s' e tr :
  coherent s -> consistent s tr -> worker_step s w = Some (s', e) ->
  in_mutex (at_worker s w) = true -> consistent s' (tr ++ e).
Proof.
  intros Hcoh Hcon H Hin.
  pose proof (critical_inside s w Hcoh Hin) as Hmx.
  assert (Hcr : critical s = Some (at_worker s w)) by (unfold critical; now rewrite Hmx).
  destruct Hcon as [F1 F2 F3 F4 F5 F6 F7 F8 F9 F10].
  rewrite Hcr in *. clear Hcoh Hcr.
  destruct s as [l pm pw]. destruct l as [cap np nc tt buf mx es fs ts rn tl st sl si].
  destruct st as [tp tc pwt cwt snaps].
  assert (Hsi : 1 <= si) by (cbn in F10; lia).
  unfold worker_step, producer_task, consumer_task, should_continue,
    get_current_timestep, increment_timestep in H.
  fields. subst mx. crack.
  all: try discriminate Hin.
  all: inflight; sizes.
  all: try (exfalso; lia).
  all: split; sizes; inflight; sizes.
  all: try assumption.
  all: try lia.
  all: first
    [ rewrite F1, app_assoc; reflexivity
    | rewrite F1, <- app_assoc; reflexivity
    | rewrite map_app, F2, Nat.add_1_r, stamps_snoc; destruct F4 as [-> _]; reflexivity
    | apply Forall_app; split; [assumption|]; constructor; [lia|constructor]
    | subst; match goal with H : (_ =? 0) = true |- _ => now apply Z.eqb_eq end
    | subst; match goal with H : (_ =? 0) = false |- _ => apply Z.eqb_neq in H end;
      rewrite F7, Z.sub_0_r; now apply div_skip
    | rewrite F7, Z.sub_0_r; now apply div_hit
    | rewrite F7; f_equal; lia ].
Qed.

(** ** Preservation along every run *)

Lemma step_consistent s t s' e tr :
  coherent s -> consistent s tr -> step s t = Some (s', e) -> consistent s' (tr ++ e).
Proof.
  intros Hcoh Hcon H. destruct t as [|w]; simpl in H.
  - destruct (main_step_outside _ _ _ Hcoh H) as (-> & ? & ? & ? & ? & ? & ? & ?).
    rewrite app_nil_r. eapply consistent_frame; eauto.
  - destruct (in_mutex (at_worker s w)) eqn:Hin.
    + eapply worker_step_inside; eauto.
    + destruct (worker_step_outside _ _ _ _ Hcoh H Hin) as (-> & ? & ? & ? & ? & ? & ? & ?).
      rewrite app_nil_r. eapply consistent_frame; eauto.
Qed.

(** The object a successful construction returns. *)
Lemma init_fresh cap np nc tt v l :
  __init__ cap np nc tt v = inr l ->
  l = {| buffer_capacity := cap; num_producers := np; num_consumers := nc;
         total_timesteps := tt; buffer := []; mutex := None; empty_slots := cap;
         filled_slots := 0; current_timestep := 0; running := true;
         timestep_lock := None; stats := empty_stats; stats_lock := None;
         snapshot_interval := Z.max 1 (tt / 100) |} /\ 0 <= cap.
Proof.
  unfold __init__. intros H.
  destruct (if v then validation cap np nc tt else None); [discriminate|].
  destruct (cap <? 0) eqn:E; [discriminate|].
  apply Z.ltb_ge in E. inversion H. auto.
Qed.

Lemma boot_consistent cap np nc tt v l :
  __init__ cap np nc tt v = inr l -> coherent (boot l) /\ consistent (boot l) [].
Proof.
  intros H. apply init_fresh in H. destruct H as [-> Hcap]. split.
  - apply boot_coherent; reflexivity.
  - split; cbn; try reflexivity; try lia. constructor.
Qed.

(** Every state reached by an execution is coherent and consistent with
    its trace. *)
Lemma execution_invariant cap np nc tt v schedule s tr :
  execution cap np nc tt v schedule s tr -> coherent s /\ consistent s tr.
Proof.
  intros (l0 & Hinit & Hrun).
  apply boot_consistent in Hinit.
  revert schedule s tr Hrun.
  apply (run_ind (fun s tr => coherent s /\ consistent s tr)); [exact Hinit|].
  intros s tr t s' e [Hcoh Hcon] Hstep. split.
  - eapply step_coherent; eauto.
  - eapply step_consistent; eauto.
Qed.

(** ** What one step can change *)

Ltac open_step H :=
  unfold step, main_step, worker_step, producer_task, consumer_task,
    should_continue, get_current_timestep, increment_timestep in H;
  fields; crack; fields.

(** The statistics change only at the counter update and at the snapshot
    append of a worker. *)
Lemma step_stats s t s' e :
  step s t = Some (s', e) ->
  stats (line s') = stats (line s) \/
  exists w, t = Worker w /\
    ((exists k, at_worker s w = StatsUpdate k /\
                stats (line s') = bump k (stats (line s))) \/
     (at_worker s w = Snapshot /\
      stats (line s') = snapshot (len (line s)) (stats (line s)))).
Proof.
  intros H. destruct s as [l pm pw]. destruct t as [|w]; open_step H.
  all: try (left; reflexivity).
  all: right; eexists; split; [reflexivity|]; eauto.
Qed.

(** The buffer changes only by an append at its tail or a pop at its
    head, and these are the steps that show an event. *)
Lemma step_buffer s t s' e :
  step s t = Some (s', e) ->
  (e = [] /\ buffer (line s') = buffer (line s)) \/
  (exists i v, t = Worker (Producer i) /\ at_worker s (Producer i) = Append v /\
     e = [Put {| piece_producer := i; piece_timestep := v |}] /\
     buffer (line s') = buffer (line s) ++ [{| piece_producer := i; piece_timestep := v |}]) \/
  (exists w p, t = Worker w /\ at_worker s w = Pop /\ e = [Take p] /\
     buffer (line s) = p :: buffer (line s')).
Proof.
  intros H. destruct s as [l pm pw]. destruct t as [|w]; open_step H.
  all: try solve [left; split; [reflexivity | first [reflexivity | congruence]]].
  - right; left. repeat eexists; eauto.
  - right; right. repeat eexists; eauto.
Qed.

(** The timestep counter changes only at the [+= 1] of
    [increment_timestep]. *)
Lemma step_clock s t s' e :
  step s t = Some (s', e) ->
  current_timestep (line s') = current_timestep (line s) \/
  exists w, t = Worker w /\ at_worker s w = Increment Inc_add /\
            current_timestep (line s') = current_timestep (line s) + 1.
Proof.
  intros H. destruct s as [l pm pw]. destruct t as [|w]; open_step H.
  all: try (left; reflexivity).
  all: right; eexists; repeat split; eauto.
Qed.

(** The configuration never changes. *)
Lemma step_config s t s' e :
  step s t = Some (s', e) ->
  buffer_capacity (line s') = buffer_capacity (line s) /\
  num_producers (line s') = num_producers (line s) /\
  num_consumers (line s') = num_consumers (line s) /\
  total_timesteps (line s') = total_timesteps (line s) /\
  snapshot_interval (line s') = snapshot_interval (line s).
Proof.
  intros H. destruct s as [l pm pw]. destruct t as [|w]; open_step H.
  all: repeat split.
Qed.

Lemma run_config : forall schedule s s' tr,
  run s schedule = Some (s', tr) ->
  buffer_capacity (line s') = buffer_capacity (line s) /\
  num_producers (line s') = num_producers (line s) /\
  num_consumers (line s') = num_consumers (line s) /\
  total_timesteps (line s') = total_timesteps (line s) /\
  snapshot_interval (line s') = snapshot_interval (line s).
Proof.
  intros schedule s. 
  apply (run_ind (fun s' _ => 
    buffer_capacity (line s') = buffer_capacity (line s) /\
    num_producers (line s') = num_producers (line s) /\
    num_consumers (line s') = num_consumers (line s) /\
    total_timesteps (line s') = total_timesteps (line s) /\
    snapshot_interval (line s') = snapshot_interval (line s))).
  - repeat split.
  - intros s1 tr t s2 e IH H. apply step_config in H. intuition congruence.
Qed.

(** A computed outcome is an execution. *)
Lemma outcome_execution cap np nc tt v schedule s tr :
  outcome cap np nc tt v schedule = Some (s, tr) ->
  execution cap np nc tt v schedule s tr.
Proof.
  unfold outcome, execution. destruct (__init__ cap np nc tt v) as [x|l0]; [discriminate|].
  intros H. exists l0. auto.
Qed.

(** Once every worker has ended, nobody holds the buffer mutex. *)
Lemma ended_outside s :
  coherent s -> workers_ended s -> mutex (line s) = None.
Proof.
  intros [Hm _ _ _] Hend.
  destruct (mutex (line s)) as [[|w]|]; [| |reflexivity].
  - pose proof (proj1 (Hm Main) eq_refl) as E. discriminate E.
  - pose proof (proj1 (Hm (Worker w)) eq_refl) as E. cbn in E.
    destruct (Hend w) as [H|[H|H]]; rewrite H in E; discriminate E.
Qed.

(** ** One pass through the critical section, run alone *)


(** One step of the worker at the head of the schedule, computed. *)
Ltac tick :=
  cbn [run repeat step];
  cbn [worker_step];
  try unfold producer_task at 1; try unfold consumer_task at 1;
  unfold increment_timestep, lock_acquire;
  unfold goto; 
  cbn [line at_main at_worker
       set_buffer set_mutex set_empty_slots set_filled_slots set_current_timestep
       set_running set_timestep_lock set_stats set_stats_lock
       buffer_capacity num_producers num_consumers total_timesteps buffer mutex
       empty_slots filled_slots current_timestep running timestep_lock stats
       stats_lock snapshot_interval len];
  rewrite ?upd_same;
  cbn [app bump snapshot total_produced total_consumed producer_waits consumer_waits
       buffer_snapshots].

(** A producer that finds the buffer full. *)
Lemma producer_rejected r i :
  at_worker r (Producer i) = TestLen ->
  buffer_capacity (line r) <= len (line r) ->
  stats_lock (line r) = None ->
  exists r',
    run r (only (Producer i) 6) = Some (r', []) /\
    at_worker r' (Producer i) = Sleep /\
    buffer (line r') = buffer (line r) /\
    producer_waits (stats (line r')) = producer_waits (stats (line r)) + 1 /\
    total_produced (stats (line r')) = total_produced (stats (line r)) /\
    current_timestep (line r') = current_timestep (line r) /\
    empty_slots (line r') = empty_slots (line r) /\
    filled_slots (line r') = filled_slots (line r) + 1.
Proof.
  destruct r as [l pm pw]. destruct l as [cap np nc tt buf mx es fs ts rn tl st sl si].
  unfold len. cbn [line at_worker buffer buffer_capacity stats_lock]. intros Hpc Hfull ->.
  apply Z.ltb_ge in Hfull.
  unfold only. 
  tick. rewrite Hpc. unfold len; cbn [buffer]. rewrite Hfull.
  do 5 tick.
  eexists. split; [reflexivity|]. cbn. rewrite upd_same. repeat split.
Qed.

(** A producer that finds room; the iteration takes one step more when
    the timestep is a multiple of the snapshot interval. *)
Lemma producer_accepted r i :
  at_worker r (Producer i) = TestLen ->
  len (line r) < buffer_capacity (line r) ->
  timestep_lock (line r) = None ->
  stats_lock (line r) = None ->
  let piece_id := {| piece_producer := i; piece_timestep := current_timestep (line r) + 1 |} in
  exists n r',
    run r (only (Producer i) n) = Some (r', [Put piece_id]) /\
    at_worker r' (Producer i) = Sleep /\
    buffer (line r') = buffer (line r) ++ [piece_id] /\
    total_produced (stats (line r')) = total_produced (stats (line r)) + 1 /\
    producer_waits (stats (line r')) = producer_waits (stats (line r)) /\
    current_timestep (line r') = current_timestep (line r) + 1 /\
    empty_slots (line r') = empty_slots (line r) /\
    filled_slots (line r') = filled_slots (line r) + 1.
Proof.
  destruct r as [l pm pw]. destruct l as [cap np nc tt buf mx es fs ts rn tl st sl si].
  unfold len. cbn [line at_worker buffer buffer_capacity stats_lock timestep_lock current_timestep].
  intros Hpc Hroom -> ->.
  apply Z.ltb_lt in Hroom.
  destruct ((ts + 1) mod si =? 0) eqn:Hsnap.
  - exists 13%nat. unfold only.
    tick. rewrite Hpc. unfold len; cbn [buffer]. rewrite Hroom.
    do 8 tick. rewrite Hsnap. do 4 tick.
    eexists. split; [reflexivity|]. cbn. rewrite upd_same. repeat split.
  - exists 12%nat. unfold only.
    tick. rewrite Hpc. unfold len; cbn [buffer]. rewrite Hroom.
    do 8 tick. rewrite Hsnap. do 3 tick.
    eexists. split; [reflexivity|]. cbn. rewrite upd_same. repeat split.
Qed.

(** A consumer that finds the buffer empty. *)
Lemma consumer_missed r i :
  at_worker r (Consumer i) = TestLen ->
  buffer (line r) = [] ->
  stats_lock (line r) = None ->
  exists r',
    run r (only (Consumer i) 6) = Some (r', []) /\
    at_worker r' (Consumer i) = Sleep /\
    buffer (line r') = [] /\
    consumer_waits (stats (line r')) = consumer_waits (stats (line r)) + 1 /\
    total_consumed (stats (line r')) = total_consumed (stats (line r)) /\
    filled_slots (line r') = filled_slots (line r) /\
    empty_slots (line r') = empty_slots (line r) + 1.
Proof.
  destruct r as [l pm pw]. destruct l as [cap np nc tt buf mx es fs ts rn tl st sl si].
  cbn [line at_worker buffer buffer_capacity stats_lock]. intros Hpc -> ->.
  unfold only.
  tick. rewrite Hpc. unfold len; cbn [buffer length Z.of_nat Z.ltb Z.compare].
  do 5 tick.
  eexists. split; [reflexivity|]. cbn. rewrite upd_same. repeat split.
Qed.

(** A consumer that finds a piece at the head. *)
Lemma consumer_hit r i piece_id rest :
  at_worker r (Consumer i) = TestLen ->
  buffer (line r) = piece_id :: rest ->
  stats_lock (line r) = None ->
  exists r',
    run r (only (Consumer i) 7) = Some (r', [Take piece_id]) /\
    at_worker r' (Consumer i) = Sleep /\
    buffer (line r') = rest /\
    total_consumed (stats (line r')) = total_consumed (stats (line r)) + 1 /\
    consumer_waits (stats (line r')) = consumer_waits (stats (line r)) /\
    filled_slots (line r') = filled_slots (line r) /\
    empty_slots (line r') = empty_slots (line r) + 1.
Proof.
  destruct r as [l pm pw]. destruct l as [cap np nc tt buf mx es fs ts rn tl st sl si].
  cbn [line at_worker buffer buffer_capacity stats_lock]. intros Hpc -> ->.
  unfold only.
  tick. rewrite Hpc. unfold len; cbn [buffer length Z.of_nat Z.ltb Z.compare].
  do 6 tick.
  eexists. split; [reflexivity|]. cbn. rewrite upd_same. repeat split.
Qed.

(** ** The semaphores keep the workers off the defensive branches *)

Lemma tally_ext f g n : (forall i, (i < n)%nat -> f i = g i) -> tally f n = tally g n.
Proof.
  induction n as [|n IH]; intros H; cbn; [reflexivity|].
  rewrite IH, H by (intros; try apply H; lia). reflexivity.
Qed.

Lemma tally_upd (f : nat -> Z) (k : nat) (v : Z) n :
  (k < n)%nat ->
  tally (fun i => if Nat.eq_dec i k then v else f i) n = tally f n + v - f k.
Proof.
  induction n as [|n IH]; intros Hk; [lia|]. cbn.
  destruct (Nat.eq_dec n k) as [->|Hne].
  - rewrite (tally_ext _ f) by (intros i Hi; destruct (Nat.eq_dec i k); [lia|reflexivity]). lia.
  - rewrite IH by lia. lia.
Qed.

Lemma tally_le f g n : (forall i, f i <= g i) -> tally f n <= tally g n.
Proof. intros H. induction n as [|n IH]; cbn; [lia|]. specialize (H n). lia. Qed.

Lemma tally_nonneg f n : (forall i, 0 <= f i) -> 0 <= tally f n.
Proof. intros H. induction n as [|n IH]; cbn; [lia|]. specialize (H n). lia. Qed.

Lemma tally_member f n k : (forall i, 0 <= f i) -> (k < n)%nat -> f k <= tally f n.
Proof.
  intros Hf. induction n as [|n IH]; intros Hk; [lia|]. cbn.
  pose proof (tally_nonneg f n Hf). pose proof (Hf n).
  destruct (Nat.eq_dec k n) as [->|Hne]; [lia|]. specialize (IH ltac:(lia)). lia.
Qed.

Section Among.

Variable role : nat -> worker.
Hypothesis role_injective : forall i j, role i = role j -> i = j.
Variables (g : pc -> Z) (n : Z) (f : worker -> pc).

(** Moving one worker of the role changes the sum by the difference of
    its weights. *)
Lemma among_upd k p :
  Z.of_nat k < n ->
  among role g n (upd f (role k) p) = among role g n f + g p - g (f (role k)).
Proof.
  intros Hk. unfold among.
  rewrite <- (tally_upd (fun j => g (f (role j))) k (g p)) by lia.
  apply tally_ext. intros j _. unfold upd.
  destruct (worker_eq_dec (role j) (role k)) as [Heq|Hne], (Nat.eq_dec j k); try congruence.
  apply role_injective in Heq. congruence.
Qed.

(** Moving a worker outside the role leaves the sum alone. *)
Lemma among_upd_other w p :
  (forall i, role i <> w) -> among role g n (upd f w p) = among role g n f.
Proof.
  intros Hw. unfold among. apply tally_ext. intros j _.
  rewrite upd_other; [reflexivity | apply Hw].
Qed.

Lemma among_member k :
  (forall q, 0 <= g q) -> Z.of_nat k < n -> g (f (role k)) <= among role g n f.
Proof.
  intros Hg Hk. unfold among.
  apply (tally_member (fun j => g (f (role j)))); [intros; apply Hg | lia].
Qed.

Lemma among_nonneg : (forall q, 0 <= g q) -> 0 <= among role g n f.
Proof. intros Hg. unfold among. apply tally_nonneg. intros; apply Hg. Qed.

End Among.

Lemma committed_le_holding p : committed p <= holding p.
Proof. destruct p as [| [|] | | [|] | | | | | | | | | | | | | | | |]; cbn; lia. Qed.

Lemma holding_nonneg p : 0 <= holding p.
Proof. destruct p; cbn; lia. Qed.

Lemma committed_nonneg p : 0 <= committed p.
Proof. destruct p as [| [|] | | [|] | | | | | | | | | | | | | | | |]; cbn; lia. Qed.

Lemma passing_nonneg p : 0 <= passing p.
Proof. destruct p; cbn; lia. Qed.

Lemma Producer_injective i j : Producer i = Producer j -> i = j.
Proof. congruence. Qed.

Lemma Consumer_injective i j : Consumer i = Consumer j -> i = j.
Proof. congruence. Qed.

(** What the sums are worth, whatever the control points. *)
Lemma among_facts role n f :
  among role committed n f <= among role holding n f /\
  0 <= among role holding n f /\ 0 <= among role committed n f /\
  0 <= among role passing n f.
Proof.
  repeat split.
  - unfold among. apply tally_le. intros. apply committed_le_holding.
  - apply among_nonneg, holding_nonneg.
  - apply among_nonneg, committed_nonneg.
  - apply among_nonneg, passing_nonneg.
Qed.

Ltac weights := cbn [holding committed passing defensive stopped] in *.

(** The sums after a step, from the sums before. *)
Ltac resum :=
  unfold producers, consumers in *; fields;
  repeat first
    [ rewrite (among_upd Producer Producer_injective) in * by assumption
    | rewrite (among_upd Consumer Consumer_injective) in * by assumption
    | rewrite (among_upd_other Producer) in * by discriminate
    | rewrite (among_upd_other Consumer) in * by discriminate ].

Ltac tests :=
  repeat match goal with
    | H : (_ <? _) = true |- _ => apply Z.ltb_lt in H
    | H : (_ <? _) = false |- _ => apply Z.ltb_ge in H
    | H : _ /\ _ |- _ => destruct H
    end;
  unfold len in *; fields;
  try match goal with
    | H : buffer _ = _ |- _ => rewrite H in *
    end;
  rewrite ?length_app in *; cbn [length] in *.

(** Closes one field of [balanced] after a step of worker [w]. *)
Ltac rebalance w Bp Bc Ba B1 B2 :=
  first
    [ (* the pools *)
      solve [ let j := fresh "j" in let Hj := fresh "Hj" in
              intros j Hj; (rewrite upd_other;
                [ first [apply Bp | apply Bc]; assumption
                | first [discriminate | let Heq := fresh in intro Heq; inversion Heq; subst; lia] ]) ]
    | (* no worker on a defensive branch *)
      solve [ let w' := fresh "w" in
              intros w'; destruct (worker_eq_dec w' w) as [->|?];
              [ rewrite upd_same; weights; first [reflexivity | exfalso; tests; lia]
              | rewrite upd_other by assumption; apply Ba ] ]
    | (* the counts *)
      solve [ tests;
              match goal with
              | |- context [running ?l] => destruct (running l) eqn:?
              | _ => idtac
              end;
              try (specialize (B1 eq_refl)); try (specialize (B2 eq_refl));
              repeat split; intros; try discriminate; try congruence;
              first [ lia | solve [intuition congruence] ] ] ].

Lemma producer_task_balanced s i s' e :
  balanced s -> producer_task s i = Some (s', e) -> balanced s'.
Proof.
  intros [Bp Bc Ba Bn Bs B1 B2 B3 B4] H.
  assert (Hi : Z.of_nat i < num_producers (line s)).
  { destruct (Z_lt_le_dec (Z.of_nat i) (num_producers (line s))) as [|Hge]; [assumption|].
    apply Bp in Hge. unfold producer_task in H. rewrite Hge in H. discriminate. }
  pose proof (among_member Producer holding (num_producers (line s)) (at_worker s) i
                holding_nonneg Hi) as Hh.
  pose proof (among_member Producer committed (num_producers (line s)) (at_worker s) i
                committed_nonneg Hi) as Hc.
  pose proof (among_facts Producer (num_producers (line s)) (at_worker s)) as Hps.
  pose proof (among_facts Consumer (num_consumers (line s)) (at_worker s)) as Hcs.
  pose proof (Ba (Producer i)) as Hlive.
  destruct s as [l pm pw].
  unfold producer_task, should_continue, get_current_timestep, increment_timestep in H.
  fields. crack.
  all: weights; try discriminate Hlive.
  all: match goal with
       | |- balanced {| line := ?l'; at_main := _; at_worker := ?f' |} =>
           pose proof (among_facts Producer (num_producers l') f') as Hps';
           pose proof (among_facts Consumer (num_consumers l') f') as Hcs'
       end.
  all: resum.
  all: try match goal with E : ?f (Producer _) = _ |- _ => rewrite E in * end; weights.
  all: split; resum;
    try match goal with E : ?f (Producer _) = _ |- _ => rewrite E in * end; weights.
  all: rebalance (Producer i) Bp Bc Ba B1 B2.
Qed.

Lemma consumer_task_balanced s i s' e :
  balanced s -> consumer_task s i = Some (s', e) -> balanced s'.
Proof.
  intros [Bp Bc Ba Bn Bs B1 B2 B3 B4] H.
  assert (Hi : Z.of_nat i < num_consumers (line s)).
  { destruct (Z_lt_le_dec (Z.of_nat i) (num_consumers (line s))) as [|Hge]; [assumption|].
    apply Bc in Hge. unfold consumer_task in H. rewrite Hge in H. discriminate. }
  pose proof (among_member Consumer holding (num_consumers (line s)) (at_worker s) i
                holding_nonneg Hi) as Hh.
  pose proof (among_member Consumer committed (num_consumers (line s)) (at_worker s) i
                committed_nonneg Hi) as Hc.
  pose proof (among_facts Producer (num_producers (line s)) (at_worker s)) as Hps.
  pose proof (among_facts Consumer (num_consumers (line s)) (at_worker s)) as Hcs.
  pose proof (Ba (Consumer i)) as Hlive.
  destruct s as [l pm pw].
  unfold consumer_task, should_continue, get_current_timestep in H.
  fields. crack.
  all: weights; try discriminate Hlive.
  all: match goal with
       | |- balanced {| line := ?l'; at_main := _; at_worker := ?f' |} =>
           pose proof (among_facts Producer (num_producers l') f') as Hps';
           pose proof (among_facts Consumer (num_consumers l') f') as Hcs'
       end.
  all: resum.
  all: try match goal with E : ?f (Consumer _) = _ |- _ => rewrite E in * end; weights.
  all: split; resum;
    try match goal with E : ?f (Consumer _) = _ |- _ => rewrite E in * end; weights.
  all: rebalance (Consumer i) Bp Bc Ba B1 B2.
Qed.

Lemma main_step_balanced s s' e :
  coherent s -> balanced s -> main_step s = Some (s', e) -> balanced s'.
Proof.
  intros [_ _ _ Hu] [Bp Bc Ba Bn Bs B1 B2 B3 B4] H.
  destruct s as [l pm pw].
  unfold main_step, get_current_timestep in H.
  unfold unborn in Hu.
  fields. crack.
  all: weights.
  all: tests.
  all: try match goal with
       | Hu : (forall j, (?i <= j)%nat -> ?f (Producer j) = NotStarted) |- _ =>
           pose proof (Hu i (Nat.le_refl i)) as Hnew
       | Hu : (forall j, (?i <= j)%nat -> ?f (Consumer j) = NotStarted) |- _ =>
           pose proof (Hu i (Nat.le_refl i)) as Hnew
       end.
  all: split; resum; try rewrite Hnew in *; weights.
  all: first
    [ assumption
    | match goal with
      | |- context [upd _ ?w _] => rebalance w Bp Bc Ba B1 B2
      end
    | rebalance (Producer 0) Bp Bc Ba B1 B2 ].
Qed.

Lemma step_balanced s t s' e :
  coherent s -> balanced s -> step s t = Some (s', e) -> balanced s'.
Proof.
  intros Hcoh Hbal H. destruct t as [|[i|i]]; cbn in H.
  - eapply main_step_balanced; eauto.
  - eapply producer_task_balanced; eauto.
  - eapply consumer_task_balanced; eauto.
Qed.

Lemma among_unstarted role g n :
  g NotStarted = 0 -> among role g n (fun _ => NotStarted) = 0.
Proof.
  intros Hg. unfold among. induction (Z.to_nat n) as [|k IH]; cbn; [reflexivity|].
  rewrite IH, Hg. reflexivity.
Qed.

Lemma boot_balanced cap np nc tt v l :
  __init__ cap np nc tt v = inr l -> balanced (boot l).
Proof.
  intros H. apply init_fresh in H. destruct H as [-> Hcap].
  split; unfold producers, consumers, len, boot; cbn [line at_main at_worker stopped
    buffer_capacity num_producers num_consumers buffer empty_slots filled_slots running
    length Z.of_nat defensive];
    rewrite ?among_unstarted by reflexivity; auto; try lia; try discriminate.
Qed.

(** Along every run the semaphores keep the workers off the defensive
    branches. *)
Lemma execution_balanced cap np nc tt v schedule s tr :
  execution cap np nc tt v schedule s tr -> balanced s.
Proof.
  intros (l0 & Hinit & Hrun).
  pose proof (boot_consistent _ _ _ _ _ _ Hinit) as [Hcoh _].
  pose proof (boot_balanced _ _ _ _ _ _ Hinit) as Hbal.
  assert (H : coherent s /\ balanced s); [|tauto].
  revert schedule s tr Hrun.
  apply (run_ind (fun s _ => coherent s /\ balanced s)); [auto|].
  intros s tr t s' e [Hc Hb] Hstep. split.
  - eapply step_coherent; eauto.
  - eapply step_balanced; eauto.
Qed.

(** Along every run no worker stands on a defensive branch or has
    crashed, and the wait counters stay at 0. *)
Lemma defensive_branches_unreached cap np nc tt v schedule s tr :
  execution cap np nc tt v schedule s tr ->
  (forall w, defensive (at_worker s w) = false) /\
  producer_waits (stats (line s)) = 0 /\
  consumer_waits (stats (line s)) = 0.
Proof.
  intros Hex. split; [apply (bal_alive s), (execution_balanced _ _ _ _ _ _ _ _ Hex)|].
  destruct Hex as (l0 & Hinit & Hrun).
  pose proof (boot_consistent _ _ _ _ _ _ Hinit) as [Hcoh _].
  pose proof (boot_balanced _ _ _ _ _ _ Hinit) as Hbal.
  assert (H : (coherent s /\ balanced s) /\
              producer_waits (stats (line s)) = 0 /\
              consumer_waits (stats (line s)) = 0); [|tauto].
  revert schedule s tr Hrun.
  apply (run_ind (fun s _ => (coherent s /\ balanced s) /\
              producer_waits (stats (line s)) = 0 /\
              consumer_waits (stats (line s)) = 0)).
  - split; [auto|]. apply init_fresh in Hinit. destruct Hinit as [-> _].
    split; reflexivity.
  - intros s tr t s' e ((Hc & Hb) & Hp & Hw) Hstep. split.
    + split; [eapply step_coherent | eapply step_balanced]; eauto.
    + destruct (step_stats _ _ _ _ Hstep) as [-> | (w & -> & [(k & Hk & ->) | (Hk & ->)])];
        auto.
      pose proof (bal_alive s Hb w) as Hlive. rewrite Hk in Hlive.
      destruct k; cbn in *; auto; discriminate.
Qed.

(** ** Validation (C3, C8) *)

(** What the check [floor_on_range] establishes. *)
Lemma floor_on_range_spec : forall k n,
  floor_on_range k n = true ->
  forall m, n <= m < n + Z.of_nat k -> min_consumers m = Some (11 * m / 10).
Proof.
  induction k as [|k IH]; intros n H m Hm; [lia|].
  cbn [floor_on_range] in H.
  destruct (min_consumers n) as [c|] eqn:E; [|discriminate].
  apply andb_prop in H. destruct H as [Hc Hk].
  apply Z.eqb_eq in Hc. subst c.
  destruct (Z.eq_dec m n) as [->|Hne]; [assumption|].
  apply (IH (n + 1) Hk). lia.
Qed.

(** For 200 to 100000 producers the float product, truncated, is the
    integer quotient of [11 * n] by 10. *)
Lemma min_consumers_floor n :
  200 <= n <= 100000 -> min_consumers n = Some (11 * n / 10).
Proof.
  intros H. apply (floor_on_range_spec (Z.to_nat 99801) 200).
  - vm_compute. reflexivity.
  - rewrite Z2Nat.id; lia.
Qed.

(** The validation block passes exactly when the four minimums are met. *)
Lemma validation_pass cap np nc tt :
  validation cap np nc tt = None <->
  1000 <= cap /\ 200 <= np /\ (exists m, min_consumers np = Some m /\ m <= nc) /\ 1000000 <= tt.
Proof.
  unfold validation.
  destruct (cap <? 1000) eqn:E1; [apply Z.ltb_lt in E1 | apply Z.ltb_ge in E1].
  { split; [discriminate | lia]. }
  destruct (np <? 200) eqn:E2; [apply Z.ltb_lt in E2 | apply Z.ltb_ge in E2].
  { split; [discriminate | lia]. }
  destruct (min_consumers np) as [m|].
  2:{ split; [discriminate | intros (_ & _ & (m & H & _) & _); discriminate]. }
  destruct (nc <? m) eqn:E3; [apply Z.ltb_lt in E3 | apply Z.ltb_ge in E3].
  { split; [discriminate | intros (_ & _ & (m' & H & ?) & _); inversion H; lia]. }
  destruct (tt <? 1000000) eqn:E4; [apply Z.ltb_lt in E4 | apply Z.ltb_ge in E4].
  { split; [discriminate | lia]. }
  split; eauto 10.
Qed.

(** What it raises otherwise. *)
Lemma validation_error cap np nc tt e :
  validation cap np nc tt = Some e ->
  match e with
  | ValueError m => violated m cap np nc tt /\ earlier_pass m cap np nc tt
  | OverflowError => 1000 <= cap /\ 200 <= np /\ min_consumers np = None
  end.
Proof.
  unfold validation.
  destruct (cap <? 1000) eqn:E1; [apply Z.ltb_lt in E1 | apply Z.ltb_ge in E1].
  { intros H; inversion H; subst; cbn; auto. }
  destruct (np <? 200) eqn:E2; [apply Z.ltb_lt in E2 | apply Z.ltb_ge in E2].
  { intros H; inversion H; subst; cbn; auto. }
  destruct (min_consumers np) as [m|] eqn:Em.
  2:{ intros H; inversion H; subst; cbn; auto. }
  destruct (nc <? m) eqn:E3; [apply Z.ltb_lt in E3 | apply Z.ltb_ge in E3].
  { intros H; inversion H; subst; cbn; auto. }
  destruct (tt <? 1000000) eqn:E4; [apply Z.ltb_lt in E4 | apply Z.ltb_ge in E4].
  { intros H; inversion H; subst; cbn. repeat split; eauto. }
  discriminate.
Qed.

(** C3, as stated, fails: with 205 producers the code asks for
    [int(205 * 1.1) = 225] consumers, while [ceil(1.1 * 205) = 226]; the
    construction with 225 consumers succeeds. *)
Lemma consumer_minimum_is_not_the_ceiling :
  (exists l, __init__ 1000 205 225 1000000 true = inr l) /\
  225 < spec_min_consumers 205 /\
  min_consumers 205 = Some 225.
Proof.
  split; [eexists; vm_compute; reflexivity|]. split; vm_compute; reflexivity.
Qed.

(** C3, amended.  With the other constraints met, construction with
    [validate=True] succeeds exactly when [num_consumers] is at least
    [int(num_producers * 1.1)], the binary64 product truncated toward
    zero, and any smaller [num_consumers] raises the configuration error
    that names this minimum; for 200 to 100000 producers this minimum is
    the floor of [11 * num_producers / 10] (225 for 205 producers). *)
Theorem consumer_minimum cap np nc tt :
  1000 <= cap -> 200 <= np -> 1000000 <= tt ->
  (forall m, min_consumers np = Some m ->
     ((exists l, __init__ cap np nc tt true = inr l) <-> m <= nc) /\
     (nc < m -> __init__ cap np nc tt true = inl (ValueError (ConsumersMin m)))) /\
  (np <= 100000 -> min_consumers np = Some (11 * np / 10)).
Proof.
  intros Hcap Hnp Htt. split.
  - intros m Hm. unfold __init__, validation.
    rewrite (proj2 (Z.ltb_ge cap 1000) Hcap), (proj2 (Z.ltb_ge np 200) Hnp), Hm.
    rewrite (proj2 (Z.ltb_ge tt 1000000) Htt).
    destruct (nc <? m) eqn:E; [apply Z.ltb_lt in E | apply Z.ltb_ge in E].
    + split; [|reflexivity]. split; [intros [l H]; discriminate | lia].
    + rewrite (proj2 (Z.ltb_ge cap 0)) by lia.
      split; [|lia]. split; [auto | eauto].
  - intros Hle. apply min_consumers_floor. lia.
Qed.

Lemma consumer_minimum_witness :
  ((exists l, __init__ 1000 200 220 1000000 true = inr l) <-> 220 <= 220) /\
  (219 < 220 -> __init__ 1000 200 219 1000000 true = inl (ValueError (ConsumersMin 220))).
Proof.
  split.
  - apply (proj1 (consumer_minimum 1000 200 220 1000000 ltac:(lia) ltac:(lia) ltac:(lia)) 220).
    vm_compute. reflexivity.
  - apply (proj1 (consumer_minimum 1000 200 219 1000000 ltac:(lia) ltac:(lia) ltac:(lia)) 220).
    vm_compute. reflexivity.
Defined.

(** C8, as stated, fails: a [num_producers] too large for a float makes
    [num_producers * 1.1] raise [OverflowError] before the consumer and
    timestep checks, so a violated timestep minimum is answered by an
    error that names no constraint. *)
Lemma overflow_hides_the_violated_constraint :
  0 < 1000000 /\
  __init__ 1000 (2 ^ 1024) 0 0 true = inl OverflowError.
Proof. split; [lia | vm_compute; reflexivity]. Qed.

(** C8, amended.  Construction with [validate=True] raises synchronously,
    and builds no object, whenever a validated parameter violates its
    minimum.  The error is the [ValueError] that names the first violated
    constraint in the order buffer, producers, consumers, timesteps,
    except that, with the buffer and producer minimums met, a
    [num_producers] whose product with 1.1 does not fit a float raises
    [OverflowError] instead.  Construction with [buffer_capacity=1,
    num_producers=1, num_consumers=1, total_timesteps=1000000] raises the
    buffer-minimum error. *)
Theorem validation_raises cap np nc tt :
  cap < 1000 \/ np < 200 \/ (exists m, min_consumers np = Some m /\ nc < m) \/ tt < 1000000 ->
  (exists e, __init__ cap np nc tt true = inl e /\
     match e with
     | ValueError m => violated m cap np nc tt /\ earlier_pass m cap np nc tt
     | OverflowError => 1000 <= cap /\ 200 <= np /\ min_consumers np = None
     end) /\
  __init__ 1 1 1 1000000 true = inl (ValueError BufferMin).
Proof.
  intros Hbad. split; [|reflexivity].
  unfold __init__.
  destruct (validation cap np nc tt) as [e|] eqn:E.
  - exists e. split; [reflexivity|]. now apply validation_error.
  - exfalso. apply validation_pass in E.
    destruct E as (H1 & H2 & (m & Hm & H3) & H4).
    destruct Hbad as [H|[H|[(m' & Hm' & H)|H]]]; try lia.
    rewrite Hm in Hm'. inversion Hm'. lia.
Qed.

Lemma validation_raises_witness :
  exists e, __init__ 1 1 1 1000000 true = inl e /\
    match e with
    | ValueError m => violated m 1 1 1 1000000 /\ earlier_pass m 1 1 1 1000000
    | OverflowError => 1000 <= 1 /\ 200 <= 1 /\ min_consumers 1 = None
    end.
Proof.
  apply (proj1 (validation_raises 1 1 1 1000000 ltac:(left; lia))).
Defined.

(** ** Conservation (C1) *)

(** C1, as stated, fails: [wait_completion] joins each worker with a
    timeout, so it can return while a producer stands between its append
    and its [total_produced += 1].  With capacity 1, one producer, one
    consumer and one timestep, the run below ends with
    [wait_completion] returned, one piece in the buffer and both counters
    at 0. *)
Lemma conservation_fails_after_timed_out_join :
  exists s tr,
    execution 1 1 1 1 false timed_out_join s tr /\
    at_main s = Completed /\
    at_worker s (Producer 0) = StatsAcquire (Produced 1) /\
    total_produced (stats (line s)) = 0 /\
    total_consumed (stats (line s)) = 0 /\
    len (line s) = 1 /\
    total_produced (stats (line s)) <> total_consumed (stats (line s)) + len (line s).
Proof.
  eexists. eexists. split.
  - apply outcome_execution. vm_compute. reflexivity.
  - vm_compute. repeat split; congruence.
Qed.

(** C1, amended.  At every instant of every run the counters and the
    buffer agree up to the one piece being handled inside the critical
    section: [total_produced], plus one while a producer has appended and
    not yet counted, equals [total_consumed], plus one while a consumer has
    popped and not yet counted, plus [len(buffer)].  Hence
    [total_produced == total_consumed + len(buffer)] whenever the buffer
    mutex is free, in particular once [wait_completion] has returned and
    every worker has ended.  [total_produced] changes only by the [+= 1] of
    the statistics block that follows an append, [total_consumed] only by
    the one that follows a pop, both under the buffer mutex. *)
Theorem conservation cap np nc tt v schedule s tr :
  execution cap np nc tt v schedule s tr ->
  total_produced (stats (line s)) + uncounted_put (critical s)
    = total_consumed (stats (line s)) + uncounted_take (critical s) + len (line s) /\
  (mutex (line s) = None ->
   total_produced (stats (line s)) = total_consumed (stats (line s)) + len (line s)) /\
  (at_main s = Completed -> workers_ended s ->
   total_produced (stats (line s)) = total_consumed (stats (line s)) + len (line s)) /\
  (forall t s' e, step s t = Some (s', e) ->
     (total_produced (stats (line s')) <> total_produced (stats (line s)) ->
      exists w timestep, t = Worker w /\ at_worker s w = StatsUpdate (Produced timestep) /\
        mutex (line s) = Some t /\ uncounted_put (critical s) = 1 /\
        total_produced (stats (line s')) = total_produced (stats (line s)) + 1) /\
     (total_consumed (stats (line s')) <> total_consumed (stats (line s)) ->
      exists w, t = Worker w /\ at_worker s w = StatsUpdate Consumed /\
        mutex (line s) = Some t /\ uncounted_take (critical s) = 1 /\
        total_consumed (stats (line s')) = total_consumed (stats (line s)) + 1)).
Proof.
  intros Hex. destruct (execution_invariant _ _ _ _ _ _ _ _ Hex) as [Hcoh Hcon].
  assert (Hid : total_produced (stats (line s)) + uncounted_put (critical s)
    = total_consumed (stats (line s)) + uncounted_take (critical s) + len (line s)).
  { destruct Hcon as [F1 _ _ _ F5 F6 _ _ _ _]. unfold len. rewrite F5, F6.
    unfold count. rewrite F1, length_app. lia. }
  assert (Hfree : mutex (line s) = None ->
     total_produced (stats (line s)) = total_consumed (stats (line s)) + len (line s)).
  { intros Hm. unfold critical in Hid. rewrite Hm in Hid. cbn in Hid. lia. }
  repeat split; auto.
  - intros _ Hend. apply Hfree. now apply ended_outside.
  - intros Hne. destruct (step_stats _ _ _ _ H) as [Heq | (w & -> & [(k & Hk & Heq) | (Hk & Heq)])];
      rewrite Heq in Hne; try congruence.
    + assert (Hm : mutex (line s) = Some (Worker w))
        by (apply critical_inside; [assumption | now rewrite Hk]).
      destruct k; cbn in Hne; try congruence.
      exists w, timestep. unfold critical. rewrite Hm, Hk, Heq. cbn. auto.
    + cbn in Hne. congruence.
  - intros Hne. destruct (step_stats _ _ _ _ H) as [Heq | (w & -> & [(k & Hk & Heq) | (Hk & Heq)])];
      rewrite Heq in Hne; try congruence.
    + assert (Hm : mutex (line s) = Some (Worker w))
        by (apply critical_inside; [assumption | now rewrite Hk]).
      destruct k; cbn in Hne; try congruence.
      exists w. unfold critical. rewrite Hm, Hk, Heq. cbn. auto.
    + cbn in Hne. congruence.
Qed.

Lemma conservation_witness :
  exists s tr,
    outcome 10 2 3 100 false toy = Some (s, tr) /\
    at_worker s (Producer 1) = StatsAcquire (Produced 2) /\
    total_produced (stats (line s)) + 1 = total_consumed (stats (line s)) + 0 + len (line s).
Proof.
  eexists. eexists. split; [vm_compute; reflexivity|]. split; [reflexivity|].
  refine (proj1 (conservation 10 2 3 100 false toy _ _ _)).
  apply outcome_execution. vm_compute. reflexivity.
Defined.

(** ** The timestep counter against [total_timesteps] (C5, C9) *)

(** The counter starts at 0 and never decreases. *)
Lemma clock_monotone cap np nc tt v schedule s tr :
  execution cap np nc tt v schedule s tr ->
  0 <= current_timestep (line s) /\
  (schedule = [] -> current_timestep (line s) = 0) /\
  (forall t s' e, step s t = Some (s', e) ->
     current_timestep (line s) <= current_timestep (line s')).
Proof.
  intros Hex. destruct (execution_invariant _ _ _ _ _ _ _ _ Hex) as [_ Hcon].
  repeat split.
  - rewrite (con_clock _ _ Hcon). unfold count.
    destruct (critical s) as [[]|]; cbn; try lia.
    all: match goal with |- context [match ?i with _ => _ end] => destruct i; lia end.
  - intros ->. destruct Hex as (l0 & Hinit & Hrun). apply init_fresh in Hinit.
    destruct Hinit as [-> _]. cbn in Hrun. now inversion Hrun.
  - intros t s' e Hstep.
    destruct (step_clock _ _ _ _ Hstep) as [-> | (_ & _ & _ & ->)]; lia.
Qed.

(** C5 fails on the code.  [should_continue] compares the counter with
    [total_timesteps] before the buffer mutex is taken, so two producers
    can both pass the test at counter 0 with [total_timesteps = 1] and
    then increment in turn: the run below completes, every worker ended,
    with [current_timestep = 2]. *)
Lemma timestep_exceeds_total :
  exists s tr,
    execution 2 2 0 1 false overshoot s tr /\
    at_main s = Completed /\ workers_ended s /\
    total_timesteps (line s) = 1 /\
    current_timestep (line s) = 2 /\
    total_timesteps (line s) < current_timestep (line s).
Proof.
  eexists. eexists. split; [apply outcome_execution; vm_compute; reflexivity|].
  split; [reflexivity|]. split.
  - intros [[|[|i]]|i]; vm_compute; auto.
  - vm_compute. auto.
Qed.

(** The same defect on the reduced configuration of [main()]: the run
    completes, every worker ended, with 101 timesteps counted against a
    total of 100. *)
Lemma toy_run_exceeds_total :
  summary (outcome 10 2 3 100 false toy_overshoot)
  = Some (Completed, [Finished; Finished; Finished; Finished; Finished],
          100, 101, 101, 99, 2).
Proof. vm_compute. reflexivity. Qed.

(** What the code does record: one snapshot for every produced piece whose
    timestep is a multiple of the interval, each between 0 and the
    capacity. *)
Lemma snapshot_cadence cap np nc tt v schedule s tr :
  execution cap np nc tt v schedule s tr ->
  snapshot_interval (line s) = Z.max 1 (tt / 100) /\
  count_snapshots s
    = (count (puts tr) - unlogged (critical s)) / snapshot_interval (line s) /\
  (mutex (line s) = None ->
   count_snapshots s = current_timestep (line s) / snapshot_interval (line s)) /\
  Forall (fun n => 0 <= n <= buffer_capacity (line s)) (buffer_snapshots (stats (line s))).
Proof.
  intros Hex. destruct (execution_invariant _ _ _ _ _ _ _ _ Hex) as [_ Hcon].
  destruct Hcon as [F1 F2 F3 F4 F5 F6 F7 F8 F9 F10].
  split; [|split; [assumption | split; [|assumption]]].
  - rewrite F10. destruct Hex as (l0 & Hinit & Hrun).
    apply run_config in Hrun. apply init_fresh in Hinit.
    destruct Hinit as [-> _]. cbn in Hrun. 
    destruct Hrun as (_ & _ & _ & -> & _). reflexivity.
  - intros Hm. unfold critical in *. rewrite Hm in *. cbn in *.
    rewrite F7, F3. f_equal; lia.
Qed.

(** C9 fails on the code, by the defect of C5.  With
    [total_timesteps = 1] the interval is 1 and the claim allows between 0
    and 2 snapshots; three producers that pass the test together push the
    counter to 3, and the completed run below records 3 snapshots. *)
Lemma snapshots_exceed_cadence :
  exists s tr,
    execution 3 3 0 1 false overshoot_by_two s tr /\
    at_main s = Completed /\ workers_ended s /\
    snapshot_interval (line s) = 1 /\
    total_timesteps (line s) / snapshot_interval (line s) = 1 /\
    buffer_snapshots (stats (line s)) = [1; 2; 3] /\
    total_timesteps (line s) / snapshot_interval (line s) + 1 < count_snapshots s.
Proof.
  eexists. eexists. split; [apply outcome_execution; vm_compute; reflexivity|].
  split; [reflexivity|]. split.
  - intros [[|[|[|i]]]|i]; vm_compute; auto.
  - vm_compute. auto 10.
Qed.

(** ** Signalling after the critical section (C2) *)

(** C2, as stated, fails: the release of the counterpart semaphore
    follows the [with self.mutex] block on both branches.  On a line whose
    buffer is already full, an iteration of [producer_task] finds no room,
    counts a wait, leaves the buffer as it is, and still releases
    [filled_slots]; on a line signalled without a piece, an iteration of
    [consumer_task] finds the buffer empty, counts a wait, and still
    releases [empty_slots].  (Runs started by [start()] never take these
    branches, see [defensive_branches_unreached]; they are exercised here
    on lines set up from outside.) *)
Lemma rejected_branch_still_signals :
  (exists r',
     run prefilled (defensive_pass (Producer 0)) = Some (r', []) /\
     len (line prefilled) = buffer_capacity (line prefilled) /\
     buffer (line r') = buffer (line prefilled) /\
     total_produced (stats (line r')) = 0 /\
     producer_waits (stats (line r')) = 1 /\
     filled_slots (line prefilled) = 0 /\ filled_slots (line r') = 1) /\
  (exists r',
     run oversignalled (defensive_pass (Consumer 0)) = Some (r', []) /\
     buffer (line oversignalled) = [] /\ buffer (line r') = [] /\
     total_consumed (stats (line r')) = 0 /\
     consumer_waits (stats (line r')) = 1 /\
     empty_slots (line oversignalled) = 1 /\ empty_slots (line r') = 2).
Proof.
  split; eexists; (split; [vm_compute; reflexivity|]); vm_compute; auto 10.
Qed.

(** A worker touches the semaphore of the other side at one place only,
    the release that follows its [with self.mutex] block. *)
Lemma signal_only_at_release s w s' e :
  worker_step s w = Some (s', e) ->
  (at_worker s w = SemRelease /\ at_worker s' w = Sleep /\
   signalled w (line s') = signalled w (line s) + 1 /\
   mutex (line s') = mutex (line s)) \/
  (at_worker s w <> SemRelease /\ signalled w (line s') = signalled w (line s)).
Proof.
  intros H. destruct s as [l pm pw]. destruct w as [i|i].
  all: unfold worker_step, producer_task, consumer_task, should_continue,
         get_current_timestep, increment_timestep in H.
  all: fields; crack; fields; cbn [signalled]; fields.
  all: try (right; split; [congruence | reflexivity]).
  all: left; rewrite upd_same; auto.
Qed.

(** The release is reached only by leaving [with self.mutex], which
    frees the mutex. *)
Lemma release_follows_mutex s w s' e :
  worker_step s w = Some (s', e) -> at_worker s' w = SemRelease ->
  at_worker s w = MutexRelease /\ mutex (line s') = None.
Proof.
  intros H. destruct s as [l pm pw]. destruct w as [i|i].
  all: unfold worker_step, producer_task, consumer_task, should_continue,
         get_current_timestep, increment_timestep in H.
  all: fields; crack; fields; rewrite upd_same; intros Hpc; try discriminate Hpc.
  all: auto.
Qed.

(** The exit of [with self.mutex] and the release after it. *)
Lemma leave_and_signal r1 w :
  at_worker r1 w = MutexRelease ->
  exists r2 r',
    step r1 (Worker w) = Some (r2, []) /\
    at_worker r2 w = SemRelease /\ mutex (line r2) = None /\
    filled_slots (line r2) = filled_slots (line r1) /\
    empty_slots (line r2) = empty_slots (line r1) /\
    step r2 (Worker w) = Some (r', []) /\
    at_worker r' w = Sleep /\ mutex (line r') = None /\
    signalled w (line r') = signalled w (line r1) + 1 /\
    buffer (line r') = buffer (line r1) /\ stats (line r') = stats (line r1) /\
    filled_slots (line r') + empty_slots (line r')
      = filled_slots (line r1) + empty_slots (line r1) + 1.
Proof.
  intros Hpc. destruct r1 as [l pm pw]. cbn [at_worker] in Hpc.
  destruct w as [i|i].
  - eexists. eexists.
    split; [cbn [step worker_step]; unfold producer_task; cbn [at_worker]; rewrite Hpc;
            reflexivity|].
    unfold goto. fields. rewrite upd_same.
    split; [reflexivity|]. split; [reflexivity|]. cbn [signalled]. fields.
    split; [reflexivity|]. split; [reflexivity|].
    split; [cbn [step worker_step]; unfold producer_task; cbn [at_worker line];
            rewrite upd_same; reflexivity|].
    unfold goto. fields. rewrite upd_same. repeat split; lia.
  - eexists. eexists.
    split; [cbn [step worker_step]; unfold consumer_task; cbn [at_worker]; rewrite Hpc;
            reflexivity|].
    unfold goto. fields. rewrite upd_same.
    split; [reflexivity|]. split; [reflexivity|]. cbn [signalled]. fields.
    split; [reflexivity|]. split; [reflexivity|].
    split; [cbn [step worker_step]; unfold consumer_task; cbn [at_worker line];
            rewrite upd_same; reflexivity|].
    unfold goto. fields. rewrite upd_same. repeat split; lia.
Qed.

(** A producer that finds the buffer full, up to the exit of the block. *)
Lemma producer_rejected_inside r i :
  at_worker r (Producer i) = TestLen ->
  buffer_capacity (line r) <= len (line r) ->
  stats_lock (line r) = None ->
  exists r1,
    run r (only (Producer i) 4) = Some (r1, []) /\
    at_worker r1 (Producer i) = MutexRelease /\
    mutex (line r1) = mutex (line r) /\
    filled_slots (line r1) = filled_slots (line r) /\
    empty_slots (line r1) = empty_slots (line r) /\
    buffer (line r1) = buffer (line r) /\
    producer_waits (stats (line r1)) = producer_waits (stats (line r)) + 1.
Proof.
  destruct r as [l pm pw]. destruct l as [cap np nc tt buf mx es fs ts rn tl st sl si].
  unfold len. cbn [line at_worker buffer buffer_capacity stats_lock]. intros Hpc Hfull ->.
  apply Z.ltb_ge in Hfull.
  unfold only.
  tick. rewrite Hpc. unfold len; cbn [buffer]. rewrite Hfull.
  do 3 tick.
  eexists. split; [reflexivity|]. cbn. rewrite upd_same. repeat split.
Qed.

(** A producer that finds room, up to the exit of the block. *)
Lemma producer_accepted_inside r i :
  at_worker r (Producer i) = TestLen ->
  len (line r) < buffer_capacity (line r) ->
  timestep_lock (line r) = None ->
  stats_lock (line r) = None ->
  let piece_id := {| piece_producer := i; piece_timestep := current_timestep (line r) + 1 |} in
  exists n r1,
    run r (only (Producer i) n) = Some (r1, [Put piece_id]) /\
    at_worker r1 (Producer i) = MutexRelease /\
    mutex (line r1) = mutex (line r) /\
    filled_slots (line r1) = filled_slots (line r) /\
    empty_slots (line r1) = empty_slots (line r) /\
    buffer (line r1) = buffer (line r) ++ [piece_id].
Proof.
  destruct r as [l pm pw]. destruct l as [cap np nc tt buf mx es fs ts rn tl st sl si].
  unfold len. cbn [line at_worker buffer buffer_capacity stats_lock timestep_lock current_timestep].
  intros Hpc Hroom -> ->.
  apply Z.ltb_lt in Hroom.
  destruct ((ts + 1) mod si =? 0) eqn:Hsnap.
  - exists 11%nat. unfold only.
    tick. rewrite Hpc. unfold len; cbn [buffer]. rewrite Hroom.
    do 8 tick. rewrite Hsnap. do 2 tick.
    eexists. split; [reflexivity|]. cbn. rewrite upd_same. repeat split.
  - exists 10%nat. unfold only.
    tick. rewrite Hpc. unfold len; cbn [buffer]. rewrite Hroom.
    do 8 tick. rewrite Hsnap. do 1 tick.
    eexists. split; [reflexivity|]. cbn. rewrite upd_same. repeat split.
Qed.

(** A consumer that finds the buffer empty, up to the exit of the block. *)
Lemma consumer_missed_inside r i :
  at_worker r (Consumer i) = TestLen ->
  buffer (line r) = [] ->
  stats_lock (line r) = None ->
  exists r1,
    run r (only (Consumer i) 4) = Some (r1, []) /\
    at_worker r1 (Consumer i) = MutexRelease /\
    mutex (line r1) = mutex (line r) /\
    filled_slots (line r1) = filled_slots (line r) /\
    empty_slots (line r1) = empty_slots (line r) /\
    buffer (line r1) = [] /\
    consumer_waits (stats (line r1)) = consumer_waits (stats (line r)) + 1.
Proof.
  destruct r as [l pm pw]. destruct l as [cap np nc tt buf mx es fs ts rn tl st sl si].
  cbn [line at_worker buffer buffer_capacity stats_lock]. intros Hpc -> ->.
  unfold only.
  tick. rewrite Hpc. unfold len; cbn [buffer length Z.of_nat Z.ltb Z.compare].
  do 3 tick.
  eexists. split; [reflexivity|]. cbn. rewrite upd_same. repeat split.
Qed.

(** A consumer that finds a piece at the head, up to the exit of the
    block. *)
Lemma consumer_hit_inside r i piece_id rest :
  at_worker r (Consumer i) = TestLen ->
  buffer (line r) = piece_id :: rest ->
  stats_lock (line r) = None ->
  exists r1,
    run r (only (Consumer i) 5) = Some (r1, [Take piece_id]) /\
    at_worker r1 (Consumer i) = MutexRelease /\
    mutex (line r1) = mutex (line r) /\
    filled_slots (line r1) = filled_slots (line r) /\
    empty_slots (line r1) = empty_slots (line r) /\
    buffer (line r1) = rest.
Proof.
  destruct r as [l pm pw]. destruct l as [cap np nc tt buf mx es fs ts rn tl st sl si].
  cbn [line at_worker buffer buffer_capacity stats_lock]. intros Hpc -> ->.
  unfold only.
  tick. rewrite Hpc. unfold len; cbn [buffer length Z.of_nat Z.ltb Z.compare].
  do 4 tick.
  eexists. split; [reflexivity|]. cbn. rewrite upd_same. repeat split.
Qed.

(** C2, amended.  A worker touches the semaphore of the other side
    ([filled_slots] for a producer, [empty_slots] for a consumer) at one
    place only, the release that follows its [with self.mutex] block: that
    step adds one and leaves the mutex as it is; the worker comes to it
    only by the step that leaves the block, which frees the mutex; and in
    every coherent state (the reachable states are coherent) the worker
    standing at the release does not hold the mutex.  And every pass through the block ends with that release, on the
    success branch and on the defensive branch alike: a worker at the
    length test, holding the mutex, runs alone to the exit of the block
    with the mutex held and both semaphores untouched, whether a producer
    appended its piece (room in the buffer) or was rejected (buffer full,
    [producer_waits] incremented, buffer unchanged), and whether a consumer
    removed the head piece or found the buffer empty ([consumer_waits]
    incremented); its next step frees the mutex, and the step after that
    releases the semaphore once, with the mutex free, and ends the
    iteration. *)
Theorem signal_on_both_branches w :
  (forall s s' e, worker_step s w = Some (s', e) ->
     (at_worker s w = SemRelease /\ at_worker s' w = Sleep /\
      signalled w (line s') = signalled w (line s) + 1 /\
      mutex (line s') = mutex (line s)) \/
     (at_worker s w <> SemRelease /\ signalled w (line s') = signalled w (line s))) /\
  (forall s s' e, worker_step s w = Some (s', e) -> at_worker s' w = SemRelease ->
     at_worker s w = MutexRelease /\ mutex (line s') = None) /\
  (forall s, coherent s -> at_worker s w = SemRelease ->
     mutex (line s) <> Some (Worker w)) /\
  (forall r,
     at_worker r w = TestLen ->
     mutex (line r) = Some (Worker w) ->
     timestep_lock (line r) = None ->
     stats_lock (line r) = None ->
     exists n r1 r2 r' e,
       run r (only w n) = Some (r1, e) /\
       at_worker r1 w = MutexRelease /\ mutex (line r1) = Some (Worker w) /\
       filled_slots (line r1) = filled_slots (line r) /\
       empty_slots (line r1) = empty_slots (line r) /\
       step r1 (Worker w) = Some (r2, []) /\
       at_worker r2 w = SemRelease /\ mutex (line r2) = None /\
       filled_slots (line r2) = filled_slots (line r) /\
       empty_slots (line r2) = empty_slots (line r) /\
       step r2 (Worker w) = Some (r', []) /\
       at_worker r' w = Sleep /\ mutex (line r') = None /\
       match w with
       | Producer i =>
           filled_slots (line r') = filled_slots (line r) + 1 /\
           empty_slots (line r') = empty_slots (line r) /\
           ((len (line r) < buffer_capacity (line r) /\
             exists p, e = [Put p] /\ buffer (line r') = buffer (line r) ++ [p]) \/
            (buffer_capacity (line r) <= len (line r) /\ e = [] /\
             buffer (line r') = buffer (line r) /\
             producer_waits (stats (line r')) = producer_waits (stats (line r)) + 1))
       | Consumer i =>
           empty_slots (line r') = empty_slots (line r) + 1 /\
           filled_slots (line r') = filled_slots (line r) /\
           ((exists p, e = [Take p] /\ buffer (line r) = p :: buffer (line r')) \/
            (buffer (line r) = [] /\ e = [] /\ buffer (line r') = [] /\
             consumer_waits (stats (line r')) = consumer_waits (stats (line r)) + 1))
       end).
Proof.
  split; [exact (fun s s' e => signal_only_at_release s w s' e)|].
  split; [exact (fun s s' e => release_follows_mutex s w s' e)|].
  split.
  { intros s [Hm _ _ _] Hpc Hheld. apply (Hm (Worker w)) in Hheld.
    cbn [stands] in Hheld. rewrite Hpc in Hheld. discriminate. }
  intros r Hpc Hmx Hts Hst.
  assert (Hin : exists n r1 e,
            run r (only w n) = Some (r1, e) /\
            at_worker r1 w = MutexRelease /\ mutex (line r1) = mutex (line r) /\
            filled_slots (line r1) = filled_slots (line r) /\
            empty_slots (line r1) = empty_slots (line r) /\
            match w with
            | Producer i =>
                (len (line r) < buffer_capacity (line r) /\
                 exists p, e = [Put p] /\ buffer (line r1) = buffer (line r) ++ [p]) \/
                (buffer_capacity (line r) <= len (line r) /\ e = [] /\
                 buffer (line r1) = buffer (line r) /\
                 producer_waits (stats (line r1)) = producer_waits (stats (line r)) + 1)
            | Consumer i =>
                (exists p, e = [Take p] /\ buffer (line r) = p :: buffer (line r1)) \/
                (buffer (line r) = [] /\ e = [] /\ buffer (line r1) = [] /\
                 consumer_waits (stats (line r1)) = consumer_waits (stats (line r)) + 1)
            end).
  { destruct w as [i|i].
    - destruct (Z_lt_le_dec (len (line r)) (buffer_capacity (line r))) as [Hroom|Hfull].
      + destruct (producer_accepted_inside r i Hpc Hroom Hts Hst)
          as (n & r1 & H1 & H2 & H3 & H4 & H5 & H6).
        exists n, r1. eexists. repeat (split; [eassumption|]). left. eauto.
      + destruct (producer_rejected_inside r i Hpc Hfull Hst)
          as (r1 & H1 & H2 & H3 & H4 & H5 & H6 & H7).
        exists 4%nat, r1, []. repeat (split; [eassumption|]). right. auto.
    - destruct (buffer (line r)) as [|p rest] eqn:Hbuf.
      + destruct (consumer_missed_inside r i Hpc Hbuf Hst)
          as (r1 & H1 & H2 & H3 & H4 & H5 & H6 & H7).
        exists 4%nat, r1, []. repeat (split; [eassumption|]). right. auto.
      + destruct (consumer_hit_inside r i p rest Hpc Hbuf Hst)
          as (r1 & H1 & H2 & H3 & H4 & H5 & H6).
        exists 5%nat, r1, [Take p]. repeat (split; [eassumption|]).
        left. exists p. rewrite H6. auto. }
  destruct Hin as (n & r1 & e & Hrun & Hpc1 & Hmx1 & Hf1 & He1 & Hbranch).
  destruct (leave_and_signal r1 w Hpc1)
    as (r2 & r' & S1 & P2 & M2 & F2 & E2 & S2 & P3 & M3 & G3 & B3 & T3 & Hsum).
  exists n, r1, r2, r', e.
  split; [exact Hrun|]. split; [exact Hpc1|]. split; [congruence|].
  split; [exact Hf1|]. split; [exact He1|]. split; [exact S1|].
  split; [exact P2|]. split; [exact M2|].
  destruct w as [i|i]; cbn [signalled] in *.
  - split; [lia|]. split; [lia|]. split; [exact S2|]. split; [exact P3|].
    split; [exact M3|]. split; [lia|]. split; [lia|].
    rewrite B3, T3. exact Hbranch.
  - split; [lia|]. split; [lia|]. split; [exact S2|]. split; [exact P3|].
    split; [exact M3|]. split; [lia|]. split; [lia|].
    rewrite B3, T3. exact Hbranch.
Qed.

Lemma signal_on_both_branches_witness :
  exists n r1 r2 r' e,
    run prefilled_at_test (only (Producer 0) n) = Some (r1, e) /\
    mutex (line r1) = Some (Worker (Producer 0)) /\
    step r1 (Worker (Producer 0)) = Some (r2, []) /\
    mutex (line r2) = None /\
    step r2 (Worker (Producer 0)) = Some (r', []) /\
    at_worker r' (Producer 0) = Sleep /\
    filled_slots (line r') = filled_slots (line prefilled_at_test) + 1.
Proof.
  destruct (proj2 (proj2 (proj2 (signal_on_both_branches (Producer 0)))) prefilled_at_test)
    as (n & r1 & r2 & r' & e & H1 & _ & H3 & _ & _ & H6 & _ & H8 & _ & _ & H11 & H12 & _ & H14 & _);
    [reflexivity | reflexivity | reflexivity | reflexivity |].
  exists n, r1, r2, r', e. auto 10.
Defined.

(** ** Lock discipline (C4) *)

(** Deciding who holds a lock. *)
Lemma tid_eqb_eq a b : tid_eqb a b = true <-> a = b.
Proof.
  destruct a as [|x], b as [|y]; cbn; try (split; [discriminate | congruence]).
  - split; auto.
  - destruct (worker_eq_dec x y); split; congruence.
Qed.

Lemma holds_owner lk t hw hm s :
  (forall t', lk = Some t' <-> stands hw hm s t' = true) ->
  match lk with Some t' => tid_eqb t' t | None => false end = stands hw hm s t.
Proof.
  intros H. destruct lk as [t'|].
  - destruct (tid_eqb t' t) eqn:E.
    + apply tid_eqb_eq in E. subst. symmetry. now apply H.
    + destruct (stands hw hm s t) eqn:E'; [|reflexivity].
      apply H in E'. inversion E'; subst.
      rewrite (proj2 (tid_eqb_eq t t) eq_refl) in E. discriminate.
  - destruct (stands hw hm s t) eqn:E'; [|reflexivity].
    apply H in E'. discriminate.
Qed.

(** The locks a thread holds are those of the blocks it stands in. *)
Lemma held_by_stands s t :
  coherent s ->
  held_by (line s) t =
    (if stands in_mutex (fun _ => false) s t then [BufferMutex] else []) ++
    (if stands in_timestep_lock main_in_timestep_lock s t then [TimestepLock] else []) ++
    (if stands in_stats_lock (fun _ => false) s t then [StatsLock] else []).
Proof.
  intros [Hm Ht Hs _]. unfold held_by, holds, holder. cbn [filter].
  rewrite (holds_owner _ t _ _ s Hm), (holds_owner _ t _ _ s Ht), (holds_owner _ t _ _ s Hs).
  destruct (stands in_mutex _ s t), (stands in_timestep_lock _ s t),
    (stands in_stats_lock _ s t); reflexivity.
Qed.

(** C4, as stated, fails: [increment_timestep] is called inside
    [with self.mutex], so the producer below holds the buffer mutex and
    the timestep lock together; and the statistics block is nested in
    [with self.mutex], so its counter update runs with the buffer mutex
    held. *)
Lemma mutex_held_with_an_inner_lock :
  (exists s tr,
     execution 1 1 1 1 false nested_locks s tr /\
     at_worker s (Producer 0) = Increment Inc_add /\
     held_by (line s) (Worker (Producer 0)) = [BufferMutex; TimestepLock]) /\
  (exists s tr s' e,
     execution 1 1 1 1 false counting s tr /\
     step s (Worker (Producer 0)) = Some (s', e) /\
     stats (line s') <> stats (line s) /\
     held_by (line s) (Worker (Producer 0)) = [BufferMutex; StatsLock]).
Proof.
  split.
  - eexists. eexists. split; [apply outcome_execution; vm_compute; reflexivity|].
    vm_compute. auto.
  - eexists. eexists. eexists. eexists.
    split; [apply outcome_execution; vm_compute; reflexivity|].
    split; [vm_compute; reflexivity|].
    split; [vm_compute; congruence | vm_compute; reflexivity].
Qed.

(** The locks of a thread before and after one of its steps: the step
    takes or releases at most one lock, the last taken is the first
    released, and the buffer mutex is taken with no lock in hand. *)
Lemma locks_nest_like_a_stack s t s' e :
  coherent s -> coherent s' -> step s t = Some (s', e) ->
  (held_by (line s') t = held_by (line s) t \/
   (exists k, held_by (line s') t = held_by (line s) t ++ [k]) \/
   (exists k, held_by (line s) t = held_by (line s') t ++ [k])) /\
  (In BufferMutex (held_by (line s') t) -> ~ In BufferMutex (held_by (line s) t) ->
   held_by (line s) t = []).
Proof.
  intros Hcoh Hcoh' H.
  rewrite (held_by_stands s t Hcoh), (held_by_stands s' t Hcoh').
  destruct s as [l pm pw]. destruct t as [|w]; open_step H.
  all: cbn [stands at_main at_worker].
  all: rewrite ?upd_same.
  all: try match goal with E : ?f ?w = _ |- _ => rewrite E end.
  all: cbn [in_mutex in_timestep_lock in_stats_lock main_in_timestep_lock get_in_lock app].
  all: split; [eauto 6 | cbn; intros; tauto].
Qed.

(** C4, amended.  In every reachable state the locks held by a thread are
    none, the buffer mutex alone, the timestep lock alone, the buffer mutex
    with the timestep lock, or the buffer mutex with the statistics lock:
    the two inner locks are never held together; the main thread holds at
    most the timestep lock.  Every change of the statistics is made by a
    thread that holds the buffer mutex and the statistics lock.  The locks
    are taken and released in one order: a step of a thread takes or
    releases at most one lock, the lock released is the one taken last,
    and the buffer mutex is taken only by a thread that holds no lock, so
    an inner lock held with the mutex was taken after it (the timestep
    lock is also taken with no lock in hand, in [get_current_timestep]). *)
Theorem lock_nesting cap np nc tt v schedule s tr :
  execution cap np nc tt v schedule s tr ->
  forall t,
    In (held_by (line s) t)
       [ []; [BufferMutex]; [TimestepLock];
         [BufferMutex; TimestepLock]; [BufferMutex; StatsLock] ] /\
    (t = Main -> In (held_by (line s) t) [ []; [TimestepLock] ]) /\
    (forall s' e, step s t = Some (s', e) -> stats (line s') <> stats (line s) ->
       held_by (line s) t = [BufferMutex; StatsLock]) /\
    (forall s' e, step s t = Some (s', e) ->
       (held_by (line s') t = held_by (line s) t \/
        (exists k, held_by (line s') t = held_by (line s) t ++ [k]) \/
        (exists k, held_by (line s) t = held_by (line s') t ++ [k])) /\
       (In BufferMutex (held_by (line s') t) -> ~ In BufferMutex (held_by (line s) t) ->
        held_by (line s) t = [])).
Proof.
  intros Hex t. destruct (execution_invariant _ _ _ _ _ _ _ _ Hex) as [Hcoh _].
  split; [|split; [|split]].
  - rewrite (held_by_stands s t Hcoh).
    destruct t as [|w]; cbn [stands].
    + destruct (main_in_timestep_lock (at_main s)); cbn; auto.
    + destruct (at_worker s w) as [| [|[]] | | [|[]] | | | |[] | | | | | | | | | | | | ];
        cbn; auto 10.
  - rewrite (held_by_stands s t Hcoh).
    intros ->. cbn [stands]. destruct (main_in_timestep_lock (at_main s)); cbn; auto.
  - rewrite (held_by_stands s t Hcoh).
    intros s' e Hstep Hne.
    destruct (step_stats _ _ _ _ Hstep) as [Heq | (w & -> & [(k & Hk & _) | (Hk & _)])];
      [congruence | |]; cbn [stands]; rewrite Hk; reflexivity.
  - intros s' e Hstep.
    apply (locks_nest_like_a_stack s t s' e Hcoh (step_coherent _ _ _ _ Hcoh Hstep) Hstep).
Qed.

Lemma lock_nesting_witness :
  exists s tr,
    outcome 1 1 1 1 false nested_locks = Some (s, tr) /\
    In (held_by (line s) (Worker (Producer 0)))
       [ []; [BufferMutex]; [TimestepLock];
         [BufferMutex; TimestepLock]; [BufferMutex; StatsLock] ].
Proof.
  eexists. eexists. split; [vm_compute; reflexivity|].
  refine (proj1 (lock_nesting 1 1 1 1 false nested_locks _ _ _ (Worker (Producer 0)))).
  apply outcome_execution. vm_compute. reflexivity.
Defined.

(** ** Order, timesteps and capacity (C7, C10, C6) *)

Lemma stamps_In n v : In v (stamps n) <-> 1 <= v <= Z.of_nat n.
Proof.
  unfold stamps. rewrite in_map_iff. split.
  - intros (k & <- & Hk). apply in_seq in Hk. lia.
  - intros H. exists (Z.to_nat v). split; [lia|]. apply in_seq. lia.
Qed.

Lemma stamps_NoDup n : NoDup (stamps n).
Proof.
  unfold stamps. apply Injective_map_NoDup.
  - intros a b. lia.
  - apply seq_NoDup.
Qed.

Lemma seq_increasing : forall n a, StronglySorted Z.lt (map Z.of_nat (seq a n)).
Proof.
  induction n as [|n IH]; intros a; cbn; constructor.
  - apply IH.
  - apply Forall_forall. intros v Hv. apply in_map_iff in Hv.
    destruct Hv as (k & <- & Hk). apply in_seq in Hk. lia.
Qed.

Lemma sorted_suffix {A} (R : A -> A -> Prop) (a b : list A) :
  StronglySorted R (a ++ b) -> StronglySorted R b.
Proof.
  induction a as [|x a IH]; cbn; intros H; [assumption|].
  inversion H; auto.
Qed.

(** The timesteps in the buffer increase strictly from head to tail. *)
Lemma buffer_increasing s tr :
  consistent s tr -> StronglySorted Z.lt (map piece_timestep (buffer (line s))).
Proof.
  intros [F1 F2 _ _ _ _ _ _ _ _].
  apply (sorted_suffix _ (map piece_timestep (takes tr))).
  rewrite <- map_app, <- F1, F2. apply seq_increasing.
Qed.

(** C7.  Along every run the pieces taken so far, followed by the content
    of the buffer from head to tail, are the pieces put so far, in the order
    they were put.  Every step leaves the buffer as it is, or appends the
    produced piece at its tail, or removes its head; the piece a consumer
    takes is the head, and every piece that stays in the buffer carries a
    larger timestep (was produced later). *)
Theorem fifo_order cap np nc tt v schedule s tr :
  execution cap np nc tt v schedule s tr ->
  puts tr = takes tr ++ buffer (line s) /\
  StronglySorted Z.lt (map piece_timestep (buffer (line s))) /\
  (forall t s' e, step s t = Some (s', e) ->
     (e = [] /\ buffer (line s') = buffer (line s)) \/
     (exists p, e = [Put p] /\ buffer (line s') = buffer (line s) ++ [p]) \/
     (exists p, e = [Take p] /\ buffer (line s) = p :: buffer (line s') /\
        Forall (fun q => piece_timestep p < piece_timestep q) (buffer (line s')))).
Proof.
  intros Hex. destruct (execution_invariant _ _ _ _ _ _ _ _ Hex) as [Hcoh Hcon].
  pose proof (buffer_increasing s tr Hcon) as Hsorted.
  split; [apply Hcon|]. split; [assumption|].
  intros t s' e Hstep.
  destruct (step_buffer _ _ _ _ Hstep)
    as [H | [(i & x & _ & _ & He & Hb) | (w & p & _ & _ & He & Hb)]]; auto.
  - right; left. eauto.
  - right; right. exists p. repeat split; auto.
    rewrite Hb in Hsorted. cbn in Hsorted. inversion Hsorted; subst.
    now rewrite Forall_map in H2.
Qed.

Lemma fifo_order_witness :
  exists s tr,
    outcome 10 2 3 100 false toy = Some (s, tr) /\
    puts tr = takes tr ++ buffer (line s) /\
    takes tr = [{| piece_producer := 0%nat; piece_timestep := 1 |}] /\
    buffer (line s) = [{| piece_producer := 1%nat; piece_timestep := 2 |}].
Proof.
  eexists. eexists. split; [vm_compute; reflexivity|]. split.
  - refine (proj1 (fifo_order 10 2 3 100 false toy _ _ _)).
    apply outcome_execution. vm_compute. reflexivity.
  - split; reflexivity.
Defined.

(** C10, as stated, fails: [total_produced] is incremented after the
    append, inside the statistics block, so between the two the timesteps
    in use run one ahead of it.  On the reduced configuration of [main()]
    producer 1 has appended the piece of timestep 2 and not yet counted
    it: the timesteps are 1 and 2 and [total_produced] is 1.  The same
    holds at the end of a run whose join timed out: [wait_completion] has
    returned, one piece of timestep 1 was appended, [total_produced] is
    0. *)
Lemma timesteps_run_ahead_of_total_produced :
  (exists s tr,
     execution 10 2 3 100 false toy s tr /\
     map piece_timestep (puts tr) = [1; 2] /\
     total_produced (stats (line s)) = 1 /\
     ~ (forall k, In k (map piece_timestep (puts tr)) <->
                  1 <= k <= total_produced (stats (line s)))) /\
  (exists s tr,
     execution 1 1 1 1 false timed_out_join s tr /\
     at_main s = Completed /\
     map piece_timestep (puts tr) = [1] /\
     total_produced (stats (line s)) = 0).
Proof.
  split.
  - eexists. eexists. split; [apply outcome_execution; vm_compute; reflexivity|].
    split; [reflexivity|]. split; [reflexivity|].
    intros H. specialize (H 2). cbn in H. lia.
  - eexists. eexists. split; [apply outcome_execution; vm_compute; reflexivity|].
    split; [reflexivity|]. split; reflexivity.
Qed.

(** C10, amended.  [increment_timestep] returns the counter after adding
    one, and it is called only by the thread holding the buffer mutex, on
    the branch where the buffer has room.  So along every run the
    timesteps of the pieces put, in order, are 1, 2, ..., up to their
    number: the first is 1, no timestep is used twice and none is skipped.
    [total_produced] is that number, less the piece appended and not yet
    counted inside the critical section; with the buffer mutex free,
    [total_produced] and [current_timestep] both equal it. *)
Theorem timesteps_consecutive cap np nc tt v schedule s tr :
  execution cap np nc tt v schedule s tr ->
  map piece_timestep (puts tr) = stamps (length (puts tr)) /\
  (forall p rest, puts tr = p :: rest -> piece_timestep p = 1) /\
  NoDup (map piece_timestep (puts tr)) /\
  (forall k, In k (map piece_timestep (puts tr)) <-> 1 <= k <= count (puts tr)) /\
  total_produced (stats (line s)) + uncounted_put (critical s) = count (puts tr) /\
  current_timestep (line s) = count (puts tr) + ticking (critical s) /\
  (mutex (line s) = None ->
     total_produced (stats (line s)) = count (puts tr) /\
     current_timestep (line s) = count (puts tr)) /\
  (forall t s' e, step s t = Some (s', e) ->
     current_timestep (line s') <> current_timestep (line s) ->
     mutex (line s) = Some t /\ len (line s) < buffer_capacity (line s) /\
     current_timestep (line s') = current_timestep (line s) + 1).
Proof.
  intros Hex. destruct (execution_invariant _ _ _ _ _ _ _ _ Hex) as [Hcoh Hcon].
  destruct Hcon as [F1 F2 F3 F4 F5 F6 F7 F8 F9 F10].
  split; [assumption|]. split; [|split; [|split; [|split; [|split; [|split]]]]]; auto.
  - intros p rest Hp. rewrite Hp in F2. cbn in F2. now inversion F2.
  - rewrite F2. apply stamps_NoDup.
  - intros k. rewrite F2. apply stamps_In.
  - intros Hm. unfold critical in *. rewrite Hm in *. cbn in *. lia.
  - intros t s' e Hstep Hne.
    destruct (step_clock _ _ _ _ Hstep) as [Heq | (w & -> & Hk & Heq)]; [congruence|].
    assert (Hm : mutex (line s) = Some (Worker w))
      by (apply critical_inside; [assumption | now rewrite Hk]).
    unfold critical in F4. rewrite Hm, Hk in F4. cbn in F4. auto.
Qed.

Lemma timesteps_consecutive_witness :
  exists s tr,
    outcome 10 2 3 100 false toy = Some (s, tr) /\
    map piece_timestep (puts tr) = [1; 2] /\
    total_produced (stats (line s)) = 1 /\
    at_worker s (Producer 1) = StatsAcquire (Produced 2).
Proof.
  eexists. eexists. split; [vm_compute; reflexivity|]. split.
  - refine (proj1 (timesteps_consecutive 10 2 3 100 false toy _ _ _)).
    apply outcome_execution. vm_compute. reflexivity.
  - split; reflexivity.
Defined.

(** C6.  Along every run [0 <= len(buffer) <= buffer_capacity], the
    capacity is the one given to the constructor, and every recorded
    snapshot lies between 0 and the capacity.  A producer that finds the
    buffer full inside the critical section takes the rejected branch: it
    runs to the end of its iteration with the buffer unchanged,
    [producer_waits] incremented, and neither [total_produced] nor the
    timestep counter touched. *)
Theorem capacity_invariant cap np nc tt v schedule s tr :
  execution cap np nc tt v schedule s tr ->
  buffer_capacity (line s) = cap /\
  0 <= len (line s) <= buffer_capacity (line s) /\
  Forall (fun n => 0 <= n <= buffer_capacity (line s)) (buffer_snapshots (stats (line s))) /\
  (forall t s' e, step s t = Some (s', e) ->
     0 <= len (line s') <= buffer_capacity (line s')) /\
  (forall r i,
     at_worker r (Producer i) = TestLen ->
     len (line r) = buffer_capacity (line r) ->
     stats_lock (line r) = None ->
     exists r',
       run r (only (Producer i) 6) = Some (r', []) /\
       at_worker r' (Producer i) = Sleep /\
       buffer (line r') = buffer (line r) /\
       producer_waits (stats (line r')) = producer_waits (stats (line r)) + 1 /\
       total_produced (stats (line r')) = total_produced (stats (line r)) /\
       current_timestep (line r') = current_timestep (line r)).
Proof.
  intros Hex. destruct (execution_invariant _ _ _ _ _ _ _ _ Hex) as [Hcoh Hcon].
  split; [|split; [apply Hcon | split; [apply Hcon | split]]].
  - destruct Hex as (l0 & Hinit & Hrun).
    apply run_config in Hrun. apply init_fresh in Hinit.
    destruct Hinit as [-> _]. cbn in Hrun. tauto.
  - intros t s' e Hstep.
    apply (con_capacity s' (tr ++ e)). eapply step_consistent; eauto.
  - intros r i Hpc Hfull Hfree.
    destruct (producer_rejected r i Hpc ltac:(lia) Hfree)
      as (r' & H1 & H2 & H3 & H4 & H5 & H6 & _).
    exists r'. auto 10.
Qed.

Lemma capacity_invariant_witness :
  exists s tr,
    outcome 10 2 3 100 false toy = Some (s, tr) /\
    buffer_capacity (line s) = 10 /\
    0 <= len (line s) <= buffer_capacity (line s) /\
    Forall (fun n => 0 <= n <= buffer_capacity (line s)) (buffer_snapshots (stats (line s))).
Proof.
  edestruct (capacity_invariant 10 2 3 100 false toy) as (H1 & H2 & H3 & _);
    [apply outcome_execution; vm_compute; reflexivity|].
  eexists. eexists. split; [vm_compute; reflexivity|].
  split; [exact H1|]. split; [exact H2 | exact H3].
Defined.

(** ** Executions *)

Lemma run_app : forall a b s,
  run s (a ++ b) =
  match run s a with
  | Some (s1, tr1) =>
      match run s1 b with
      | Some (s2, tr2) => Some (s2, tr1 ++ tr2)
      | None => None
      end
  | None => None
  end.
Proof.
  induction a as [|t a IH]; intros b s; cbn [app run].
  - destruct (run s b) as [[s2 tr2]|]; reflexivity.
  - destruct (step s t) as [[s1 e]|]; [|reflexivity].
    rewrite IH. destruct (run s1 a) as [[s2 tr2]|]; [|reflexivity].
    destruct (run s2 b) as [[s3 tr3]|]; [|reflexivity].
    now rewrite app_assoc.
Qed.

Lemma execution_app cap np nc tt v schedule s tr more s' tr' :
  execution cap np nc tt v schedule s tr -> run s more = Some (s', tr') ->
  execution cap np nc tt v (schedule ++ more) s' (tr ++ tr').
Proof.
  intros (l0 & Hinit & Hrun) H. exists l0. split; [assumption|].
  rewrite run_app, Hrun, H. reflexivity.
Qed.

Lemma execution_step cap np nc tt v schedule s tr t s' e :
  execution cap np nc tt v schedule s tr -> step s t = Some (s', e) ->
  execution cap np nc tt v (schedule ++ [t]) s' (tr ++ e).
Proof.
  intros Hex H. apply (execution_app _ _ _ _ _ _ _ _ [t] s' e Hex).
  cbn. rewrite H, app_nil_r. reflexivity.
Qed.

(** Induction over the executions of a configuration. *)
Lemma execution_ind (P : system -> list event -> Prop) cap np nc tt v :
  (forall l0, __init__ cap np nc tt v = inr l0 -> P (boot l0) []) ->
  (forall schedule s tr t s' e,
     execution cap np nc tt v schedule s tr -> P s tr ->
     step s t = Some (s', e) -> P s' (tr ++ e)) ->
  forall schedule s tr, execution cap np nc tt v schedule s tr -> P s tr.
Proof.
  intros H0 Hstep schedule.
  induction schedule as [|t rest IH] using rev_ind; intros s tr (l0 & Hinit & Hrun).
  - inversion Hrun; subst. auto.
  - apply run_snoc in Hrun. destruct Hrun as (s1 & tr1 & e & H1 & H2 & ->).
    assert (Hex : execution cap np nc tt v rest s1 tr1) by (exists l0; auto).
    eauto.
Qed.

Lemma execution_config cap np nc tt v schedule s tr :
  execution cap np nc tt v schedule s tr ->
  buffer_capacity (line s) = cap /\ num_producers (line s) = np /\
  num_consumers (line s) = nc /\ total_timesteps (line s) = tt /\ 0 <= cap.
Proof.
  intros (l0 & Hinit & Hrun). apply run_config in Hrun. apply init_fresh in Hinit.
  destruct Hinit as [-> Hcap]. cbn in Hrun. intuition congruence.
Qed.

(** ** Roles *)

Lemma step_in_role s t s' e : in_role s -> step s t = Some (s', e) -> in_role s'.
Proof.
  intros Hr H. destruct s as [l pm pw].
  destruct t as [|[k|k]]; open_step H.
  all: unfold in_role in *; cbn [at_worker] in *.
  all: let j := fresh "j" in intros j; destruct (Hr j) as [Hp Hc].
  all: try (split; assumption).
  all: split;
    match goal with
    | |- context [upd ?f ?w ?p ?x] =>
        destruct (worker_eq_dec x w) as [Heq|Hne];
        [ rewrite Heq, upd_same; try reflexivity; try discriminate Heq
        | rewrite upd_other by assumption; assumption ]
    end.
Qed.

Lemma execution_in_role cap np nc tt v schedule s tr :
  execution cap np nc tt v schedule s tr -> in_role s.
Proof.
  revert schedule s tr. apply (execution_ind (fun s _ => in_role s)).
  - intros l0 _ i. split; reflexivity.
  - intros schedule s tr t s' e _ Hr Hstep. eapply step_in_role; eauto.
Qed.

(** ** The polling loop of [wait_completion] *)

(** A step of a worker leaves the main thread and [self.running] alone,
    and never lowers the timestep counter. *)
Lemma worker_step_main s w s' e :
  worker_step s w = Some (s', e) ->
  at_main s' = at_main s /\ running (line s') = running (line s) /\
  total_timesteps (line s') = total_timesteps (line s) /\
  current_timestep (line s) <= current_timestep (line s').
Proof.
  intros H. destruct s as [l pm pw]. open_step H.
  all: repeat split; first [reflexivity | assumption | lia].
Qed.

Lemma step_gate s t s' e : gate s -> step s t = Some (s', e) -> gate s'.
Proof.
  intros [G1 G2 G3] H. destruct t as [|w]; cbn [step] in H.
  - destruct s as [l pm pw]. unfold main_step, get_current_timestep in H.
    fields. crack; fields.
    all: cbn [past_polling stopped] in *.
    all: tests.
    all: split; fields; cbn [past_polling stopped].
    all: try solve [ intros; first [discriminate | congruence | auto] ].
    all: try solve [ let v := fresh in let Hv := fresh in
                     intros v Hv; inversion Hv; subst; lia ].
    all: try solve [ intros _; match goal with
                     | H : ?t <= ?r |- ?t <= _ => specialize (G1 r eq_refl); lia
                     end ].
  - destruct (worker_step_main _ _ _ _ H) as (Hm & Hr & Ht & Hc).
    split; rewrite ?Hm, ?Hr, ?Ht.
    + intros v Hv. specialize (G1 v Hv). lia.
    + intros Hp. specialize (G2 Hp). lia.
    + assumption.
Qed.

Lemma execution_gate cap np nc tt v schedule s tr :
  execution cap np nc tt v schedule s tr -> gate s.
Proof.
  revert schedule s tr. apply (execution_ind (fun s _ => gate s)).
  - intros l0 Hinit. apply init_fresh in Hinit. destruct Hinit as [-> _].
    split; cbn; intros; discriminate.
  - intros schedule s tr t s' e _ Hg Hstep. eapply step_gate; eauto.
Qed.

(** ** How far the counter can run *)

Lemma armed_nonneg tt p : 0 <= armed tt p.
Proof.
  destruct p as [| | | [|[| |v]] | | | | [] | | | | | | | | | | | |]; cbn; try lia.
  destruct (v <? tt); lia.
Qed.

Lemma armed_le_holding tt p : armed tt p <= holding p.
Proof.
  destruct p as [| | | [|[| |v]] | | | | [] | | | | | | | | | | | |]; cbn; try lia.
  destruct (v <? tt); lia.
Qed.

Lemma armed_le_1 tt p : armed tt p <= 1.
Proof.
  destruct p as [| | | [|[| |v]] | | | | [] | | | | | | | | | | | |]; cbn; try lia.
  destruct (v <? tt); lia.
Qed.

Lemma tally_bounded f n : (forall i, f i <= 1) -> tally f n <= Z.of_nat n.
Proof.
  intros H. induction n as [|n IH]; [cbn; lia|].
  cbn [tally]. specialize (H n). lia.
Qed.

(** The producers armed at once are no more than the producers, and,
    while the run is on, no more than the slots. *)
Lemma armed_few s tt :
  balanced s ->
  0 <= producers (armed tt) s <= Z.max 0 (num_producers (line s)) /\
  (running (line s) = true -> producers (armed tt) s <= buffer_capacity (line s)).
Proof.
  intros Hb. split; [split|].
  - apply among_nonneg, armed_nonneg.
  - unfold producers, among.
    etransitivity; [apply tally_bounded; intros; apply armed_le_1|]. lia.
  - intros Hr. pose proof (bal_slots s Hb Hr) as H.
    destruct (bal_counts s Hb) as [He _].
    pose proof (among_facts Consumer (num_consumers (line s)) (at_worker s)) as (_ & _ & _ & Hc).
    assert (producers (armed tt) s <= producers holding s)
      by (unfold producers, among; apply tally_le; intros; apply armed_le_holding).
    unfold consumers in H. unfold len in H. lia.
Qed.

(** Decides the comparisons left in a goal. *)
Ltac decide_tests :=
  repeat match goal with
    | H : (_ <? _) = true |- _ => apply Z.ltb_lt in H
    | H : (_ <? _) = false |- _ => apply Z.ltb_ge in H
    | H : context [?a <? ?b] |- _ => destruct (Z.ltb_spec a b)
    | |- context [?a <? ?b] => destruct (Z.ltb_spec a b)
    end.

Lemma step_bounded_clock s t s' e :
  coherent s -> balanced s -> balanced s' -> gate s' ->
  0 <= current_timestep (line s) -> 0 <= buffer_capacity (line s) ->
  bounded_clock s -> step s t = Some (s', e) -> bounded_clock s'.
Proof.
  intros [_ _ _ Hu] Hb Hb' Hg' Hclk Hcap Hbc H.
  pose proof (armed_few s' (total_timesteps (line s')) Hb') as [Hfew Hslots].
  assert (Hrun : current_timestep (line s') < total_timesteps (line s') ->
                 running (line s') = true).
  { intros Hlt. destruct (running (line s')) eqn:Hr; [reflexivity|].
    pose proof (gate_running s' Hg' Hr) as Hs.
    assert (Hp : past_polling (at_main s') = true)
      by (destruct (at_main s'); cbn in *; congruence).
    pose proof (gate_passed s' Hg' Hp). lia. }
  pose proof (bal_producers s Hb) as Bp.
  unfold bounded_clock in *.
  destruct t as [|[i|i]]; cbn [step worker_step] in H.
  - destruct s as [l pm pw]. unfold main_step, get_current_timestep in H.
    unfold unborn in Hu. fields. crack; fields.
    all: tests.
    all: try match goal with
         | Hu : (forall j, (?i <= j)%nat -> ?f (Producer j) = NotStarted) |- _ =>
             pose proof (Hu i (Nat.le_refl i)) as Hnew
         end.
    all: resum; try rewrite Hnew in *; cbn [armed] in *.
    all: lia.
  - assert (Hi : Z.of_nat i < num_producers (line s)).
    { destruct (Z_lt_le_dec (Z.of_nat i) (num_producers (line s))) as [|Hge]; [assumption|].
      apply Bp in Hge. unfold producer_task in H. rewrite Hge in H. discriminate. }
    destruct s as [l pm pw].
    unfold producer_task, should_continue, get_current_timestep, increment_timestep in H.
    fields. crack; fields.
    all: resum.
    all: try match goal with E : ?f (Producer _) = _ |- _ => rewrite E in * end.
    all: cbn [armed] in *.
    all: unfold peak in *; decide_tests; try lia.
    all: specialize (Hrun ltac:(lia)); specialize (Hslots Hrun); lia.
  - destruct s as [l pm pw].
    unfold consumer_task, should_continue, get_current_timestep in H.
    fields. crack; fields.
    all: resum.
    all: lia.
Qed.

Lemma execution_bounded_clock cap np nc tt v schedule s tr :
  execution cap np nc tt v schedule s tr -> bounded_clock s.
Proof.
  revert schedule s tr. apply (execution_ind (fun s _ => bounded_clock s)).
  - intros l0 Hinit. apply init_fresh in Hinit. destruct Hinit as [-> Hcap].
    unfold bounded_clock, producers, boot, peak.
    cbn [line at_worker current_timestep total_timesteps num_producers buffer_capacity].
    rewrite among_unstarted by reflexivity. decide_tests; lia.
  - intros schedule s tr t s' e Hex Hbc Hstep.
    pose proof (execution_step _ _ _ _ _ _ _ _ _ _ _ Hex Hstep) as Hex'.
    destruct (execution_invariant _ _ _ _ _ _ _ _ Hex) as [Hcoh Hcon].
    pose proof (execution_config _ _ _ _ _ _ _ _ Hex) as (Hc & _ & _ & _ & Hcap).
    eapply step_bounded_clock; eauto using execution_balanced, execution_gate.
    + apply (clock_monotone _ _ _ _ _ _ _ _ Hex).
    + lia.
Qed.

(** ** The semaphores through the shutdown *)

Lemma step_ledger s t s' e :
  coherent s -> balanced s -> balanced s' ->
  ledger s -> step s t = Some (s', e) -> ledger s'.
Proof.
  intros [_ _ _ Hu] Hb Hb' [L0 L1 L2] H.
  pose proof (bal_producers s Hb) as Bp.
  pose proof (bal_consumers s Hb) as Bc.
  pose proof (bal_alive s' Hb') as Ba'.
  unfold loop_bound in *.
  destruct t as [|[i|i]]; cbn [step worker_step] in H.
  - destruct s as [l pm pw]. unfold main_step, get_current_timestep in H.
    unfold unborn in Hu. fields. crack; fields.
    all: tests.
    all: try match goal with
         | Hu : (forall j, (?i <= j)%nat -> ?f (Producer j) = NotStarted) |- _ =>
             pose proof (Hu i (Nat.le_refl i)) as Hnew
         | Hu : (forall j, (?i <= j)%nat -> ?f (Consumer j) = NotStarted) |- _ =>
             pose proof (Hu i (Nat.le_refl i)) as Hnew
         end.
    all: split; unfold loop_bound; fields; resum; try rewrite Hnew in *;
      cbn [holding passing released_empty released_filled] in *.
    all: unfold len in *; fields; lia.
  - assert (Hi : Z.of_nat i < num_producers (line s)).
    { destruct (Z_lt_le_dec (Z.of_nat i) (num_producers (line s))) as [|Hge]; [assumption|].
      apply Bp in Hge. unfold producer_task in H. rewrite Hge in H. discriminate. }
    specialize (Ba' (Producer i)).
    destruct s as [l pm pw].
    unfold producer_task, should_continue, get_current_timestep, increment_timestep in H.
    fields. crack; fields.
    all: rewrite upd_same in Ba'; try discriminate Ba'.
    all: split; unfold loop_bound; fields; try assumption; resum.
    all: try match goal with E : ?f (Producer _) = _ |- _ => rewrite E in * end.
    all: cbn [holding passing] in *; tests; try lia.
  - assert (Hi : Z.of_nat i < num_consumers (line s)).
    { destruct (Z_lt_le_dec (Z.of_nat i) (num_consumers (line s))) as [|Hge]; [assumption|].
      apply Bc in Hge. unfold consumer_task in H. rewrite Hge in H. discriminate. }
    specialize (Ba' (Consumer i)).
    destruct s as [l pm pw].
    unfold consumer_task, should_continue, get_current_timestep in H.
    fields. crack; fields.
    all: rewrite upd_same in Ba'; try discriminate Ba'.
    all: split; unfold loop_bound; fields; try assumption; resum.
    all: try match goal with E : ?f (Consumer _) = _ |- _ => rewrite E in * end.
    all: cbn [holding passing] in *; tests; try lia.
Qed.

Lemma execution_ledger cap np nc tt v schedule s tr :
  execution cap np nc tt v schedule s tr -> ledger s.
Proof.
  revert schedule s tr. apply (execution_ind (fun s _ => ledger s)).
  - intros l0 Hinit. apply init_fresh in Hinit. destruct Hinit as [-> Hcap].
    split; unfold loop_bound, producers, consumers, len, boot;
      cbn [line at_main at_worker buffer_capacity num_producers num_consumers buffer
           empty_slots filled_slots length Z.of_nat released_empty released_filled];
      rewrite ?among_unstarted by reflexivity; lia.
  - intros schedule s tr t s' e Hex Hl Hstep.
    pose proof (execution_step _ _ _ _ _ _ _ _ _ _ _ Hex Hstep) as Hex'.
    destruct (execution_invariant _ _ _ _ _ _ _ _ Hex) as [Hcoh Hcon].
    eapply step_ledger; eauto using execution_balanced.
Qed.

(** ** Threads that can step *)

Ltac can_step :=
  unfold enabled, step, worker_step, main_step, producer_task, consumer_task,
    should_continue, get_current_timestep, increment_timestep, lock_acquire;
  fields;
  repeat match goal with
    | E : ?f ?w = _ |- context [?f ?w] => rewrite E
    | E : ?x = _ |- context [match ?x with _ => _ end] => rewrite E
    end;
  cbn;
  repeat (match goal with
          | |- context [?a <? ?b] => destruct (a <? b)
          | |- context [?a =? ?b] => destruct (a =? b)
          | |- context [running ?l] => destruct (running l)
          | |- context [buffer ?l] => destruct (buffer l)
          end; cbn);
  try reflexivity.

(** The thread inside [with self.timestep_lock] is not blocked. *)
Lemma timestep_holder_enabled s t :
  coherent s -> in_role s -> timestep_lock (line s) = Some t -> enabled s t = true.
Proof.
  intros [_ Ht _ _] Hr H. apply Ht in H. destruct s as [l pm pw].
  destruct t as [|[i|i]]; cbn [stands at_main at_worker] in H.
  - destruct pm as [| |[]| | | | | | |]; cbn in H; try discriminate; can_step.
  - destruct (pw (Producer i)) as [| [|[]] | | [|[]] | | | | [] | | | | | | | | | | | |] eqn:E;
      cbn in H; try discriminate; can_step.
  - destruct (Hr i) as [_ Hc]. cbn [at_worker] in Hc.
    destruct (pw (Consumer i)) as [| [|[]] | | [|[]] | | | | [] | | | | | | | | | | | |] eqn:E;
      cbn in H; try discriminate; try discriminate Hc; can_step.
Qed.

(** The thread inside [with self.stats_lock] is not blocked. *)
Lemma stats_holder_enabled s t :
  coherent s -> in_role s -> stats_lock (line s) = Some t -> enabled s t = true.
Proof.
  intros [_ _ Hs _] Hr H. apply Hs in H. destruct s as [l pm pw].
  destruct t as [|[i|i]]; cbn [stands at_main at_worker] in H; [discriminate| |].
  - destruct (Hr i) as [Hp _]. cbn [at_worker] in Hp.
    destruct (pw (Producer i)) as [| | | | | | | | | | |[]| | | | | | | |] eqn:E;
      cbn in H; try discriminate; try discriminate Hp; can_step.
  - destruct (Hr i) as [_ Hc]. cbn [at_worker] in Hc.
    destruct (pw (Consumer i)) as [| | | | | | | | | | |[]| | | | | | | |] eqn:E;
      cbn in H; try discriminate; try discriminate Hc; can_step.
Qed.

(** The worker inside [with self.mutex] is not blocked, or waits for a
    lock whose holder is not. *)
Lemma mutex_holder_progress s t :
  coherent s -> in_role s -> mutex (line s) = Some t -> exists t', enabled s t' = true.
Proof.
  intros Hcoh Hr H. apply (coh_mutex s Hcoh) in H.
  destruct t as [|w]; cbn [stands] in H; [discriminate|].
  destruct (timestep_lock (line s)) as [t1|] eqn:Ht.
  { exists t1. now apply timestep_holder_enabled. }
  destruct (stats_lock (line s)) as [t2|] eqn:Hs.
  { exists t2. now apply stats_holder_enabled. }
  exists (Worker w). destruct s as [l pm pw]. cbn [line at_worker] in *.
  destruct w as [i|i]; [destruct (Hr i) as [Hp _] | destruct (Hr i) as [_ Hp]];
    cbn [at_worker] in Hp;
    match goal with
    | |- enabled {| line := _; at_main := _; at_worker := ?f |} (Worker ?w) = true =>
        destruct (f w) as [| | | | | | | [] | | | [] | [] | | | | | | | |] eqn:E
    end;
    cbn in H; try discriminate; try discriminate Hp; can_step.
Qed.

(** A started worker that has not ended and does not wait for its
    semaphore is not blocked, or waits for a lock whose holder is not. *)
Lemma worker_progress s w :
  coherent s -> in_role s -> live (at_worker s w) = 1 -> at_worker s w <> SemAcquire ->
  exists t', enabled s t' = true.
Proof.
  intros Hcoh Hr Hl Hsem.
  destruct (timestep_lock (line s)) as [t1|] eqn:Ht.
  { exists t1. now apply timestep_holder_enabled. }
  destruct (stats_lock (line s)) as [t2|] eqn:Hs.
  { exists t2. now apply stats_holder_enabled. }
  destruct (mutex (line s)) as [t3|] eqn:Hm.
  { eapply mutex_holder_progress; eauto. }
  exists (Worker w). destruct s as [l pm pw]. cbn [line at_worker] in *.
  destruct w as [i|i]; [destruct (Hr i) as [Hp _] | destruct (Hr i) as [_ Hp]];
    cbn [at_worker] in Hp;
    match goal with
    | |- enabled {| line := _; at_main := _; at_worker := ?f |} (Worker ?w) = true =>
        destruct (f w) as [| [|[]] | | [|[]] | | | | [] | | | [] | [] | | | | | | | |] eqn:E
    end;
    cbn in Hl; try discriminate; try discriminate Hp; try congruence; can_step.
Qed.

(** The main thread is not blocked before [wait_completion] returns, or
    waits for the timestep lock, whose holder is not. *)
Lemma main_progress s :
  coherent s -> in_role s -> at_main s <> Completed -> exists t', enabled s t' = true.
Proof.
  intros Hcoh Hr Hm.
  destruct (timestep_lock (line s)) as [t1|] eqn:Ht.
  { exists t1. now apply timestep_holder_enabled. }
  exists Main. destruct s as [l pm pw]. cbn [line at_main] in *.
  destruct pm as [| |[]| | | | | | |]; try congruence; can_step.
Qed.

Lemma tally_positive f n :
  0 < tally f n -> exists k, (k < n)%nat /\ 0 < f k.
Proof.
  induction n as [|n IH]; cbn; [lia|]. intros H.
  destruct (Z_lt_le_dec 0 (f n)) as [Hn|Hn].
  - exists n. split; [lia | assumption].
  - destruct IH as (k & Hk & Hf); [lia|]. exists k. split; [lia | assumption].
Qed.

Lemma among_positive role g n f :
  0 < among role g n f -> exists k, Z.of_nat k < n /\ 0 < g (f (role k)).
Proof.
  unfold among. intros H. apply tally_positive in H. destruct H as (k & Hk & Hf).
  exists k. split; [lia | assumption].
Qed.

Lemma live_nonneg p : 0 <= live p.
Proof. destruct p; cbn; lia. Qed.

Lemma holding_live p : 0 < holding p -> live p = 1 /\ p <> SemAcquire.
Proof. destruct p; cbn; intros; try lia; split; congruence. Qed.

Lemma passing_live p : 0 < passing p -> live p = 1 /\ p <> SemAcquire.
Proof. destruct p; cbn; intros; try lia; split; congruence. Qed.

Lemma live_1 p : 0 < live p -> live p = 1.
Proof. destruct p; cbn; lia. Qed.

(** Some worker of a positive sum of [holding] or [passing] weights is not
    blocked, or waits for a lock whose holder is not. *)
Lemma weight_progress s role g n :
  coherent s -> in_role s ->
  (forall p, 0 < g p -> live p = 1 /\ p <> SemAcquire) ->
  0 < among role g n (at_worker s) -> exists t', enabled s t' = true.
Proof.
  intros Hcoh Hr Hg H. apply among_positive in H. destruct H as (k & _ & Hk).
  apply Hg in Hk. destruct Hk. eapply worker_progress; eauto.
Qed.

Lemma pc_eq_SemAcquire p : {p = SemAcquire} + {p <> SemAcquire}.
Proof. destruct p; first [left; reflexivity | right; discriminate]. Qed.

Lemma among_zero role g n f k :
  (forall q, 0 <= g q) -> among role g n f = 0 -> Z.of_nat k < n -> g (f (role k)) = 0.
Proof.
  intros Hg H Hk. pose proof (among_member role g n f k Hg Hk). specialize (Hg (f (role k))). lia.
Qed.

(** Every reachable state has a thread that is not blocked, unless
    [wait_completion] has returned and every worker has left its loop. *)
Lemma some_thread_can_step cap np nc tt v schedule s tr :
  execution cap np nc tt v schedule s tr ->
  (exists t, enabled s t = true) \/
  (at_main s = Completed /\
   forall w, at_worker s w = NotStarted \/ at_worker s w = Finished).
Proof.
  intros Hex.
  destruct (execution_invariant _ _ _ _ _ _ _ _ Hex) as [Hcoh Hcon].
  pose proof (execution_balanced _ _ _ _ _ _ _ _ Hex) as Hbal.
  pose proof (execution_in_role _ _ _ _ _ _ _ _ Hex) as Hr.
  pose proof (execution_ledger _ _ _ _ _ _ _ _ Hex) as [_ L1 L2].
  destruct (at_main s) eqn:Hm; try (left; apply main_progress; auto; congruence).
  pose proof (among_nonneg Producer live (num_producers (line s)) (at_worker s) live_nonneg) as HP.
  pose proof (among_nonneg Consumer live (num_consumers (line s)) (at_worker s) live_nonneg) as HC.
  destruct (Z.eq_dec (producers live s + consumers live s) 0) as [Hz|Hnz].
  - right. split; [reflexivity|].
    assert (Hdead : forall w, live (at_worker s w) = 0 ->
                    at_worker s w = NotStarted \/ at_worker s w = Finished).
    { intros w Hw. pose proof (bal_alive s Hbal w) as Ha.
      destruct (at_worker s w); cbn in *; auto; discriminate. }
    unfold producers, consumers in Hz.
    intros [i|i]; apply Hdead.
    + destruct (Z_lt_le_dec (Z.of_nat i) (num_producers (line s))) as [Hi|Hi].
      * apply (among_zero Producer live (num_producers (line s)) _ i live_nonneg); [lia | assumption].
      * now rewrite (bal_producers s Hbal i Hi).
    + destruct (Z_lt_le_dec (Z.of_nat i) (num_consumers (line s))) as [Hi|Hi].
      * apply (among_zero Consumer live (num_consumers (line s)) _ i live_nonneg); [lia | assumption].
      * now rewrite (bal_consumers s Hbal i Hi).
  - left. unfold producers, consumers in *.
    pose proof (con_capacity s tr Hcon) as Hlen.
    destruct (bal_counts s Hbal) as [He Hf].
    pose proof (among_facts Producer (num_producers (line s)) (at_worker s)) as (_ & HpH & _ & HpP).
    pose proof (among_facts Consumer (num_consumers (line s)) (at_worker s)) as (_ & HcH & _ & HcP).
    cbn [released_empty released_filled] in L1, L2.
    unfold producers, consumers in L1, L2.
    assert (Hw : exists w n, (w = Producer n /\ Z.of_nat n < num_producers (line s) \/
                              w = Consumer n /\ Z.of_nat n < num_consumers (line s)) /\
                             0 < live (at_worker s w)).
    { destruct (Z_lt_le_dec 0 (among Producer live (num_producers (line s)) (at_worker s)))
        as [Hp|Hp].
      - apply among_positive in Hp. destruct Hp as (k & Hk & Hl). exists (Producer k), k. auto.
      - assert (Hc : 0 < among Consumer live (num_consumers (line s)) (at_worker s)) by lia.
        apply among_positive in Hc. destruct Hc as (k & Hk & Hl). exists (Consumer k), k. auto. }
    destruct Hw as (w & n & Hwn & Hl). apply live_1 in Hl.
    destruct (pc_eq_SemAcquire (at_worker s w)) as [Hsem|Hsem];
      [|eapply worker_progress; eauto].
    destruct Hwn as [[-> Hn]|[-> Hn]].
    + destruct (Z_lt_le_dec 0 (empty_slots (line s))) as [Hpos|Hzero].
      * exists (Worker (Producer n)). apply Z.ltb_lt in Hpos.
        unfold enabled, step, worker_step, producer_task. rewrite Hsem, Hpos. reflexivity.
      * destruct (Z_lt_le_dec 0 (among Producer holding (num_producers (line s)) (at_worker s)))
          as [Hh|Hh].
        -- eapply weight_progress; eauto using holding_live.
        -- apply (weight_progress s Consumer passing (num_consumers (line s)));
             auto using passing_live. lia.
    + destruct (Z_lt_le_dec 0 (filled_slots (line s))) as [Hpos|Hzero].
      * exists (Worker (Consumer n)). apply Z.ltb_lt in Hpos.
        unfold enabled, step, worker_step, consumer_task. rewrite Hsem, Hpos. reflexivity.
      * destruct (Z_lt_le_dec 0 (among Consumer holding (num_consumers (line s)) (at_worker s)))
          as [Hh|Hh].
        -- eapply weight_progress; eauto using holding_live.
        -- apply (weight_progress s Producer passing (num_producers (line s)));
             auto using passing_live. lia.
Qed.

(** ** The shutdown ends *)

Lemma rank_nonneg p : 0 <= rank p.
Proof. destruct p as [| [|[]] | | [|[]] | | | | [] | | | | | | | | | | | |]; cbn; lia. Qed.

Lemma remaining_nonneg s : ledger s -> 0 <= remaining s.
Proof.
  intros [L0 _ _]. unfold remaining, loop_bound in *.
  pose proof (among_nonneg Producer rank (num_producers (line s)) (at_worker s) rank_nonneg).
  pose proof (among_nonneg Consumer rank (num_consumers (line s)) (at_worker s) rank_nonneg).
  unfold producers, consumers.
  destruct (at_main s); cbn [main_rank]; lia.
Qed.

(** With [self.running] down, every step brings the end nearer. *)
Lemma step_remaining s t s' e :
  balanced s -> ledger s -> gate s ->
  running (line s) = false -> step s t = Some (s', e) ->
  running (line s') = false /\ remaining s' + 1 <= remaining s.
Proof.
  intros Hb [L0 _ _] Hg Hrun H.
  pose proof (gate_running s Hg Hrun) as Hstop.
  pose proof (bal_producers s Hb) as Bp.
  pose proof (bal_consumers s Hb) as Bc.
  unfold remaining, loop_bound in *.
  destruct t as [|[i|i]]; cbn [step worker_step] in H.
  - destruct s as [l pm pw]. unfold main_step, get_current_timestep in H.
    fields. crack; fields.
    all: cbn [stopped] in Hstop; try discriminate Hstop.
    all: tests.
    all: split; [fields; congruence|].
    all: unfold producers, consumers; fields; cbn [main_rank]; lia.
  - assert (Hi : Z.of_nat i < num_producers (line s)).
    { destruct (Z_lt_le_dec (Z.of_nat i) (num_producers (line s))) as [|Hge]; [assumption|].
      apply Bp in Hge. unfold producer_task in H. rewrite Hge in H. discriminate. }
    destruct s as [l pm pw].
    unfold producer_task, should_continue, get_current_timestep, increment_timestep in H.
    fields. crack; fields.
    all: try congruence.
    all: split; [fields; congruence|].
    all: resum.
    all: try match goal with E : ?f (Producer _) = _ |- _ => rewrite E in * end.
    all: cbn [rank]; lia.
  - assert (Hi : Z.of_nat i < num_consumers (line s)).
    { destruct (Z_lt_le_dec (Z.of_nat i) (num_consumers (line s))) as [|Hge]; [assumption|].
      apply Bc in Hge. unfold consumer_task in H. rewrite Hge in H. discriminate. }
    destruct s as [l pm pw].
    unfold consumer_task, should_continue, get_current_timestep in H.
    fields. crack; fields.
    all: try congruence.
    all: split; [fields; congruence|].
    all: resum.
    all: try match goal with E : ?f (Consumer _) = _ |- _ => rewrite E in * end.
    all: cbn [rank]; lia.
Qed.

(** Once the run is stopped, a schedule can be followed for no more steps
    than [remaining] counts. *)
Lemma shutdown_bounded cap np nc tt v : forall more schedule s tr s' tr',
  execution cap np nc tt v schedule s tr -> running (line s) = false ->
  run s more = Some (s', tr') ->
  running (line s') = false /\ Z.of_nat (length more) + remaining s' <= remaining s.
Proof.
  induction more as [|t more IH]; intros schedule s tr s' tr' Hex Hrun H.
  - inversion H; subst. cbn [length]. split; [assumption | lia].
  - cbn [run] in H. destruct (step s t) as [[s1 e]|] eqn:Hs; [|discriminate].
    destruct (run s1 more) as [[s2 tr2]|] eqn:Hr; [|discriminate]. inversion H; subst.
    pose proof (execution_step _ _ _ _ _ _ _ _ _ _ _ Hex Hs) as Hex1.
    destruct (step_remaining s t s1 e) as [Hrun1 Hdec];
      eauto using execution_balanced, execution_ledger, execution_gate.
    destruct (IH _ _ _ _ _ Hex1 Hrun1 Hr) as [Hrun2 Hle].
    split; [assumption|]. cbn [length]. lia.
Qed.

(** From every stopped state the threads can run on until
    [wait_completion] has returned and every worker has left its loop. *)
Lemma shutdown_completes cap np nc tt v : forall n schedule s tr,
  execution cap np nc tt v schedule s tr -> running (line s) = false ->
  remaining s <= Z.of_nat n ->
  exists more s' tr',
    run s more = Some (s', tr') /\ at_main s' = Completed /\
    forall w, at_worker s' w = NotStarted \/ at_worker s' w = Finished.
Proof.
  induction n as [|n IH]; intros schedule s tr Hex Hrun Hle.
  all: destruct (some_thread_can_step _ _ _ _ _ _ _ _ Hex) as [(t & Ht) | [Hm Hend]];
    [ | exists [], s, []; auto ].
  all: unfold enabled in Ht; destruct (step s t) as [[s1 e]|] eqn:Hs; [|discriminate].
  all: pose proof (execution_step _ _ _ _ _ _ _ _ _ _ _ Hex Hs) as Hex1.
  all: destruct (step_remaining s t s1 e) as [Hrun1 Hdec];
    eauto using execution_balanced, execution_ledger, execution_gate.
  all: pose proof (remaining_nonneg s1 (execution_ledger _ _ _ _ _ _ _ _ Hex1)) as Hpos.
  - lia.
  - destruct (IH _ _ _ Hex1 Hrun1 ltac:(lia)) as (more & s' & tr' & Hr & Hc & Hw).
    exists (t :: more), s', (e ++ tr'). cbn [run]. rewrite Hs, Hr. auto.
Qed.

(** ** Threads started, snapshots recorded *)

Lemma step_launched s t s' e :
  ledger s -> launched s -> step s t = Some (s', e) -> launched s'.
Proof.
  intros [L0 _ _] Hl H.
  destruct s as [l pm pw]. destruct t as [|[i|i]]; open_step H.
  all: unfold launched, loop_bound in *; fields.
  all: tests.
  all: let w := fresh "w" in intros w; pose proof (Hl w) as Hw; fields.
  all: try match goal with
       | |- context [upd ?f ?x ?p ?w] =>
           destruct (worker_eq_dec w x) as [->|Hne];
           [ rewrite upd_same | rewrite upd_other by assumption ]
       end.
  all: try match goal with
       | E : ?f ?x = _, Hw : ?f ?x = NotStarted <-> _ |- _ => rewrite E in Hw
       end.
  all: try solve [ split; intros Hx; [discriminate Hx | apply Hw in Hx; discriminate Hx] ].
  all: try assumption.
  all: try match goal with
       | w : worker |- _ => destruct w as [j|j]
       end; cbn [started] in *.
  all: repeat match goal with
       | H : context [(?a <? ?b)%nat] |- _ => destruct (Nat.ltb_spec a b)
       | |- context [(?a <? ?b)%nat] => destruct (Nat.ltb_spec a b)
       | H : context [?a <? ?b] |- _ => destruct (Z.ltb_spec a b)
       | |- context [?a <? ?b] => destruct (Z.ltb_spec a b)
       end.
  all: try solve [ split; intros Hx; first [discriminate Hx | reflexivity | tauto | lia ] ].
  all: try solve [ exfalso; first [lia | congruence] ].
  all: try tauto.
  all: exfalso; apply Hne; f_equal; lia.
Qed.

Lemma execution_launched cap np nc tt v schedule s tr :
  execution cap np nc tt v schedule s tr -> launched s.
Proof.
  revert schedule s tr. apply (execution_ind (fun s _ => launched s)).
  - intros l0 _ [j|j]; cbn; split; auto.
  - intros schedule s tr t s' e Hex Hl Hstep.
    eapply step_launched; eauto using execution_ledger.
Qed.

Lemma step_recorded s t s' e :
  coherent s -> recorded s -> step s t = Some (s', e) -> recorded s'.
Proof.
  intros Hcoh [R1 R2] H.
  assert (Hframe : buffer (line s') = buffer (line s) -> stats (line s') = stats (line s) ->
                   critical s' = critical s \/ critical s = None /\ critical s' = Some TestLen ->
                   recorded s').
  { intros Hb Hs Hc. split.
    - unfold len. rewrite Hb. destruct Hc as [-> | [_ ->]]; [exact R1 | cbn; discriminate].
    - now rewrite Hs. }
  destruct t as [|w]; cbn [step] in H.
  { destruct (main_step_outside _ _ _ Hcoh H) as (_ & ? & ? & _ & _ & _ & _ & ?). auto. }
  destruct (in_mutex (at_worker s w)) eqn:Hin.
  2:{ destruct (worker_step_outside _ _ _ _ Hcoh H Hin) as (_ & ? & ? & _ & _ & _ & _ & ?). auto. }
  pose proof (critical_inside s w Hcoh Hin) as Hmx.
  assert (Hcr : critical s = Some (at_worker s w)) by (unfold critical; now rewrite Hmx).
  rewrite Hcr in *. clear Hcoh Hcr Hframe.
  destruct s as [l pm pw]. destruct l as [cap np nc tt buf mx es fs ts rn tl st sl si].
  destruct st as [tp tc pwt cwt snaps].
  unfold worker_step, producer_task, consumer_task, should_continue,
    get_current_timestep, increment_timestep in H.
  fields. subst mx. crack.
  all: try discriminate Hin.
  all: inflight; sizes.
  all: split; sizes; inflight; sizes.
  all: try assumption.
  all: try (intros; lia).
  all: try discriminate.
  all: apply Forall_app; split; [assumption|]; constructor; [|constructor].
  all: specialize (R1 eq_refl); lia.
Qed.

Lemma execution_recorded cap np nc tt v schedule s tr :
  execution cap np nc tt v schedule s tr -> recorded s.
Proof.
  revert schedule s tr. apply (execution_ind (fun s _ => recorded s)).
  - intros l0 Hinit. apply init_fresh in Hinit. destruct Hinit as [-> _].
    split; cbn; [discriminate | constructor].
  - intros schedule s tr t s' e Hex Hr Hstep.
    destruct (execution_invariant _ _ _ _ _ _ _ _ Hex) as [Hcoh _].
    eapply step_recorded; eauto.
Qed.

(** ** The critical sections and the semaphores (X1, X2) *)

(** X1.  In every run started by [start()] the length tests of the
    critical sections always succeed: a producer that has taken the
    buffer mutex finds room ([len(buffer) < buffer_capacity]) and a
    consumer finds a piece ([len(buffer) > 0]), so [pop(0)] never raises,
    no worker takes a defensive branch, and [producer_waits] and
    [consumer_waits] stay at 0. *)
Theorem length_tests_always_pass cap np nc tt v schedule s tr :
  execution cap np nc tt v schedule s tr ->
  (forall i, at_worker s (Producer i) = TestLen ->
     len (line s) < buffer_capacity (line s)) /\
  (forall i, at_worker s (Consumer i) = TestLen \/ at_worker s (Consumer i) = Pop ->
     0 < len (line s)) /\
  (forall w, at_worker s w <> Crashed /\ defensive (at_worker s w) = false) /\
  producer_waits (stats (line s)) = 0 /\
  consumer_waits (stats (line s)) = 0.
Proof.
  intros Hex.
  pose proof (execution_balanced _ _ _ _ _ _ _ _ Hex) as Hb.
  destruct (defensive_branches_unreached _ _ _ _ _ _ _ _ Hex) as (Hd & Hp & Hc).
  pose proof (among_facts Producer (num_producers (line s)) (at_worker s)) as (_ & _ & HpC & _).
  pose proof (among_facts Consumer (num_consumers (line s)) (at_worker s)) as (_ & _ & HcC & HcP).
  pose proof (bal_room s Hb) as Hroom. pose proof (bal_stock s Hb) as Hstock.
  unfold producers, consumers in *.
  assert (Hin : forall i, at_worker s (Producer i) <> NotStarted ->
                          Z.of_nat i < num_producers (line s)).
  { intros i Hi. destruct (Z_lt_le_dec (Z.of_nat i) (num_producers (line s))); [assumption|].
    now rewrite (bal_producers s Hb i) in Hi. }
  assert (Hic : forall i, at_worker s (Consumer i) <> NotStarted ->
                          Z.of_nat i < num_consumers (line s)).
  { intros i Hi. destruct (Z_lt_le_dec (Z.of_nat i) (num_consumers (line s))); [assumption|].
    now rewrite (bal_consumers s Hb i) in Hi. }
  repeat split; auto.
  - intros i Hi.
    pose proof (among_member Producer committed _ (at_worker s) i committed_nonneg
                  (Hin i ltac:(congruence))) as Hm.
    rewrite Hi in Hm. cbn in Hm. lia.
  - intros i Hi.
    pose proof (among_member Consumer committed _ (at_worker s) i committed_nonneg
                  (Hic i ltac:(destruct Hi; congruence))) as Hm.
    destruct Hi as [Hi|Hi]; rewrite Hi in Hm; cbn in Hm; lia.
  - intros Hw. specialize (Hd w). rewrite Hw in Hd. discriminate.
Qed.

Lemma length_tests_always_pass_witness :
  exists s tr,
    outcome 10 2 3 100 false toy = Some (s, tr) /\
    producer_waits (stats (line s)) = 0 /\ consumer_waits (stats (line s)) = 0.
Proof.
  edestruct (length_tests_always_pass 10 2 3 100 false toy) as (_ & _ & _ & H1 & H2);
    [apply outcome_execution; vm_compute; reflexivity|].
  eexists. eexists. split; [vm_compute; reflexivity|]. split; [exact H1 | exact H2].
Defined.

(** X2.  The two semaphores account for every slot of the buffer at all
    times.  [empty_slots], the producers between their acquire and their
    append, the consumers between their pop and their release, and the
    pieces in the buffer add up to [buffer_capacity] plus what
    [wait_completion] has released so far; [filled_slots], the producers
    between their append and their release, and the consumers between
    their acquire and their pop add up to [len(buffer)] plus what
    [wait_completion] has released.  So while the run is on,
    [empty_slots] never exceeds the free room, [filled_slots] never
    exceeds the pieces present, and at no time does a semaphore go
    negative or exceed the capacity by more than the number of workers
    of its side. *)
Theorem semaphores_account_for_slots cap np nc tt v schedule s tr :
  execution cap np nc tt v schedule s tr ->
  empty_slots (line s) + producers holding s + consumers passing s + len (line s)
    = cap + released_empty (at_main s) np /\
  filled_slots (line s) + producers passing s + consumers holding s
    = len (line s) + released_filled (at_main s) nc /\
  (running (line s) = true ->
     0 <= empty_slots (line s) <= cap - len (line s) /\
     0 <= filled_slots (line s) <= len (line s)) /\
  0 <= empty_slots (line s) <= cap + Z.max 0 np /\
  0 <= filled_slots (line s) <= cap + Z.max 0 nc.
Proof.
  intros Hex.
  pose proof (execution_balanced _ _ _ _ _ _ _ _ Hex) as Hb.
  pose proof (execution_ledger _ _ _ _ _ _ _ _ Hex) as [L0 L1 L2].
  pose proof (execution_config _ _ _ _ _ _ _ _ Hex) as (Hc & Hnp & Hnc & _ & Hcap).
  destruct (execution_invariant _ _ _ _ _ _ _ _ Hex) as [_ Hcon].
  pose proof (con_capacity s tr Hcon) as Hlen.
  pose proof (among_facts Producer (num_producers (line s)) (at_worker s)) as (_ & HpH & _ & HpP).
  pose proof (among_facts Consumer (num_consumers (line s)) (at_worker s)) as (_ & HcH & _ & HcP).
  destruct (bal_counts s Hb) as [He Hf].
  rewrite Hc, Hnp in L1. rewrite Hnc in L2. rewrite Hc in Hlen.
  unfold producers, consumers, loop_bound in *.
  split; [assumption|]. split; [assumption|]. split.
  - intros Hr. pose proof (bal_slots s Hb Hr) as B1. pose proof (bal_items s Hb Hr) as B2.
    unfold producers, consumers in *. lia.
  - rewrite Hnp, Hnc in L0.
    destruct (at_main s); cbn [released_empty released_filled] in *; lia.
Qed.

Lemma semaphores_account_for_slots_witness :
  exists s tr,
    outcome 10 2 3 100 false toy = Some (s, tr) /\
    empty_slots (line s) + producers holding s + consumers passing s + len (line s) = 10 + 0.
Proof.
  eexists. eexists. split; [vm_compute; reflexivity|].
  refine (proj1 (semaphores_account_for_slots 10 2 3 100 false toy _ _ _)).
  apply outcome_execution. vm_compute. reflexivity.
Defined.

(** ** The counter and the end of the run (X3, X4, X5) *)

(** Without consumers nothing is ever taken from the buffer. *)
Lemma no_consumer_no_take cap np nc tt v schedule s tr :
  execution cap np nc tt v schedule s tr -> nc <= 0 -> takes tr = [].
Proof.
  intros Hex Hnc. revert schedule s tr Hex.
  apply (execution_ind (fun _ tr => takes tr = [])); [reflexivity|].
  intros schedule s tr t s' e Hex IH Hstep.
  rewrite takes_app, IH. cbn [app].
  destruct (step_buffer _ _ _ _ Hstep)
    as [[-> _] | [(i & x & _ & _ & -> & _) | (w & p & _ & Hw & _ & _)]]; try reflexivity.
  exfalso.
  pose proof (execution_balanced _ _ _ _ _ _ _ _ Hex) as Hb.
  pose proof (execution_config _ _ _ _ _ _ _ _ Hex) as (_ & _ & Hc & _).
  destruct w as [i|i].
  - destruct (execution_in_role _ _ _ _ _ _ _ _ Hex i) as [Hp _].
    rewrite Hw in Hp. discriminate.
  - rewrite (bal_consumers s Hb i) in Hw by lia. discriminate.
Qed.

(** The counter never runs ahead of the pieces taken by more than the
    capacity. *)
Lemma clock_within_capacity s tr :
  consistent s tr ->
  current_timestep (line s) <= count (takes tr) + buffer_capacity (line s).
Proof.
  intros [F1 _ F3 F4 _ _ _ F8 _ _].
  rewrite F3. unfold count, len in *. rewrite F1, length_app.
  destruct (critical s) as [[| | | | | | |[]| | | | | | | | | | | |]|];
    cbn in *; unfold len in *; lia.
Qed.

(** X3.  [wait_completion] leaves its polling loop only after it has read
    a counter that reached [total_timesteps]: [self.running] is [False]
    exactly when the main thread is past [self.running = False], and from
    then on, in particular once [wait_completion] has returned,
    [current_timestep >= total_timesteps].  A value the main thread has
    read from the counter is never above the counter. *)
Theorem shutdown_waits_for_total cap np nc tt v schedule s tr :
  execution cap np nc tt v schedule s tr ->
  (running (line s) = false <-> stopped (at_main s) = true) /\
  (past_polling (at_main s) = true -> tt <= current_timestep (line s)) /\
  (at_main s = Completed -> tt <= current_timestep (line s)) /\
  (forall r, at_main s = Poll (Get_unlock r) -> r <= current_timestep (line s)).
Proof.
  intros Hex.
  pose proof (execution_gate _ _ _ _ _ _ _ _ Hex) as [G1 G2 G3].
  pose proof (execution_balanced _ _ _ _ _ _ _ _ Hex) as Hb.
  pose proof (execution_config _ _ _ _ _ _ _ _ Hex) as (_ & _ & _ & Ht & _).
  rewrite Ht in G2.
  split; [split; [assumption | apply (bal_stopped s Hb)]|].
  split; [assumption|]. split; [|assumption].
  intros Hm. apply G2. rewrite Hm. reflexivity.
Qed.

Lemma shutdown_waits_for_total_witness :
  exists s tr,
    outcome 1 1 1 1 false timed_out_join = Some (s, tr) /\
    at_main s = Completed /\ 1 <= current_timestep (line s).
Proof.
  edestruct (shutdown_waits_for_total 1 1 1 1 false timed_out_join) as (_ & _ & H & _);
    [apply outcome_execution; vm_compute; reflexivity|].
  eexists. eexists. split; [vm_compute; reflexivity|].
  split; [reflexivity | exact (H eq_refl)].
Defined.

(** X4.  The counter can pass [total_timesteps], but not by much: a
    producer increments it only after seeing it below the total in
    [should_continue], while holding a slot of [empty_slots].  With
    [total_timesteps > 0] the counter never exceeds
    [total_timesteps - 1 + min(num_producers, buffer_capacity)]; with
    [total_timesteps <= 0] it stays at 0.  [total_produced] never exceeds
    the counter.  The bound is reached: with capacity 2, two producers and
    one timestep the counter ends at 2. *)
Theorem timestep_overshoot_bounded cap np nc tt v schedule s tr :
  execution cap np nc tt v schedule s tr ->
  0 <= current_timestep (line s) /\
  (0 < tt -> current_timestep (line s) <= tt - 1 + Z.min (Z.max 0 np) cap) /\
  (tt <= 0 -> current_timestep (line s) = 0) /\
  total_produced (stats (line s)) <= current_timestep (line s).
Proof.
  intros Hex.
  pose proof (execution_bounded_clock _ _ _ _ _ _ _ _ Hex) as Hbc.
  pose proof (execution_balanced _ _ _ _ _ _ _ _ Hex) as Hb.
  pose proof (execution_config _ _ _ _ _ _ _ _ Hex) as (Hc & Hnp & _ & Ht & _).
  destruct (armed_few s tt Hb) as [[Ha _] _].
  destruct (clock_monotone _ _ _ _ _ _ _ _ Hex) as (Hpos & _).
  destruct (execution_invariant _ _ _ _ _ _ _ _ Hex) as [_ Hcon].
  unfold bounded_clock, peak in Hbc. rewrite Hc, Hnp, Ht in Hbc.
  split; [assumption|]. split; [|split].
  - intros Htt. apply Z.ltb_lt in Htt. rewrite Htt in Hbc. lia.
  - intros Htt. apply Z.ltb_ge in Htt. rewrite Htt in Hbc. lia.
  - pose proof (con_produced s tr Hcon) as F5. pose proof (con_clock s tr Hcon) as F3.
    destruct (critical s) as [[| | | | | | |[]| | |[]|[]| | | | | | | |]|]; cbn in *; lia.
Qed.

Lemma timestep_overshoot_bounded_witness :
  exists s tr,
    outcome 2 2 0 1 false overshoot = Some (s, tr) /\
    current_timestep (line s) = 2 /\
    (0 < 1 -> current_timestep (line s) <= 1 - 1 + Z.min (Z.max 0 2) 2).
Proof.
  edestruct (timestep_overshoot_bounded 2 2 0 1 false overshoot) as (_ & H & _);
    [apply outcome_execution; vm_compute; reflexivity|].
  eexists. eexists. split; [vm_compute; reflexivity|].
  split; [reflexivity | exact H].
Defined.

(** X5.  Configurations that [validate=False] lets through and that can
    never finish.  With [total_timesteps > 0], if there is no producer, or
    the capacity is 0, or there is no consumer and the capacity is below
    [total_timesteps], the counter stays below [total_timesteps] in every
    run; so the main thread never leaves the polling loop of
    [wait_completion], [self.running] stays [True], and
    [wait_completion] never returns. *)
Theorem degenerate_configurations_never_stop cap np nc tt v schedule s tr :
  execution cap np nc tt v schedule s tr ->
  0 < tt ->
  np <= 0 \/ cap <= 0 \/ (nc <= 0 /\ cap < tt) ->
  current_timestep (line s) < tt /\
  past_polling (at_main s) = false /\
  at_main s <> Completed /\
  running (line s) = true.
Proof.
  intros Hex Htt Hdeg.
  assert (Hlt : current_timestep (line s) < tt).
  { destruct Hdeg as [Hnp|[Hcap|[Hnc Hcap]]].
    - pose proof (execution_bounded_clock _ _ _ _ _ _ _ _ Hex) as Hbc.
      pose proof (execution_balanced _ _ _ _ _ _ _ _ Hex) as Hb.
      pose proof (execution_config _ _ _ _ _ _ _ _ Hex) as (Hc & Hn & _ & Ht & Hc0).
      destruct (armed_few s tt Hb) as [[Ha _] _].
      unfold bounded_clock, peak in Hbc. rewrite Hc, Hn, Ht in Hbc.
      apply Z.ltb_lt in Htt. rewrite Htt in Hbc. lia.
    - pose proof (execution_bounded_clock _ _ _ _ _ _ _ _ Hex) as Hbc.
      pose proof (execution_balanced _ _ _ _ _ _ _ _ Hex) as Hb.
      pose proof (execution_config _ _ _ _ _ _ _ _ Hex) as (Hc & Hn & _ & Ht & Hc0).
      destruct (armed_few s tt Hb) as [[Ha _] _].
      unfold bounded_clock, peak in Hbc. rewrite Hc, Hn, Ht in Hbc.
      apply Z.ltb_lt in Htt. rewrite Htt in Hbc. lia.
    - destruct (execution_invariant _ _ _ _ _ _ _ _ Hex) as [_ Hcon].
      pose proof (clock_within_capacity s tr Hcon) as Hle.
      rewrite (no_consumer_no_take _ _ _ _ _ _ _ _ Hex Hnc) in Hle.
      pose proof (execution_config _ _ _ _ _ _ _ _ Hex) as (Hc & _).
      rewrite Hc in Hle. cbn in Hle. lia. }
  pose proof (execution_gate _ _ _ _ _ _ _ _ Hex) as [G1 G2 G3].
  pose proof (execution_config _ _ _ _ _ _ _ _ Hex) as (_ & _ & _ & Ht & _).
  rewrite Ht in G2.
  assert (Hp : past_polling (at_main s) = false).
  { destruct (past_polling (at_main s)); [specialize (G2 eq_refl); lia | reflexivity]. }
  split; [assumption|]. split; [assumption|]. split.
  - intros Hm. rewrite Hm in Hp. discriminate.
  - destruct (running (line s)) eqn:Hr; [reflexivity|].
    specialize (G3 eq_refl). destruct (at_main s); cbn in *; congruence.
Qed.

Lemma degenerate_configurations_never_stop_witness :
  exists s tr,
    outcome 2 1 0 3 false (starting 1 0 ++ approaching (Producer 0) ++ only (Producer 0) 15)
      = Some (s, tr) /\
    current_timestep (line s) = 1 /\ running (line s) = true.
Proof.
  edestruct (degenerate_configurations_never_stop 2 1 0 3 false
               (starting 1 0 ++ approaching (Producer 0) ++ only (Producer 0) 15))
    as (_ & _ & _ & H);
    [apply outcome_execution; vm_compute; reflexivity | lia | right; right; lia |].
  eexists. eexists. split; [vm_compute; reflexivity|].
  split; [reflexivity | exact H].
Defined.

(** ** The shutdown ends every worker (X7) *)

Lemma tally_at_most f b n : (forall i, f i <= b) -> tally f n <= b * Z.of_nat n.
Proof.
  intros H. induction n as [|n IH]; [cbn; lia|].
  cbn [tally]. specialize (H n). lia.
Qed.

Lemma rank_at_most p : rank p <= 25.
Proof. destruct p as [| [|[]] | | [|[]] | | | | [] | | | | | | | | | | | |]; cbn; lia. Qed.

(** The measure of a stopped state is linear in the number of workers. *)
Lemma remaining_at_most s :
  ledger s ->
  remaining s <= 27 * (Z.max 0 (num_producers (line s)) + Z.max 0 (num_consumers (line s))) + 4.
Proof.
  intros [L0 _ _]. unfold remaining, producers, consumers, among, loop_bound in *.
  pose proof (tally_at_most (fun i => rank (at_worker s (Producer i))) 25
                (Z.to_nat (num_producers (line s))) ltac:(intros; apply rank_at_most)).
  pose proof (tally_at_most (fun i => rank (at_worker s (Consumer i))) 25
                (Z.to_nat (num_consumers (line s))) ltac:(intros; apply rank_at_most)).
  destruct (at_main s); cbn [main_rank]; lia.
Qed.

(** X7.  The shutdown of [wait_completion] ends every worker.  Once
    [self.running = False] has run, the threads can take no more than
    [27 * (num_producers + num_consumers) + 4] further steps in all,
    whatever the schedule: a worker that wakes up from its semaphore sees
    the flag down, gives the slot back and leaves its loop, and the
    [num_producers] and [num_consumers] releases are enough for no worker
    to stay blocked.  A run that cannot go on has [wait_completion]
    returned and every started worker out of its loop, and such an end can
    be reached from every stopped state. *)
Theorem shutdown_ends_every_worker cap np nc tt v schedule s tr :
  execution cap np nc tt v schedule s tr ->
  running (line s) = false ->
  (forall more s' tr', run s more = Some (s', tr') ->
     running (line s') = false /\
     Z.of_nat (length more) <= 27 * (Z.max 0 np + Z.max 0 nc) + 4 /\
     ((forall t, step s' t = None) ->
      at_main s' = Completed /\
      forall w, at_worker s' w = NotStarted \/ at_worker s' w = Finished)) /\
  (exists more s' tr',
     run s more = Some (s', tr') /\ at_main s' = Completed /\
     forall w, at_worker s' w = NotStarted \/ at_worker s' w = Finished).
Proof.
  intros Hex Hrun.
  pose proof (execution_ledger _ _ _ _ _ _ _ _ Hex) as Hl.
  pose proof (remaining_at_most s Hl) as Hmax.
  pose proof (remaining_nonneg s Hl) as Hmin.
  pose proof (execution_config _ _ _ _ _ _ _ _ Hex) as (_ & Hnp & Hnc & _).
  rewrite Hnp, Hnc in Hmax.
  split.
  - intros more s' tr' Hmore.
    destruct (shutdown_bounded _ _ _ _ _ _ _ _ _ _ _ Hex Hrun Hmore) as [Hrun' Hle].
    pose proof (execution_app _ _ _ _ _ _ _ _ _ _ _ Hex Hmore) as Hex'.
    pose proof (remaining_nonneg s' (execution_ledger _ _ _ _ _ _ _ _ Hex')) as Hmin'.
    split; [assumption|]. split; [lia|].
    intros Hstuck.
    destruct (some_thread_can_step _ _ _ _ _ _ _ _ Hex') as [(t & Ht)|H]; [|exact H].
    unfold enabled in Ht. rewrite Hstuck in Ht. discriminate.
  - apply (shutdown_completes cap np nc tt v (Z.to_nat (remaining s)) schedule s tr Hex Hrun).
    lia.
Qed.

Lemma shutdown_ends_every_worker_witness :
  exists s tr,
    outcome 1 1 1 1 false
      (starting 1 1 ++ approaching (Producer 0) ++ only (Producer 0) 15 ++ repeat Main 4)
      = Some (s, tr) /\
    at_main s = ReleaseEmpty 0 /\
    exists more s' tr',
      run s more = Some (s', tr') /\ at_main s' = Completed /\
      forall w, at_worker s' w = NotStarted \/ at_worker s' w = Finished.
Proof.
  edestruct (shutdown_ends_every_worker 1 1 1 1 false
               (starting 1 1 ++ approaching (Producer 0) ++ only (Producer 0) 15
                ++ repeat Main 4)) as (_ & H);
    [apply outcome_execution; vm_compute; reflexivity | reflexivity |].
  eexists. eexists. split; [vm_compute; reflexivity|].
  split; [reflexivity | exact H].
Defined.

(** ** Start, snapshots, construction, statistics (X8 to X11) *)

(** X8.  [start()] starts exactly the configured threads, in order: the
    producers [0 .. num_producers - 1], then the consumers
    [0 .. num_consumers - 1].  At every moment the workers that have left
    [NotStarted] are those the two loops have reached; once [start()] has
    returned they are exactly the producers with an id below
    [num_producers] and the consumers with an id below [num_consumers],
    and no other thread ever runs. *)
Theorem start_launches_configured_threads cap np nc tt v schedule s tr :
  execution cap np nc tt v schedule s tr ->
  (forall w, at_worker s w <> NotStarted <-> started (at_main s) np nc w = true) /\
  (after_start (at_main s) = true ->
   forall i, (at_worker s (Producer i) <> NotStarted <-> Z.of_nat i < np) /\
             (at_worker s (Consumer i) <> NotStarted <-> Z.of_nat i < nc)) /\
  (forall i, np <= Z.of_nat i -> at_worker s (Producer i) = NotStarted) /\
  (forall i, nc <= Z.of_nat i -> at_worker s (Consumer i) = NotStarted).
Proof.
  intros Hex.
  pose proof (execution_launched _ _ _ _ _ _ _ _ Hex) as Hl.
  pose proof (execution_balanced _ _ _ _ _ _ _ _ Hex) as Hb.
  pose proof (execution_config _ _ _ _ _ _ _ _ Hex) as (_ & Hnp & Hnc & _).
  unfold launched in Hl. rewrite Hnp, Hnc in Hl.
  assert (H1 : forall w, at_worker s w <> NotStarted <-> started (at_main s) np nc w = true).
  { intros w. specialize (Hl w). destruct (started (at_main s) np nc w).
    - split; [reflexivity|]. intros _ Hw. apply Hl in Hw. discriminate.
    - split; [|discriminate]. intros Hw. exfalso. apply Hw. now apply Hl. }
  split; [exact H1|]. split; [|split].
  - intros Ha i. rewrite (H1 (Producer i)), (H1 (Consumer i)).
    destruct (at_main s); try discriminate Ha; cbn [started]; rewrite !Z.ltb_lt; tauto.
  - intros i Hi. apply (bal_producers s Hb). lia.
  - intros i Hi. apply (bal_consumers s Hb). lia.
Qed.

Lemma start_launches_configured_threads_witness :
  exists s tr,
    outcome 10 2 3 100 false (starting 2 3) = Some (s, tr) /\
    (at_worker s (Producer 1) <> NotStarted <-> 1 < 2) /\
    (at_worker s (Consumer 3) <> NotStarted <-> 3 < 3).
Proof.
  edestruct (start_launches_configured_threads 10 2 3 100 false (starting 2 3)) as (_ & H & _);
    [apply outcome_execution; vm_compute; reflexivity|].
  eexists. eexists. split; [vm_compute; reflexivity|].
  split; [exact (proj1 (H eq_refl 1%nat)) | exact (proj2 (H eq_refl 3%nat))].
Defined.

(** X9.  The snapshots the code records.  The interval is
    [max(1, total_timesteps // 100)], never 0, so the test
    [timestep % snapshot_interval] cannot raise.  One snapshot is recorded
    for each produced piece whose timestep is a multiple of the interval:
    whenever the buffer mutex is free their number is
    [total_produced // snapshot_interval].  A snapshot is taken right after
    the append, under the mutex, so every recorded value is between 1 and
    the capacity.  With [total_timesteps > 0] their number never exceeds
    [(total_timesteps - 1 + min(num_producers, buffer_capacity)) //
    snapshot_interval]. *)
Theorem snapshots_follow_production cap np nc tt v schedule s tr :
  execution cap np nc tt v schedule s tr ->
  snapshot_interval (line s) = Z.max 1 (tt / 100) /\
  (mutex (line s) = None ->
   count_snapshots s = total_produced (stats (line s)) / snapshot_interval (line s)) /\
  Forall (fun n => 1 <= n <= cap) (buffer_snapshots (stats (line s))) /\
  (0 < tt ->
   count_snapshots s <= (tt - 1 + Z.min (Z.max 0 np) cap) / Z.max 1 (tt / 100)).
Proof.
  intros Hex.
  destruct (snapshot_cadence _ _ _ _ _ _ _ _ Hex) as (Hi & Hn & _ & Hr).
  destruct (execution_invariant _ _ _ _ _ _ _ _ Hex) as [_ Hcon].
  pose proof (execution_recorded _ _ _ _ _ _ _ _ Hex) as [_ Hpos].
  pose proof (execution_config _ _ _ _ _ _ _ _ Hex) as (Hc & Hnp & _ & Ht & _).
  pose proof (con_produced s tr Hcon) as F5. pose proof (con_clock s tr Hcon) as F3.
  split; [assumption|]. split; [|split].
  - intros Hm. unfold critical in *. rewrite Hm in *. cbn in *.
    rewrite Hn. f_equal. lia.
  - rewrite Hc in Hr. rewrite Forall_forall in *. intros n Hin.
    specialize (Hr n Hin). specialize (Hpos n Hin). lia.
  - intros Htt.
    pose proof (execution_bounded_clock _ _ _ _ _ _ _ _ Hex) as Hbc.
    pose proof (execution_balanced _ _ _ _ _ _ _ _ Hex) as Hb.
    destruct (armed_few s tt Hb) as [[Ha _] _].
    unfold bounded_clock, peak in Hbc. rewrite Hc, Hnp, Ht in Hbc.
    apply Z.ltb_lt in Htt. rewrite Htt in Hbc.
    rewrite Hn, Hi. apply Z.div_le_mono; [lia|].
    assert (0 <= ticking (critical s) /\ 0 <= unlogged (critical s)).
    { destruct (critical s) as [[| | | | | | |[]| | |[]|[]| | | | | | | |]|]; cbn; lia. }
    lia.
Qed.

Lemma snapshots_follow_production_witness :
  exists s tr,
    outcome 3 3 0 1 false overshoot_by_two = Some (s, tr) /\
    buffer_snapshots (stats (line s)) = [1; 2; 3] /\
    (0 < 1 -> count_snapshots s <= (1 - 1 + Z.min (Z.max 0 3) 3) / Z.max 1 (1 / 100)).
Proof.
  edestruct (snapshots_follow_production 3 3 0 1 false overshoot_by_two) as (_ & _ & _ & H);
    [apply outcome_execution; vm_compute; reflexivity|].
  eexists. eexists. split; [vm_compute; reflexivity|].
  split; [reflexivity | exact H].
Defined.

(** X10.  What the constructor accepts.  With [validate=True] it
    succeeds exactly when the four minimums are met (the consumer minimum
    being [int(num_producers * 1.1)]); validation only rejects: the object
    built is the one [validate=False] builds from the same arguments, and
    its snapshot interval is [total_timesteps // 100], at least 10000.
    With [validate=False] every configuration with a capacity of 0 or more
    is accepted, and a negative capacity is refused by
    [threading.Semaphore]. *)
Theorem construction_accepts cap np nc tt :
  ((exists l, __init__ cap np nc tt true = inr l) <->
   1000 <= cap /\ 200 <= np /\ (exists m, min_consumers np = Some m /\ m <= nc) /\
   1000000 <= tt) /\
  (forall l, __init__ cap np nc tt true = inr l ->
     __init__ cap np nc tt false = inr l /\
     snapshot_interval l = tt / 100 /\ 10000 <= snapshot_interval l) /\
  ((exists l, __init__ cap np nc tt false = inr l) <-> 0 <= cap) /\
  (cap < 0 -> __init__ cap np nc tt false = inl (ValueError SemaphoreInitialValue)).
Proof.
  assert (Hv : forall l, __init__ cap np nc tt true = inr l ->
                 validation cap np nc tt = None /\ __init__ cap np nc tt false = inr l).
  { unfold __init__. intros l H.
    destruct (validation cap np nc tt); [discriminate | auto]. }
  split; [split|split; [|split]].
  - intros [l H]. apply Hv in H. destruct H as [H _]. now apply validation_pass.
  - intros H. pose proof H as (Hc & _). apply validation_pass in H.
    unfold __init__. rewrite H. rewrite (proj2 (Z.ltb_ge cap 0)) by lia. eauto.
  - intros l H. destruct (Hv l H) as [Hval Hun]. split; [assumption|].
    apply validation_pass in Hval. destruct Hval as (_ & _ & _ & Htt).
    apply init_fresh in H. destruct H as [-> _]. cbn [snapshot_interval].
    assert (10000 <= tt / 100) by (apply Z.div_le_lower_bound; lia).
    lia.
  - unfold __init__. destruct (Z.ltb_spec cap 0); split; intros H'; try lia; eauto.
    destruct H' as [l H']. discriminate.
  - intros Hc. unfold __init__. now rewrite (proj2 (Z.ltb_lt cap 0) Hc).
Qed.

(** X11.  Along every run, from any state, the statistics only grow:
    the four counters and the timestep counter never decrease, the list of
    snapshots is only appended to, and the configuration never changes. *)
Theorem statistics_only_grow s more s' tr' :
  run s more = Some (s', tr') ->
  total_produced (stats (line s)) <= total_produced (stats (line s')) /\
  total_consumed (stats (line s)) <= total_consumed (stats (line s')) /\
  producer_waits (stats (line s)) <= producer_waits (stats (line s')) /\
  consumer_waits (stats (line s)) <= consumer_waits (stats (line s')) /\
  current_timestep (line s) <= current_timestep (line s') /\
  (exists added,
     buffer_snapshots (stats (line s')) = buffer_snapshots (stats (line s)) ++ added) /\
  buffer_capacity (line s') = buffer_capacity (line s) /\
  num_producers (line s') = num_producers (line s) /\
  num_consumers (line s') = num_consumers (line s) /\
  total_timesteps (line s') = total_timesteps (line s) /\
  snapshot_interval (line s') = snapshot_interval (line s).
Proof.
  revert s s' tr'. induction more as [|t more IH]; intros s s' tr' H.
  - inversion H; subst. repeat split; try lia. exists []. now rewrite app_nil_r.
  - cbn [run] in H. destruct (step s t) as [[s1 e]|] eqn:Hs; [|discriminate].
    destruct (run s1 more) as [[s2 tr2]|] eqn:Hr; [|discriminate]. inversion H; subst.
    destruct (IH _ _ _ Hr) as (I1 & I2 & I3 & I4 & I5 & (added & I6) & I7 & I8 & I9 & I10 & I11).
    destruct (step_config _ _ _ _ Hs) as (C1 & C2 & C3 & C4 & C5).
    assert (Hclk : current_timestep (line s) <= current_timestep (line s1))
      by (destruct (step_clock _ _ _ _ Hs) as [-> | (_ & _ & _ & ->)]; lia).
    assert (Hst : total_produced (stats (line s)) <= total_produced (stats (line s1)) /\
                  total_consumed (stats (line s)) <= total_consumed (stats (line s1)) /\
                  producer_waits (stats (line s)) <= producer_waits (stats (line s1)) /\
                  consumer_waits (stats (line s)) <= consumer_waits (stats (line s1)) /\
                  exists a, buffer_snapshots (stats (line s1))
                            = buffer_snapshots (stats (line s)) ++ a).
    { destruct (step_stats _ _ _ _ Hs) as [-> | (w & _ & [(k & _ & ->) | (_ & ->)])].
      - repeat split; try lia. exists []. now rewrite app_nil_r.
      - destruct k; cbn; repeat split; try lia; exists []; now rewrite app_nil_r.
      - cbn. repeat split; try lia. eauto. }
    destruct Hst as (S1 & S2 & S3 & S4 & (a & S5)).
    repeat split; try lia; try congruence.
    exists (a ++ added). rewrite I6, S5, app_assoc. reflexivity.
Qed.

Lemma statistics_only_grow_witness :
  exists s tr s' tr',
    outcome 10 2 3 100 false (starting 2 3) = Some (s, tr) /\
    run s (approaching (Producer 0) ++ only (Producer 0) 15) = Some (s', tr') /\
    total_produced (stats (line s)) <= total_produced (stats (line s')) /\
    total_produced (stats (line s')) = 1.
Proof.
  eexists. eexists. eexists. eexists.
  split; [vm_compute; reflexivity|]. split; [vm_compute; reflexivity|].
  split; [|reflexivity].
  refine (proj1 (statistics_only_grow _ (approaching (Producer 0) ++ only (Producer 0) 15)
                   _ _ _)).
  vm_compute. reflexivity.
Defined.

(** ** The report (X12, X13) *)

(** A float above 0 is not a zero. *)
Lemma float_positive_nonzero d : float_positive d = true -> float_bool d = true.
Proof. destruct d as [[]| | |]; cbn; auto; discriminate. Qed.

Lemma rate_outcome total t :
  match rate total t with
  | inl Py.OverflowError =>
      PyFloat.of_int total = None /\ exists d, t = Some d /\ float_positive d = true
  | inl _ => False
  | inr (Py.Float _) => exists d, t = Some d /\ float_positive d = true
  | inr (Py.Int n) =>
      n = 0 /\ (t = None \/ exists d, t = Some d /\ float_positive d = false)
  end.
Proof.
  unfold rate, number_truediv, to_float, float_truediv, bind. destruct t as [d|]; [|auto].
  destruct (float_positive d) eqn:Hp; [|eauto].
  pose proof (float_positive_nonzero d Hp) as Hz.
  destruct (PyFloat.of_int total) as [f|]; [|eauto].
  destruct d; try discriminate Hz; eauto.
Qed.

(** X12.  What [get_report] can raise, and when the rates are computed.
    It raises [TypeError] exactly when [end_time] is set to a non-zero
    float while [start_time] is still [None]; otherwise it can only raise
    [OverflowError], when a counter is too large for a float and the
    measured time is positive; it never divides by zero.  When the
    measured time is not a positive float ([end_time] unset or 0.0, a
    clock that went backwards, NaN) both rates are the int [0]; otherwise
    both are floats. *)
Theorem report_rates_are_guarded l start_time end_time :
  match get_report l start_time end_time with
  | inl Py.TypeError =>
      start_time = None /\ exists e, end_time = Some e /\ float_bool e = true
  | inl Py.OverflowError =>
      (PyFloat.of_int (total_produced (stats l)) = None \/
       PyFloat.of_int (total_consumed (stats l)) = None) /\
      exists d, execution_time start_time end_time = inr (Some d) /\
                float_positive d = true
  | inl _ => False
  | inr r =>
      exists t, execution_time start_time end_time = inr t /\
        match t with
        | Some d =>
            Report.tempo_execucao_segundos (Report.desempenho_ r) = Py.Float (round2 d) /\
            if float_positive d
            then exists p c,
                   Report.taxa_producao_por_segundo (Report.desempenho_ r) = Py.Float p /\
                   Report.taxa_consumo_por_segundo (Report.desempenho_ r) = Py.Float c
            else Report.taxa_producao_por_segundo (Report.desempenho_ r) = Py.Int 0 /\
                 Report.taxa_consumo_por_segundo (Report.desempenho_ r) = Py.Int 0
        | None =>
            (end_time = None \/ exists e, end_time = Some e /\ float_bool e = false) /\
            Report.tempo_execucao_segundos (Report.desempenho_ r) = Py.Int 0 /\
            Report.taxa_producao_por_segundo (Report.desempenho_ r) = Py.Int 0 /\
            Report.taxa_consumo_por_segundo (Report.desempenho_ r) = Py.Int 0
        end
  end.
Proof.
  unfold get_report, bind.
  destruct (execution_time start_time end_time) as [x|t] eqn:Ht.
  { unfold execution_time in Ht.
    destruct end_time as [e|]; [|discriminate].
    destruct (float_bool e) eqn:He; [|discriminate].
    destruct start_time; [discriminate|]. inversion Ht; subst. eauto. }
  pose proof (rate_outcome (total_produced (stats l)) t) as Hp.
  pose proof (rate_outcome (total_consumed (stats l)) t) as Hc.
  destruct (rate (total_produced (stats l)) t) as [[]|tp]; try contradiction.
  { destruct Hp as [Hp (d & -> & Hd)]. split; [left; assumption | eauto]. }
  destruct (rate (total_consumed (stats l)) t) as [[]|tc]; try contradiction.
  { destruct Hc as [Hc (d & -> & Hd)]. split; [right; assumption | eauto]. }
  exists t. split; [reflexivity|]. cbn.
  destruct t as [d|].
  - split; [reflexivity|].
    destruct tp as [n|p], tc as [m|c].
    + destruct Hp as (-> & [Hp | (d' & Hd & Hp)]); [discriminate|].
      inversion Hd; subst. rewrite Hp. destruct Hc as (-> & _). auto.
    + destruct Hp as (_ & [Hp | (d' & Hd & Hp)]); [discriminate|].
      destruct Hc as (d'' & Hd' & Hc). inversion Hd; inversion Hd'; subst. congruence.
    + destruct Hc as (_ & [Hc | (d' & Hd & Hc)]); [discriminate|].
      destruct Hp as (d'' & Hd' & Hp). inversion Hd; inversion Hd'; subst. congruence.
    + destruct Hp as (d' & Hd & Hp). inversion Hd; subst. rewrite Hp. eauto.
  - unfold execution_time in Ht. split.
    + destruct end_time as [e|]; [|auto]. right. exists e. split; [reflexivity|].
      destruct (float_bool e); [|reflexivity]. destruct start_time; discriminate.
    + split; [reflexivity|].
      destruct tp as [n|p], tc as [m|c];
        repeat match goal with
          | H : _ /\ _ |- _ => destruct H
          | H : exists _, _ |- _ => destruct H
          end; subst; try discriminate; auto.
Qed.

(** X13.  The report of a finished run.  Once every worker has ended,
    whatever the two clock readings, the report [get_report] returns
    echoes the constructor's arguments, balances
    ([total_produzido == total_consumido + itens_restantes_buffer], with
    at most [buffer_capacity] pieces left), shows no wait on either side,
    and lists one snapshot for every [snapshot_interval] pieces produced;
    if [wait_completion] has returned from a run with
    [total_timesteps > 0], [total_produzido] is at least
    [total_timesteps] and at most
    [total_timesteps - 1 + min(num_producers, buffer_capacity)]. *)
Theorem report_of_finished_run cap np nc tt v schedule s tr start_time end_time r :
  execution cap np nc tt v schedule s tr ->
  workers_ended s ->
  get_report (line s) start_time end_time = inr r ->
  Report.configuracao_ r
    = {| Report.capacidade_buffer := cap; Report.num_produtores := np;
         Report.num_consumidores := nc; Report.total_timesteps := tt |} /\
  Report.total_produzido (Report.resultados_ r)
    = Report.total_consumido (Report.resultados_ r)
      + Report.itens_restantes_buffer (Report.resultados_ r) /\
  0 <= Report.total_consumido (Report.resultados_ r) /\
  0 <= Report.itens_restantes_buffer (Report.resultados_ r) <= cap /\
  Report.esperas_produtores (Report.resultados_ r) = 0 /\
  Report.esperas_consumidores (Report.resultados_ r) = 0 /\
  Z.of_nat (length (Report.buffer_snapshots r))
    = Report.total_produzido (Report.resultados_ r) / Z.max 1 (tt / 100) /\
  (at_main s = Completed -> 0 < tt ->
   tt <= Report.total_produzido (Report.resultados_ r)
      <= tt - 1 + Z.min (Z.max 0 np) cap).
Proof.
  intros Hex Hend Hr.
  destruct (execution_invariant _ _ _ _ _ _ _ _ Hex) as [Hcoh Hcon].
  pose proof (ended_outside s Hcoh Hend) as Hm.
  pose proof (execution_config _ _ _ _ _ _ _ _ Hex) as (Hc & Hnp & Hnc & Ht & Hcap).
  destruct (defensive_branches_unreached _ _ _ _ _ _ _ _ Hex) as (_ & Hpw & Hcw).
  destruct Hcon as [F1 F2 F3 F4 F5 F6 F7 F8 F9 F10].
  unfold critical in *. rewrite Hm in *. cbn in F3, F5, F6, F7.
  assert (Hr' : exists d,
            r = {| Report.configuracao_ :=
                     {| Report.capacidade_buffer := buffer_capacity (line s);
                        Report.num_produtores := num_producers (line s);
                        Report.num_consumidores := num_consumers (line s);
                        Report.total_timesteps := total_timesteps (line s) |};
                   Report.resultados_ :=
                     {| Report.total_produzido := total_produced (stats (line s));
                        Report.total_consumido := total_consumed (stats (line s));
                        Report.itens_restantes_buffer := len (line s);
                        Report.esperas_produtores := producer_waits (stats (line s));
                        Report.esperas_consumidores := consumer_waits (stats (line s)) |};
                   Report.desempenho_ := d;
                   Report.buffer_snapshots := buffer_snapshots (stats (line s)) |}).
  { unfold get_report, bind in Hr.
    destruct (execution_time start_time end_time) as [|t]; [discriminate|].
    destruct (rate (total_produced (stats (line s))) t); [discriminate|].
    destruct (rate (total_consumed (stats (line s))) t); [discriminate|].
    inversion Hr. eauto. }
  destruct Hr' as (d & ->). cbn.
  rewrite Hc, Hnp, Hnc, Ht in *.
  assert (Hlen : total_produced (stats (line s))
                 = total_consumed (stats (line s)) + len (line s)).
  { unfold len, count in *. rewrite F1, length_app in F5. lia. }
  split; [reflexivity|]. split; [assumption|]. split; [unfold count in F6; lia|].
  split; [assumption|]. split; [assumption|]. split; [assumption|]. split.
  - unfold count_snapshots in F7. rewrite F7, F10. f_equal. lia.
  - intros Hmain Htt.
    pose proof (execution_gate _ _ _ _ _ _ _ _ Hex) as [_ G2 _].
    rewrite Hmain, Ht in G2. specialize (G2 eq_refl).
    pose proof (execution_bounded_clock _ _ _ _ _ _ _ _ Hex) as Hbc.
    pose proof (execution_balanced _ _ _ _ _ _ _ _ Hex) as Hb.
    destruct (armed_few s tt Hb) as [[Ha _] _].
    unfold bounded_clock, peak in Hbc. rewrite Hc, Hnp, Ht in Hbc.
    apply Z.ltb_lt in Htt. rewrite Htt in Hbc. lia.
Qed.

Lemma report_of_finished_run_witness :
  exists s tr r,
    outcome 2 2 0 1 false overshoot = Some (s, tr) /\
    get_report (line s) (Some (S754_finite false 1 0)) (Some (S754_finite false 3 0)) = inr r /\
    Report.total_produzido (Report.resultados_ r) = 2 /\
    Report.total_produzido (Report.resultados_ r)
      = Report.total_consumido (Report.resultados_ r)
        + Report.itens_restantes_buffer (Report.resultados_ r).
Proof.
  eexists. eexists. eexists.
  split; [vm_compute; reflexivity|]. split; [vm_compute; reflexivity|].
  split; [reflexivity|].
  refine (proj1 (proj2 (report_of_finished_run 2 2 0 1 false overshoot _ _
                          (Some (S754_finite false 1 0)) (Some (S754_finite false 3 0))
                          _ _ _ _))).
  - apply outcome_execution. vm_compute. reflexivity.
  - intros [[|[|i]]|i]; vm_compute; auto.
  - vm_compute. reflexivity.
Defined.

(** ** Integer quotients that fit a float *)

Lemma digits2_size p : digits2_pos p = Pos.size p.
Proof. induction p; cbn; congruence. Qed.

(** A non-negative integer has as many binary digits as its size. *)
Lemma Zdigits2_bound m k : 0 <= m -> 0 <= k -> m < 2 ^ k -> Zdigits2 m <= k.
Proof.
  intros Hm Hk H. destruct m as [|p|p]; cbn; [assumption| |lia].
  rewrite digits2_size.
  destruct (Z.le_gt_cases (Zpos (Pos.size p)) k) as [|Hgt]; [assumption|exfalso].
  pose proof (Pos.size_le p) as Hle.
  assert (H2 : 2 ^ k * 2 <= 2 ^ Zpos (Pos.size p)).
  { replace (2 ^ k * 2) with (2 ^ (k + 1)) by (rewrite Z.pow_add_r; lia).
    apply Z.pow_le_mono_r; lia. }
  assert (H3 : (2 ^ Zpos (Pos.size p) <= 2 * Zpos p)).
  { change 2 with (Zpos 2) at 1. rewrite <- Pos2Z.inj_pow. lia. }
  lia.
Qed.

Lemma Zdigits2_above m : 0 <= m -> m < 2 ^ Zdigits2 m.
Proof.
  intros Hm. destruct m as [|p|p]; cbn [Zdigits2]; [reflexivity| |lia].
  rewrite digits2_size. pose proof (Pos.size_gt p) as H.
  change 2 with (Zpos 2). rewrite <- Pos2Z.inj_pow. lia.
Qed.

Lemma Zdigits2_below p : 2 ^ (Zdigits2 (Zpos p) - 1) <= Zpos p.
Proof.
  cbn [Zdigits2]. rewrite digits2_size. pose proof (Pos.size_le p) as H.
  assert (H3 : (2 ^ Zpos (Pos.size p) <= 2 * Zpos p)).
  { change 2 with (Zpos 2) at 1. rewrite <- Pos2Z.inj_pow. lia. }
  replace (Zpos (Pos.size p)) with (Zpos (Pos.size p) - 1 + 1) in H3 by lia.
  rewrite Z.pow_add_r in H3 by lia. lia.
Qed.

Lemma Zdigits2_nonneg m : 0 <= Zdigits2 m.
Proof. destruct m; cbn; lia. Qed.

(** One shift halves the mantissa. *)
Lemma shr_1_half r : 0 <= shr_m r -> shr_m (shr_1 r) = shr_m r / 2.
Proof.
  destruct r as [m b s]. cbn [shr_m shr_1]. intros Hm.
  destruct m as [|[p|p|]|p]; cbn [shr_m]; try lia.
  all: first [ reflexivity
             | apply Z.div_unique with (r := 1); lia
             | apply Z.div_unique with (r := 0); lia ].
Qed.

Lemma pow2_xI p : 2 ^ Zpos p~1 = 2 * (2 ^ Zpos p * 2 ^ Zpos p).
Proof.
  replace (Zpos p~1) with (1 + (Zpos p + Zpos p)) by lia.
  rewrite !Z.pow_add_r by lia. reflexivity.
Qed.

Lemma pow2_xO p : 2 ^ Zpos p~0 = 2 ^ Zpos p * 2 ^ Zpos p.
Proof.
  replace (Zpos p~0) with (Zpos p + Zpos p) by lia.
  rewrite !Z.pow_add_r by lia. reflexivity.
Qed.

Lemma shr_iter p : forall r,
  0 <= shr_m r -> shr_m (iter_pos shr_1 p r) = shr_m r / 2 ^ Zpos p.
Proof.
  induction p as [p IH|p IH|]; intros r Hr; cbn [iter_pos].
  - assert (H1 : 0 <= shr_m (shr_1 r)) by (rewrite shr_1_half by assumption; apply Z.div_pos; lia).
    assert (H2 : 0 <= shr_m (iter_pos shr_1 p (shr_1 r)))
      by (rewrite IH by assumption; apply Z.div_pos; lia).
    rewrite IH, IH, shr_1_half by assumption.
    rewrite !Z.div_div by lia. f_equal. rewrite pow2_xI. ring.
  - assert (H2 : 0 <= shr_m (iter_pos shr_1 p r))
      by (rewrite IH by assumption; apply Z.div_pos; lia).
    rewrite IH, IH by assumption.
    rewrite !Z.div_div by lia. f_equal. rewrite pow2_xO. ring.
  - rewrite shr_1_half by assumption. reflexivity.
Qed.

Lemma shr_m_of_loc m l : shr_m (shr_record_of_loc m l) = m.
Proof. destruct l as [|[]]; reflexivity. Qed.

(** The shift that brings a mantissa to the exponent of its format. *)
Lemma shr_fexp_spec m e l r e' :
  0 <= m ->
  shr_fexp PyFloat.prec PyFloat.emax m e l = (r, e') ->
  e' = Z.max e (fexp PyFloat.prec PyFloat.emax (Zdigits2 m + e)) /\
  shr_m r = m / 2 ^ (e' - e).
Proof.
  intros Hm. unfold shr_fexp, shr.
  destruct (fexp PyFloat.prec PyFloat.emax (Zdigits2 m + e) - e) as [|p|p] eqn:Hn;
    intros H; inversion H; subst; clear H.
  - split; [lia|]. rewrite shr_m_of_loc, Z.sub_diag, Z.div_1_r. reflexivity.
  - split; [lia|]. rewrite shr_iter by (rewrite shr_m_of_loc; assumption).
    rewrite shr_m_of_loc. f_equal. f_equal. lia.
  - split; [lia|]. rewrite shr_m_of_loc, Z.sub_diag, Z.div_1_r. reflexivity.
Qed.

Lemma round_nearest_even_bound m l :
  m <= round_nearest_even m l <= m + 1.
Proof.
  destruct l as [|[]]; cbn; try lia. destruct (Z.even m); lia.
Qed.

(** A quotient of a number below [2 ^ k]. *)
Lemma shifted_below m k n :
  0 <= m -> 0 <= k -> 0 <= n -> m < 2 ^ k -> m / 2 ^ n < 2 ^ Z.max (k - n) 0.
Proof.
  intros Hm Hk Hn H.
  apply Z.div_lt_upper_bound; [lia|].
  destruct (Z.le_gt_cases n k).
  - rewrite Z.max_l by lia. rewrite <- Z.pow_add_r by lia.
    replace (n + (k - n)) with k by lia. assumption.
  - rewrite Z.max_r by lia. rewrite Z.mul_1_r.
    apply Z.lt_le_trans with (2 ^ k); [assumption|]. apply Z.pow_le_mono_r; lia.
Qed.

(** Rounding a mantissa whose value is below [2 ^ 1023] does not
    overflow. *)
Lemma round_finite sx mx ex lx :
  0 <= mx -> ex <= 971 -> Zdigits2 mx + ex <= 1023 ->
  match binary_round_aux PyFloat.prec PyFloat.emax sx mx ex lx with
  | S754_infinity _ => False
  | _ => True
  end.
Proof.
  intros Hm He Hd. unfold binary_round_aux.
  destruct (shr_fexp PyFloat.prec PyFloat.emax mx ex lx) as [r1 e1] eqn:H1.
  destruct (shr_fexp_spec _ _ _ _ _ Hm H1) as [He1 Hr1].
  set (m1 := round_nearest_even (shr_m r1) (loc_of_shr_record r1)).
  assert (Hr1' : 0 <= shr_m r1 < 2 ^ Z.max (Zdigits2 mx + ex - e1) 0).
  { rewrite Hr1. split; [apply Z.div_pos; lia|].
    pose proof (Zdigits2_nonneg mx).
    replace (Zdigits2 mx + ex - e1) with (Zdigits2 mx - (e1 - ex)) by lia.
    apply shifted_below; try lia. apply Zdigits2_above. assumption. }
  pose proof (round_nearest_even_bound (shr_m r1) (loc_of_shr_record r1)) as Hb.
  fold m1 in Hb.
  assert (Hm1 : 0 <= m1) by lia.
  assert (Hd1 : Zdigits2 m1 <= Z.max (Zdigits2 mx + ex - e1) 0 + 1).
  { apply Zdigits2_bound; try lia. rewrite Z.pow_add_r by lia. lia. }
  destruct (shr_fexp PyFloat.prec PyFloat.emax m1 e1 loc_Exact) as [r2 e2] eqn:H2.
  destruct (shr_fexp_spec _ _ _ _ _ Hm1 H2) as [He2 _].
  destruct (shr_m r2) as [|p|p]; [exact I| |exact I].
  unfold fexp, emin, PyFloat.prec, PyFloat.emax in *.
  destruct (e2 <=? 1024 - 53) eqn:Hle; [exact I|].
  apply Z.leb_gt in Hle. lia.
Qed.

(** The quotient of two positive integers before rounding. *)
Lemma div_core_bound ma mb :
  Zpos ma < 2 ^ 1022 * Zpos mb ->
  forall q e l,
    SFdiv_core_binary PyFloat.prec PyFloat.emax (Zpos ma) 0 (Zpos mb) 0 = (q, e, l) ->
    0 <= q /\ e <= 0 /\ Zdigits2 q + e <= 1022.
Proof.
  intros H q e l. unfold SFdiv_core_binary.
  set (e' := Z.min (fexp PyFloat.prec PyFloat.emax
                      (Zdigits2 (Zpos ma) + 0 - (Zdigits2 (Zpos mb) + 0))) (0 - 0)).
  assert (He' : e' <= 0) by (unfold e'; lia).
  set (m' := match 0 - 0 - e' with
             | 0 => Zpos ma
             | Zpos _ => Z.shiftl (Zpos ma) (0 - 0 - e')
             | Zneg _ => 0
             end).
  assert (Hm' : m' = Zpos ma * 2 ^ (- e')).
  { unfold m'. destruct (0 - 0 - e') as [|p|p] eqn:Hs.
    - replace (- e') with 0 by lia. rewrite Z.mul_1_r. reflexivity.
    - rewrite Z.shiftl_mul_pow2 by lia. f_equal. f_equal. lia.
    - lia. }
  destruct (Z.div_eucl m' (Zpos mb)) as [q' r'] eqn:Hdiv.
  intros Heq. inversion Heq; subst q' e l. clear Heq.
  assert (Hq : q = m' / Zpos mb) by (unfold Z.div; rewrite Hdiv; reflexivity).
  assert (Hpow : 0 < 2 ^ (- e')) by (apply Z.pow_pos_nonneg; lia).
  assert (Hq0 : 0 <= q) by (rewrite Hq; apply Z.div_pos; nia).
  split; [assumption|]. split; [assumption|].
  assert (Hlt : q < 2 ^ (1022 + - e')).
  { rewrite Hq. apply Z.div_lt_upper_bound; [lia|].
    rewrite Hm', Z.pow_add_r by lia. nia. }
  pose proof (Zdigits2_bound q (1022 + - e') Hq0 ltac:(lia) Hlt). lia.
Qed.

(** [a / b] on ints returns when the quotient is below [2 ^ 1022] in
    absolute value. *)
Lemma int_truediv_fits a b :
  Z.abs a < 2 ^ 1022 * Z.abs b -> exists q, int_truediv a b = inr q.
Proof.
  intros H. unfold int_truediv.
  destruct b as [|mb|mb]; [cbn in H; lia| |];
    (destruct a as [|ma|ma]; [eexists; reflexivity| |]).
  all: cbn [Z.abs Z.to_pos] in *.
  all: match goal with
       | |- context [SFdiv ?p ?m (S754_finite ?sx ?ma 0) (S754_finite ?sy ?mb 0)] =>
           change (SFdiv p m (S754_finite sx ma 0) (S754_finite sy mb 0))
             with (let '(mz, ez, lz) := SFdiv_core_binary p m (Zpos ma) 0 (Zpos mb) 0 in
                   binary_round_aux p m (xorb sx sy) mz ez lz);
           destruct (SFdiv_core_binary p m (Zpos ma) 0 (Zpos mb) 0) as [[mz ez] lz] eqn:Hc;
           destruct (div_core_bound _ _ H _ _ _ Hc) as (Hq & He & Hd);
           pose proof (round_finite (xorb sx sy) mz ez lz Hq ltac:(lia) ltac:(lia)) as Hr;
           destruct (binary_round_aux p m (xorb sx sy) mz ez lz);
           [eexists; reflexivity | contradiction | eexists; reflexivity
           | eexists; reflexivity]
       end.
Qed.

(** ** Reports read back (X14 to X17) *)

(** ** The list built for the comparison table *)

(** Case analysis on a chain of bindings that returned. *)
Ltac unbind H :=
  repeat match type of H with
    | bind ?x _ = _ =>
        let E := fresh "E" in
        destruct x eqn:E; cbn [bind] in H; [discriminate H|]
    end.

Lemma subscript_error v key e :
  subscript v key = inl e -> e = Py.TypeError \/ e = Py.KeyError key.
Proof.
  unfold subscript. destruct v; try (intros H; inversion H; auto).
  destruct (lookup key items); inversion H; auto.
Qed.

Lemma comparison_rows_error : forall reports i e,
  comparison_rows i reports = inl e ->
  e = Py.TypeError \/ exists key, e = Py.KeyError key /\ In key table_keys.
Proof.
  induction reports as [|report rest IH]; intros i e H; [discriminate|].
  cbn [comparison_rows] in H.
  repeat match type of H with
    | bind ?x _ = _ =>
        let E := fresh "E" in
        destruct x eqn:E; cbn [bind] in H;
        [ inversion H; subst;
          first [ apply subscript_error in E; destruct E as [->| ->];
                  [left; reflexivity | right; eexists; split; [reflexivity|]; cbn; tauto]
                | eapply IH; eassumption ] | ]
    end.
  discriminate.
Qed.

Lemma comparison_rows_ok : forall reports i rows,
  comparison_rows i reports = inr rows ->
  length rows = length reports /\
  forall n row, nth_error rows n = Some row ->
    Configuracao row = i + Z.of_nat n + 1 /\
    exists report config results perf,
      nth_error reports n = Some report /\
      subscript report "configuracao"%string = inr config /\
      subscript report "resultados"%string = inr results /\
      subscript report "desempenho"%string = inr perf /\
      subscript config "capacidade_buffer"%string = inr (Buffer row) /\
      subscript config "num_produtores"%string = inr (Produtores row) /\
      subscript config "num_consumidores"%string = inr (Consumidores row) /\
      subscript config "total_timesteps"%string = inr (Timesteps row) /\
      subscript results "total_produzido"%string = inr (Produzido row) /\
      subscript results "total_consumido"%string = inr (Consumido row) /\
      subscript results "itens_restantes_buffer"%string = inr (Restante row) /\
      subscript perf "tempo_execucao_segundos"%string = inr (Tempo row) /\
      subscript perf "taxa_producao_por_segundo"%string = inr (Taxa_Prod row) /\
      subscript perf "taxa_consumo_por_segundo"%string = inr (Taxa_Cons row).
Proof.
  induction reports as [|report rest IH]; intros i rows H.
  - inversion H; subst. split; [reflexivity|]. intros [|n] row Hn; discriminate.
  - cbn [comparison_rows] in H. unbind H. inversion H; subst. clear H.
    match goal with E : comparison_rows _ rest = inr _ |- _ => apply IH in E; destruct E as [Hlen Hrows] end.
    split; [cbn; congruence|].
    intros [|n] row Hn; cbn [nth_error] in *.
    + inversion Hn; subst. cbn. split; [lia|]. eauto 20.
    + destruct (Hrows n row Hn) as [Hc Hr]. split; [lia | exact Hr].
Qed.

Lemma comparison_rows_of_reports : forall rs i,
  exists rows,
    comparison_rows (Z.of_nat i) (map json_of_report rs) = inr rows /\
    length rows = length rs /\
    forall n r, nth_error rs n = Some r ->
      nth_error rows n = Some (expected_row (i + n) r).
Proof.
  induction rs as [|r rest IH]; intros i.
  - exists []. split; [reflexivity|]. split; [reflexivity|]. intros [|n] r H; discriminate.
  - destruct (IH (S i)) as (rows & Hrows & Hlen & Hnth).
    exists (expected_row i r :: rows). split; [|split].
    + cbn [map comparison_rows].
      replace (Z.of_nat i + 1) with (Z.of_nat (S i)) by lia.
      cbn [json_of_report subscript lookup String.eqb Ascii.eqb Bool.eqb bind].
      rewrite Hrows. cbn [bind]. unfold expected_row. rewrite Nat2Z.inj_succ.
      do 2 f_equal. 
    + cbn. congruence.
    + intros [|n] r' H; cbn [nth_error] in *.
      * inversion H; subst. now rewrite Nat.add_0_r.
      * rewrite (Hnth n r' H). do 2 f_equal. lia.
Qed.

(** ** Numbers of the report *)

Lemma format_2f_number n :
  format_2f (json_of_number n) = let! _ := to_float n in inr tt.
Proof. destruct n; reflexivity. Qed.

(** A rate of the report is a float, or the int [0]. *)
Lemma rate_converts total t n :
  rate total t = inr n -> exists x, to_float n = inr x.
Proof.
  unfold rate. destruct t as [d|].
  - destruct (float_positive d).
    + destruct (number_truediv (Py.Int total) (Py.Float d)); cbn [bind]; intros H;
        inversion H; subst. eexists. reflexivity.
    + intros H. inversion H; subst. eexists. vm_compute. reflexivity.
  - intros H. inversion H; subst. eexists. vm_compute. reflexivity.
Qed.

Lemma report_numbers_convert l start_time end_time r :
  get_report l start_time end_time = inr r ->
  (exists x, to_float (Report.tempo_execucao_segundos (Report.desempenho_ r)) = inr x) /\
  (exists x, to_float (Report.taxa_producao_por_segundo (Report.desempenho_ r)) = inr x) /\
  (exists x, to_float (Report.taxa_consumo_por_segundo (Report.desempenho_ r)) = inr x).
Proof.
  unfold get_report. intros H. unbind H. inversion H; subst. clear H. cbn.
  split; [|split].
  - match goal with |- context [match ?t with Some _ => _ | None => _ end] => destruct t end;
      eexists; [reflexivity | vm_compute; reflexivity].
  - eapply rate_converts; eassumption.
  - eapply rate_converts; eassumption.
Qed.

Lemma float_times_int_100 q : exists x, float_times_int q 100 = inr x.
Proof. eexists. vm_compute. reflexivity. Qed.

Lemma int_truediv_error a b e :
  int_truediv a b = inl e ->
  (b = 0 /\ e = Py.ZeroDivisionError) \/ (b <> 0 /\ e = Py.OverflowError).
Proof.
  unfold int_truediv. destruct b as [|b|b].
  - intros H. inversion H. auto.
  - right. split; [discriminate|]. destruct a; [discriminate| |];
      match type of H with context [SFdiv ?p ?m ?x ?y] => destruct (SFdiv p m x y) end;
      inversion H; reflexivity.
  - right. split; [discriminate|]. destruct a; [discriminate| |];
      match type of H with context [SFdiv ?p ?m ?x ?y] => destruct (SFdiv p m x y) end;
      inversion H; reflexivity.
Qed.

(** ** One report analysed *)

(** The analysis of a dictionary of [get_report]: every key is found and
    every value formatted with [:,] is an int; what is left are the
    conversions and the divisions. *)
Lemma report_section_of_report r :
  report_section (json_of_report r) =
  let! _ := to_float (Report.tempo_execucao_segundos (Report.desempenho_ r)) in
  let! _ := to_float (Report.taxa_producao_por_segundo (Report.desempenho_ r)) in
  let! _ := to_float (Report.taxa_consumo_por_segundo (Report.desempenho_ r)) in
  let! e :=
    (if 0 <? Report.total_produzido (Report.resultados_ r)
     then let! q := int_truediv (Report.total_consumido (Report.resultados_ r))
                                (Report.total_produzido (Report.resultados_ r)) in
          let! x := float_times_int q 100 in
          inr (Py.Float x)
     else inr (Py.Int 0)) in
  let! o :=
    (let! q := int_truediv (Report.itens_restantes_buffer (Report.resultados_ r))
                           (Report.capacidade_buffer (Report.configuracao_ r)) in
     float_times_int q 100) in
  let! q := int_truediv (Report.num_consumidores (Report.configuracao_ r))
                        (Report.num_produtores (Report.configuracao_ r)) in
  inr {| eficiencia := e; taxa_ocupacao := o; ratio := q |}.
Proof.
  unfold report_section, write_comma, write_2f.
  cbn [json_of_report subscript lookup String.eqb Ascii.eqb Bool.eqb bind format_comma].
  rewrite !format_2f_number.
  destruct (to_float (Report.tempo_execucao_segundos (Report.desempenho_ r)));
    cbn [bind]; [reflexivity|].
  destruct (to_float (Report.taxa_producao_por_segundo (Report.desempenho_ r)));
    cbn [bind]; [reflexivity|].
  destruct (to_float (Report.taxa_consumo_por_segundo (Report.desempenho_ r)));
    cbn [bind]; [reflexivity|].
  cbn [greater_than_zero as_number truediv number_truediv bind].
  destruct (0 <? Report.total_produzido (Report.resultados_ r)); cbn [bind].
  2: rewrite format_2f_number;
     replace (to_float (Py.Int 0)) with (@inr Py.error _ (S754_zero false))
       by (vm_compute; reflexivity);
     cbn [bind].
  all: repeat match goal with
    | |- context [float_times_int ?q 100] =>
        let x := fresh "x" in
        destruct (float_times_int_100 q) as [x ->];
        cbn [bind json_of_number format_2f as_number to_float]
    | |- context [bind (int_truediv ?a ?b) _] =>
        destruct (int_truediv a b); cbn [bind format_2f as_number to_float];
        [reflexivity|]
    end.
  all: reflexivity.
Qed.

Lemma to_float_error n e : to_float n = inl e -> e = Py.OverflowError.
Proof.
  destruct n as [k|x]; cbn; [|discriminate].
  destruct (PyFloat.of_int k); intros H; inversion H; reflexivity.
Qed.

Lemma report_section_outcome r :
  match report_section (json_of_report r) with
  | inr a =>
      Report.capacidade_buffer (Report.configuracao_ r) <> 0 /\
      Report.num_produtores (Report.configuracao_ r) <> 0 /\
      (if 0 <? Report.total_produzido (Report.resultados_ r)
       then exists q x,
              int_truediv (Report.total_consumido (Report.resultados_ r))
                          (Report.total_produzido (Report.resultados_ r)) = inr q /\
              float_times_int q 100 = inr x /\ eficiencia a = Py.Float x
       else eficiencia a = Py.Int 0) /\
      (exists q,
         int_truediv (Report.itens_restantes_buffer (Report.resultados_ r))
                     (Report.capacidade_buffer (Report.configuracao_ r)) = inr q /\
         float_times_int q 100 = inr (taxa_ocupacao a)) /\
      int_truediv (Report.num_consumidores (Report.configuracao_ r))
                  (Report.num_produtores (Report.configuracao_ r)) = inr (ratio a)
  | inl Py.ZeroDivisionError =>
      Report.capacidade_buffer (Report.configuracao_ r) = 0 \/
      Report.num_produtores (Report.configuracao_ r) = 0
  | inl Py.OverflowError => True
  | inl _ => False
  end.
Proof.
  rewrite report_section_of_report.
  destruct (to_float (Report.tempo_execucao_segundos (Report.desempenho_ r))) eqn:E1;
    [apply to_float_error in E1; subst; exact I|].
  destruct (to_float (Report.taxa_producao_por_segundo (Report.desempenho_ r))) eqn:E2;
    [apply to_float_error in E2; subst; exact I|].
  destruct (to_float (Report.taxa_consumo_por_segundo (Report.desempenho_ r))) eqn:E3;
    [apply to_float_error in E3; subst; exact I|].
  cbn [bind].
  set (cap := Report.capacidade_buffer (Report.configuracao_ r)).
  set (np := Report.num_produtores (Report.configuracao_ r)).
  set (nc := Report.num_consumidores (Report.configuracao_ r)).
  set (produzido := Report.total_produzido (Report.resultados_ r)).
  set (consumido := Report.total_consumido (Report.resultados_ r)).
  set (restante := Report.itens_restantes_buffer (Report.resultados_ r)).
  assert (He : forall e : Py.error + Py.number,
    (match e with
     | inr n =>
         if 0 <? produzido
         then exists q x, int_truediv consumido produzido = inr q /\
                          float_times_int q 100 = inr x /\ n = Py.Float x
         else n = Py.Int 0
     | inl err => err = Py.OverflowError
     end) ->
    match
      (let! e := e in
       let! o := (let! q := int_truediv restante cap in float_times_int q 100) in
       let! q := int_truediv nc np in
       inr {| eficiencia := e; taxa_ocupacao := o; ratio := q |})
    with
    | inr a =>
        cap <> 0 /\ np <> 0 /\
        (if 0 <? produzido
         then exists q x, int_truediv consumido produzido = inr q /\
                          float_times_int q 100 = inr x /\ eficiencia a = Py.Float x
         else eficiencia a = Py.Int 0) /\
        (exists q, int_truediv restante cap = inr q /\
                   float_times_int q 100 = inr (taxa_ocupacao a)) /\
        int_truediv nc np = inr (ratio a)
    | inl Py.ZeroDivisionError => cap = 0 \/ np = 0
    | inl Py.OverflowError => True
    | inl _ => False
    end).
  { intros [err|n] Hn; cbn [bind]; [subst; exact I|].
    destruct (int_truediv restante cap) as [err|q] eqn:Eo; cbn [bind].
    { destruct (int_truediv_error _ _ _ Eo) as [[Hz ->]|[_ ->]]; auto. }
    destruct (float_times_int_100 q) as [o Ho]. rewrite Ho. cbn [bind].
    destruct (int_truediv nc np) as [err|ra] eqn:Er; cbn [bind].
    { destruct (int_truediv_error _ _ _ Er) as [[Hz ->]|[_ ->]]; auto. }
    cbn. split; [|split; [|split; [|split]]].
    - intros Hz. rewrite Hz in Eo. discriminate.
    - intros Hz. rewrite Hz in Er. discriminate.
    - assumption.
    - eauto.
    - reflexivity. }
  apply He. destruct (0 <? produzido) eqn:Hp; [|reflexivity].
  destruct (int_truediv consumido produzido) as [err|q] eqn:Eq; cbn [bind].
  - destruct (int_truediv_error _ _ _ Eq) as [[Hz _]|[_ ->]]; [|reflexivity].
    apply Z.ltb_lt in Hp. lia.
  - destruct (float_times_int_100 q) as [x Hx]. rewrite Hx. cbn [bind]. eauto.
Qed.

(** ** Runs and their reports *)

(** What [get_report] copies from the object. *)
Lemma get_report_fields l start_time end_time r :
  get_report l start_time end_time = inr r ->
  Report.configuracao_ r
    = {| Report.capacidade_buffer := buffer_capacity l;
         Report.num_produtores := num_producers l;
         Report.num_consumidores := num_consumers l;
         Report.total_timesteps := total_timesteps l |} /\
  Report.resultados_ r
    = {| Report.total_produzido := total_produced (stats l);
         Report.total_consumido := total_consumed (stats l);
         Report.itens_restantes_buffer := len l;
         Report.esperas_produtores := producer_waits (stats l);
         Report.esperas_consumidores := consumer_waits (stats l) |}.
Proof.
  unfold get_report. intros H. unbind H. inversion H; subst. split; reflexivity.
Qed.

(** The counters once every worker has ended. *)
Lemma finished_counts cap np nc tt v schedule s tr :
  execution cap np nc tt v schedule s tr -> workers_ended s ->
  total_produced (stats (line s)) = total_consumed (stats (line s)) + len (line s) /\
  0 <= total_consumed (stats (line s)) /\
  0 <= len (line s) <= cap.
Proof.
  intros Hex Hend.
  destruct (execution_invariant _ _ _ _ _ _ _ _ Hex) as [Hcoh Hcon].
  pose proof (ended_outside s Hcoh Hend) as Hm.
  pose proof (execution_config _ _ _ _ _ _ _ _ Hex) as (Hc & _).
  destruct Hcon as [F1 F2 F3 F4 F5 F6 F7 F8 F9 F10].
  unfold critical in *. rewrite Hm in *. cbn in F5, F6.
  rewrite Hc in F8.
  split; [|split; [unfold count in F6; lia | assumption]].
  unfold len, count in *. rewrite F1, length_app in F5. lia.
Qed.

(** A configuration that was validated, or whose run completed with
    [total_timesteps > 0], has a capacity and a producer. *)
Lemma run_configuration cap np nc tt v schedule s tr :
  execution cap np nc tt v schedule s tr ->
  v = true \/ (0 < tt /\ at_main s = Completed) ->
  1 <= cap /\ 1 <= np.
Proof.
  intros Hex [->|[Htt Hmain]].
  - destruct Hex as (l0 & Hinit & _). unfold __init__ in Hinit.
    destruct (validation cap np nc tt) as [e|] eqn:E; [discriminate|].
    unfold validation in E.
    destruct (cap <? 1000) eqn:E1; [discriminate|].
    destruct (np <? 200) eqn:E2; [discriminate|].
    apply Z.ltb_ge in E1, E2. lia.
  - pose proof (execution_gate _ _ _ _ _ _ _ _ Hex) as [_ G2 _].
    pose proof (execution_config _ _ _ _ _ _ _ _ Hex) as (Hc & Hnp & _ & Ht & _).
    rewrite Hmain, Ht in G2. specialize (G2 eq_refl).
    pose proof (execution_bounded_clock _ _ _ _ _ _ _ _ Hex) as Hbc.
    pose proof (execution_balanced _ _ _ _ _ _ _ _ Hex) as Hb.
    destruct (armed_few s tt Hb) as [[Ha _] _].
    unfold bounded_clock, peak in Hbc. rewrite Hc, Hnp, Ht in Hbc.
    apply Z.ltb_lt in Htt. rewrite Htt in Hbc. lia.
Qed.


(** X15.  The loop of [create_comparison_table] appends to [data] one
    dictionary for each loaded report, in order, numbered from 1, whose
    other entries are the values found under the keys of the report, as
    they are read.  It raises only on a report it cannot read: [TypeError]
    when the report or one of its three sections is not a dictionary,
    [KeyError] with one of the thirteen keys it looks up.  On the reports
    written from [get_report] it never raises, and each dictionary holds
    the numbers of its report.  This is the list handed to [pd.DataFrame];
    the data frame itself is not modelled. *)
Theorem comparison_data_reads_reports :
  (forall reports rows,
     create_comparison_table_data reports = inr rows ->
     length rows = length reports /\
     forall n row, nth_error rows n = Some row ->
       Configuracao row = Z.of_nat n + 1 /\
       exists report config results perf,
         nth_error reports n = Some report /\
         subscript report "configuracao"%string = inr config /\
         subscript report "resultados"%string = inr results /\
         subscript report "desempenho"%string = inr perf /\
         subscript config "capacidade_buffer"%string = inr (Buffer row) /\
         subscript config "num_produtores"%string = inr (Produtores row) /\
         subscript config "num_consumidores"%string = inr (Consumidores row) /\
         subscript config "total_timesteps"%string = inr (Timesteps row) /\
         subscript results "total_produzido"%string = inr (Produzido row) /\
         subscript results "total_consumido"%string = inr (Consumido row) /\
         subscript results "itens_restantes_buffer"%string = inr (Restante row) /\
         subscript perf "tempo_execucao_segundos"%string = inr (Tempo row) /\
         subscript perf "taxa_producao_por_segundo"%string = inr (Taxa_Prod row) /\
         subscript perf "taxa_consumo_por_segundo"%string = inr (Taxa_Cons row)) /\
  (forall reports e,
     create_comparison_table_data reports = inl e ->
     e = Py.TypeError \/ exists key, e = Py.KeyError key /\ In key table_keys) /\
  (forall rs, exists rows,
     create_comparison_table_data (map json_of_report rs) = inr rows /\
     length rows = length rs /\
     forall n r, nth_error rs n = Some r -> nth_error rows n = Some (expected_row n r)).
Proof.
  split; [|split].
  - intros reports rows H. apply comparison_rows_ok in H. exact H.
  - intros reports e H. eapply comparison_rows_error. exact H.
  - intros rs. exact (comparison_rows_of_reports rs 0).
Qed.

(** X16.  [generate_full_report] on reports written from [get_report].
    It never raises [KeyError], [TypeError] or [ValueError]: every key it
    reads is written by [get_report], with a value it can format.  It
    raises [ZeroDivisionError] only if some report has
    [capacidade_buffer == 0] or [num_produtores == 0], and with such a
    report it cannot succeed.  When it succeeds, for every report
    [eficiencia] is the int [0] if [total_produzido <= 0] and the float
    [total_consumido / total_produzido * 100] otherwise, [taxa_ocupacao]
    is [itens_restantes_buffer / capacidade_buffer * 100], and [ratio] is
    [num_consumidores / num_produtores]. *)
Theorem full_report_divides_by_configuration rs :
  match generate_full_report (map json_of_report rs) with
  | inr analyses =>
      length analyses = length rs /\
      forall n r, nth_error rs n = Some r ->
        Report.capacidade_buffer (Report.configuracao_ r) <> 0 /\
        Report.num_produtores (Report.configuracao_ r) <> 0 /\
        exists a, nth_error analyses n = Some a /\
          (if 0 <? Report.total_produzido (Report.resultados_ r)
           then exists q x,
                  int_truediv (Report.total_consumido (Report.resultados_ r))
                              (Report.total_produzido (Report.resultados_ r)) = inr q /\
                  float_times_int q 100 = inr x /\ eficiencia a = Py.Float x
           else eficiencia a = Py.Int 0) /\
          (exists q,
             int_truediv (Report.itens_restantes_buffer (Report.resultados_ r))
                         (Report.capacidade_buffer (Report.configuracao_ r)) = inr q /\
             float_times_int q 100 = inr (taxa_ocupacao a)) /\
          int_truediv (Report.num_consumidores (Report.configuracao_ r))
                      (Report.num_produtores (Report.configuracao_ r)) = inr (ratio a)
  | inl Py.ZeroDivisionError =>
      exists r, In r rs /\
        (Report.capacidade_buffer (Report.configuracao_ r) = 0 \/
         Report.num_produtores (Report.configuracao_ r) = 0)
  | inl Py.OverflowError => True
  | inl _ => False
  end.
Proof.
  induction rs as [|r rest IH]; cbn [map generate_full_report].
  - split; [reflexivity|]. intros [|n] r H; discriminate.
  - pose proof (report_section_outcome r) as Hr.
    destruct (report_section (json_of_report r)) as [e|a]; cbn [bind].
    { destruct e; try contradiction; [|exact I].
      exists r. split; [left; reflexivity | assumption]. }
    destruct (generate_full_report (map json_of_report rest)) as [e|more]; cbn [bind].
    { destruct e; try contradiction; [|exact I].
      destruct IH as (r' & Hin & H). exists r'. split; [right; assumption | assumption]. }
    destruct IH as [Hlen Hnth]. split; [cbn; congruence|].
    intros [|n] r' H; cbn [nth_error] in *.
    + inversion H; subst r'. destruct Hr as (Hc & Hp & He & Ho & Hq).
      split; [assumption|]. split; [assumption|]. exists a. auto.
    + exact (Hnth n r' H).
Qed.

(** X17.  The report of a finished run is analysed without a division by
    zero.  Let every worker have ended on an object that was built with
    [validate=True], or whose [wait_completion] has returned from a run
    with [total_timesteps > 0].  Then [generate_full_report] on the report
    of [get_report] returns, with [eficiencia] the int [0] exactly when
    nothing was produced; unless [num_consumers] is [2 ** 1022] times
    [num_producers] or more, when the last division can raise
    [OverflowError]. *)
Theorem finished_run_is_analysed cap np nc tt v schedule s tr start_time end_time r :
  execution cap np nc tt v schedule s tr ->
  workers_ended s ->
  v = true \/ (0 < tt /\ at_main s = Completed) ->
  get_report (line s) start_time end_time = inr r ->
  match generate_full_report [json_of_report r] with
  | inr analyses =>
      exists a, analyses = [a] /\
        (eficiencia a = Py.Int 0 <-> Report.total_produzido (Report.resultados_ r) = 0)
  | inl e => e = Py.OverflowError /\ 2 ^ 1022 * np <= Z.abs nc
  end.
Proof.
  intros Hex Hend Hcase Hr.
  destruct (run_configuration _ _ _ _ _ _ _ _ Hex Hcase) as [Hcap Hnp].
  destruct (finished_counts _ _ _ _ _ _ _ _ Hex Hend) as (Hsum & Hcons & Hlen).
  pose proof (execution_config _ _ _ _ _ _ _ _ Hex) as (Hc & Hn & Hm & _).
  destruct (get_report_fields _ _ _ _ Hr) as [Hconf Hres].
  destruct (report_numbers_convert _ _ _ _ Hr) as ((x1 & H1) & (x2 & H2) & (x3 & H3)).
  cbn [generate_full_report]. rewrite report_section_of_report, H1, H2, H3.
  rewrite Hconf, Hres. cbn [bind Report.capacidade_buffer Report.num_produtores
    Report.num_consumidores Report.total_produzido Report.total_consumido
    Report.itens_restantes_buffer]. rewrite Hc, Hn, Hm.
  set (produced := total_produced (stats (line s))) in *.
  set (consumed := total_consumed (stats (line s))) in *.
  destruct (int_truediv_fits (len (line s)) cap) as [o Ho]; [lia|].
  destruct (float_times_int_100 o) as [o' Ho'].
  assert (Hrest : forall e : Py.number,
    (e = Py.Int 0 <-> produced = 0) ->
    match
      (let! a :=
         (let! o := (let! q := int_truediv (len (line s)) cap in float_times_int q 100) in
          let! q := int_truediv nc np in
          inr {| eficiencia := e; taxa_ocupacao := o; ratio := q |}) in
       let! more := inr [] in inr (a :: more))
    with
    | inr analyses => exists a, analyses = [a] /\ (eficiencia a = Py.Int 0 <-> produced = 0)
    | inl err => err = Py.OverflowError /\ 2 ^ 1022 * np <= Z.abs nc
    end).
  { intros e He. rewrite Ho. cbn [bind]. rewrite Ho'. cbn [bind].
    destruct (int_truediv nc np) as [err|q] eqn:Eq; cbn [bind].
    - destruct (int_truediv_error _ _ _ Eq) as [[Hz _]|[_ ->]]; [lia|].
      split; [reflexivity|].
      destruct (Z.le_gt_cases (2 ^ 1022 * np) (Z.abs nc)) as [|Hlt]; [assumption|].
      destruct (int_truediv_fits nc np) as [q Hq]; [lia|]. congruence.
    - eexists. split; [reflexivity|]. exact He. }
  destruct (0 <? produced) eqn:Hp.
  - apply Z.ltb_lt in Hp.
    destruct (int_truediv_fits consumed produced) as [q Hq]; [lia|].
    rewrite Hq. cbn [bind].
    destruct (float_times_int_100 q) as [x Hx]. rewrite Hx. cbn [bind].
    apply (Hrest (Py.Float x)). split; [discriminate | lia].
  - apply Z.ltb_ge in Hp. cbn [bind]. apply (Hrest (Py.Int 0)).
    split; [lia | reflexivity].
Qed.

Lemma finished_run_is_analysed_witness :
  exists s tr r,
    outcome 2 2 0 1 false overshoot = Some (s, tr) /\
    get_report (line s) (Some (S754_finite false 1 0)) (Some (S754_finite false 3 0)) = inr r /\
    match generate_full_report [json_of_report r] with
    | inr analyses =>
        exists a, analyses = [a] /\
          (eficiencia a = Py.Int 0 <-> Report.total_produzido (Report.resultados_ r) = 0)
    | inl e => e = Py.OverflowError /\ 2 ^ 1022 * 2 <= Z.abs 0
    end.
Proof.
  eexists. eexists. eexists.
  split; [vm_compute; reflexivity|]. split; [vm_compute; reflexivity|].
  match goal with
  | |- match generate_full_report [json_of_report ?r] with _ => _ end =>
      refine (finished_run_is_analysed 2 2 0 1 false overshoot _ _
                (Some (S754_finite false 1 0)) (Some (S754_finite false 3 0)) r _ _ _ _)
  end.
  - apply outcome_execution. vm_compute. reflexivity.
  - intros [[|[|i]]|i]; vm_compute; auto.
  - right. split; [lia | reflexivity].
  - vm_compute. reflexivity.
Defined.

(** ** The last piece (X18) *)

Lemma eager_nonneg tt p : 0 <= eager tt p.
Proof.
  destruct p as [| | | [|[| |v]] | | | | [] | | | | | | | | | | | |]; cbn; try lia.
  destruct (v <? tt); lia.
Qed.

Lemma eager_le_committed tt p : eager tt p <= committed p.
Proof.
  destruct p as [| | | [|[| |v]] | | | | [] | | | | | | | | | | | |]; cbn; try lia.
  destruct (v <? tt); lia.
Qed.

(** The pieces taken and those in the buffer were counted. *)
Lemma taken_below_clock s tr :
  consistent s tr ->
  count (takes tr) + len (line s) <= current_timestep (line s).
Proof.
  intros [F1 _ F3 _ _ _ _ _ _ _].
  rewrite F3. unfold count, len in *. rewrite F1, length_app.
  destruct (critical s) as [[| | | | | | |[]| | | | | | | | | | | |]|];
    cbn [ticking]; lia.
Qed.

(** In every state the pieces taken and the consumers about to take one
    are covered by the counter. *)
Lemma eager_below_clock s tr :
  balanced s -> consistent s tr ->
  count (takes tr) + consumers (eager (total_timesteps (line s))) s
  <= current_timestep (line s).
Proof.
  intros Hb Hc.
  pose proof (taken_below_clock s tr Hc) as H1.
  pose proof (bal_stock s Hb) as H2.
  assert (H3 : consumers (eager (total_timesteps (line s))) s <= consumers committed s)
    by (unfold consumers, among; apply tally_le; intros; apply eager_le_committed).
  lia.
Qed.

Lemma step_starved s t s' e tr :
  coherent s -> balanced s -> balanced s' -> consistent s' (tr ++ e) ->
  0 <= current_timestep (line s) ->
  starved s tr -> step s t = Some (s', e) -> starved s' (tr ++ e).
Proof.
  intros [_ _ _ Hu] Hb Hb' Hc' Hclk Hst H.
  pose proof (eager_below_clock s' (tr ++ e) Hb' Hc') as Hcover.
  pose proof (bal_consumers s Hb) as Bc.
  unfold starved in *. rewrite takes_app in *. unfold count in *. rewrite length_app in *.
  destruct t as [|[i|i]]; cbn [step worker_step] in H.
  - destruct s as [l pm pw]. unfold main_step, get_current_timestep in H.
    unfold unborn in Hu. fields. crack; fields.
    all: cbn [takes length app] in *.
    all: try match goal with
         | Hu : (forall j, (?i <= j)%nat -> ?f (Consumer j) = NotStarted) |- _ =>
             pose proof (Hu i (Nat.le_refl i)) as Hnew
         end.
    all: tests.
    all: resum; try rewrite Hnew in *; cbn [eager] in *.
    all: lia.
  - destruct s as [l pm pw].
    unfold producer_task, should_continue, get_current_timestep, increment_timestep in H.
    fields. crack; fields.
    all: cbn [takes length app] in *.
    all: resum.
    all: lia.
  - assert (Hi : Z.of_nat i < num_consumers (line s)).
    { destruct (Z_lt_le_dec (Z.of_nat i) (num_consumers (line s))) as [|Hge]; [assumption|].
      apply Bc in Hge. unfold consumer_task in H. rewrite Hge in H. discriminate. }
    destruct s as [l pm pw].
    unfold consumer_task, should_continue, get_current_timestep in H.
    fields. crack; fields.
    all: cbn [takes length app] in *.
    all: resum.
    all: try match goal with E : ?f (Consumer _) = _ |- _ => rewrite E in * end.
    all: cbn [eager] in *.
    all: decide_tests; try lia.
Qed.

Lemma execution_starved cap np nc tt v schedule s tr :
  execution cap np nc tt v schedule s tr -> starved s tr.
Proof.
  revert schedule s tr. apply (execution_ind starved).
  - intros l0 Hinit. apply init_fresh in Hinit. destruct Hinit as [-> Hcap].
    unfold starved, consumers, boot.
    cbn [line at_worker total_timesteps num_consumers takes count length].
    rewrite among_unstarted by reflexivity. cbn. lia.
  - intros schedule s tr t s' e Hex Hst Hstep.
    pose proof (execution_step _ _ _ _ _ _ _ _ _ _ _ Hex Hstep) as Hex'.
    destruct (execution_invariant _ _ _ _ _ _ _ _ Hex) as [Hcoh Hcon].
    destruct (execution_invariant _ _ _ _ _ _ _ _ Hex') as [_ Hcon'].
    eapply step_starved; eauto using execution_balanced.
    apply (clock_monotone _ _ _ _ _ _ _ _ Hex).
Qed.

Lemma taken_at_most cap np nc tt v schedule s tr :
  execution cap np nc tt v schedule s tr -> count (takes tr) <= Z.max 0 (tt - 1).
Proof.
  intros Hex.
  pose proof (execution_starved _ _ _ _ _ _ _ _ Hex) as Hst.
  pose proof (execution_config _ _ _ _ _ _ _ _ Hex) as (_ & _ & _ & Ht & _).
  unfold starved, consumers in Hst. rewrite Ht in *.
  pose proof (among_nonneg Consumer (eager tt) (num_consumers (line s)) (at_worker s)
                (eager_nonneg tt)) as Hpos.
  lia.
Qed.

(** X18.  The consumers never empty the line.  A consumer takes a piece
    only after it has read, with a slot of [filled_slots] in hand, a
    counter below [total_timesteps] in its second [should_continue]; the
    pieces taken and the consumers that have passed this test never
    exceed the counter.  So with [total_timesteps > 0] at most
    [total_timesteps - 1] pieces are ever taken, and none with
    [total_timesteps <= 0]; once the main thread has left the polling loop
    of [wait_completion], whenever the buffer mutex is free, at least one
    piece is in the buffer and [total_consumed < total_produced]. *)
Theorem last_piece_stays cap np nc tt v schedule s tr :
  execution cap np nc tt v schedule s tr ->
  count (takes tr) <= Z.max 0 (tt - 1) /\
  total_consumed (stats (line s)) <= Z.max 0 (tt - 1) /\
  (0 < tt -> past_polling (at_main s) = true -> mutex (line s) = None ->
   1 <= len (line s) /\
   total_consumed (stats (line s)) < total_produced (stats (line s))).
Proof.
  intros Hex.
  pose proof (execution_starved _ _ _ _ _ _ _ _ Hex) as Hst.
  pose proof (execution_config _ _ _ _ _ _ _ _ Hex) as (_ & _ & _ & Ht & _).
  destruct (execution_invariant _ _ _ _ _ _ _ _ Hex) as [_ Hcon].
  pose proof (execution_gate _ _ _ _ _ _ _ _ Hex) as [_ G2 _].
  unfold starved, consumers in Hst. rewrite Ht in *.
  pose proof (among_nonneg Consumer (eager tt) (num_consumers (line s)) (at_worker s)
                (eager_nonneg tt)) as Hpos.
  destruct Hcon as [F1 F2 F3 F4 F5 F6 F7 F8 F9 F10].
  assert (Htake : count (takes tr) <= Z.max 0 (tt - 1)) by lia.
  split; [assumption|]. split.
  - destruct (critical s) as [[| | | | | | |[]| | |[]|[]| | | | | | | |]|];
      cbn [uncounted_take] in F6; lia.
  - intros Htt Hp Hm. specialize (G2 Hp).
    unfold critical in *. rewrite Hm in *. cbn in F3, F5, F6.
    unfold count, len in *. rewrite F1, length_app in F3, F5. lia.
Qed.

Lemma last_piece_stays_witness :
  exists s tr,
    outcome 1 1 1 2 false
      (starting 1 1 ++ handoffs 1 ++ approaching (Producer 0) ++ only (Producer 0) 15
       ++ stopping 1 1 ++ only (Producer 0) 1 ++ only (Consumer 0) 1) = Some (s, tr) /\
    at_main s = Completed /\
    total_produced (stats (line s)) = 2 /\ total_consumed (stats (line s)) = 1 /\
    (0 < 2 -> past_polling (at_main s) = true -> mutex (line s) = None ->
     1 <= len (line s) /\
     total_consumed (stats (line s)) < total_produced (stats (line s))).
Proof.
  edestruct (last_piece_stays 1 1 1 2 false
               (starting 1 1 ++ handoffs 1 ++ approaching (Producer 0) ++ only (Producer 0) 15
                ++ stopping 1 1 ++ only (Producer 0) 1 ++ only (Consumer 0) 1))
    as (_ & _ & H);
    [apply outcome_execution; vm_compute; reflexivity|].
  eexists. eexists. split; [vm_compute; reflexivity|].
  split; [reflexivity|]. split; [reflexivity|]. split; [reflexivity|]. exact H.
Defined.

(** ** A run that completes (X19) *)

(** ** [start()] returns *)

Lemma start_returns : forall n s,
  (start_rank s <= n)%nat -> after_start (at_main s) = false -> idle s ->
  exists k s',
    run s (repeat Main k) = Some (s', []) /\ at_main s' = Poll Get_lock /\
    line s' = line s /\ idle s'.
Proof.
  induction n as [|n IH]; intros s Hn Hm Hi.
  - unfold start_rank in Hn. destruct (at_main s); try discriminate; lia.
  - destruct s as [l pm pw]. cbn [at_main] in Hm.
    destruct pm as [i|i| | | | | | | |]; try discriminate.
    + destruct (Z.of_nat i <? num_producers l) eqn:E.
      * pose proof (proj1 (Z.ltb_lt _ _) E) as E'.
        destruct (IH (spawn {| line := l; at_main := StartProducers i; at_worker := pw |}
                        (Producer i) (StartProducers (S i))))
          as (k & s' & Hrun & Hmain & Hline & Hidle).
        { unfold start_rank, spawn in *. cbn [at_main line] in *. lia. }
        { reflexivity. }
        { intros w. unfold spawn. cbn [at_worker]. unfold upd.
          destruct (worker_eq_dec w (Producer i)); [left; reflexivity | apply Hi]. }
        exists (S k), s'. cbn [repeat run step]. unfold main_step. cbn [at_main line].
        rewrite E, Hrun. auto.
      * pose proof (proj1 (Z.ltb_ge _ _) E) as E'.
        destruct (IH (main_goto {| line := l; at_main := StartProducers i; at_worker := pw |}
                        (StartConsumers 0) l))
          as (k & s' & Hrun & Hmain & Hline & Hidle).
        { unfold start_rank, main_goto in *. cbn [at_main line] in *. lia. }
        { reflexivity. }
        { exact Hi. }
        exists (S k), s'. cbn [repeat run step]. unfold main_step. cbn [at_main line].
        rewrite E, Hrun. auto.
    + destruct (Z.of_nat i <? num_consumers l) eqn:E.
      * pose proof (proj1 (Z.ltb_lt _ _) E) as E'.
        destruct (IH (spawn {| line := l; at_main := StartConsumers i; at_worker := pw |}
                        (Consumer i) (StartConsumers (S i))))
          as (k & s' & Hrun & Hmain & Hline & Hidle).
        { unfold start_rank, spawn in *. cbn [at_main line] in *. lia. }
        { reflexivity. }
        { intros w. unfold spawn. cbn [at_worker]. unfold upd.
          destruct (worker_eq_dec w (Consumer i)); [left; reflexivity | apply Hi]. }
        exists (S k), s'. cbn [repeat run step]. unfold main_step. cbn [at_main line].
        rewrite E, Hrun. auto.
      * exists 1%nat. eexists. cbn [repeat run step]. unfold main_step. cbn [at_main line].
        rewrite E. split; [reflexivity|]. auto.
Qed.

(** ** One iteration of a producer, one of a consumer *)

(** One step of a scheduled worker, computed. *)
Ltac advance :=
  cbn [run repeat app step worker_step];
  try unfold producer_task at 1; try unfold consumer_task at 1;
  unfold should_continue, get_current_timestep, increment_timestep, lock_acquire, goto;
  cbn [line at_main at_worker
       set_buffer set_mutex set_empty_slots set_filled_slots set_current_timestep
       set_running set_timestep_lock set_stats set_stats_lock
       buffer_capacity num_producers num_consumers total_timesteps buffer mutex
       empty_slots filled_slots current_timestep running timestep_lock stats
       stats_lock snapshot_interval len];
  rewrite ?upd_same;
  unfold len;
  cbn [app line at_main at_worker
       set_buffer set_mutex set_empty_slots set_filled_slots set_current_timestep
       set_running set_timestep_lock set_stats set_stats_lock
       buffer_capacity num_producers num_consumers total_timesteps buffer mutex
       empty_slots filled_slots current_timestep running timestep_lock stats
       stats_lock snapshot_interval len].

(** The control points after an iteration of worker [w]. *)
Ltac back_to_idle Hi w :=
  let x := fresh "x" in
  let Hne := fresh "Hne" in
  unfold idle in *; cbn [at_worker] in *;
  intros x; destruct (worker_eq_dec x w) as [->|Hne];
  [ rewrite upd_same; left; reflexivity
  | rewrite !upd_other by assumption; apply Hi ].

(** Fields of the state after an iteration. *)
Ltac project :=
  cbn [line at_main at_worker
       set_buffer set_mutex set_empty_slots set_filled_slots set_current_timestep
       set_running set_timestep_lock set_stats set_stats_lock
       buffer_capacity num_producers num_consumers total_timesteps buffer mutex
       empty_slots filled_slots current_timestep running timestep_lock stats
       stats_lock snapshot_interval].

Lemma producer_round c items s :
  settled c items s ->
  c < total_timesteps (line s) ->
  count items < buffer_capacity (line s) ->
  exists n s',
    run s (approaching (Producer 0) ++ only (Producer 0) n)
      = Some (s', [Put {| piece_producer := 0; piece_timestep := c + 1 |}]) /\
    settled (c + 1) (items ++ [{| piece_producer := 0; piece_timestep := c + 1 |}]) s'.
Proof.
  intros [Hm Hi Hp Hc Hr Hmx Htl Hsl Hb He Hf Hk] Hlt Hroom.
  destruct s as [l pm pw].
  destruct l as [cap np nc tt buf mx es fs ts rn tl st sl si].
  unfold count in *.
  cbn [line at_main at_worker buffer_capacity total_timesteps buffer mutex empty_slots
       filled_slots current_timestep running timestep_lock stats_lock] in *.
  subst pm rn mx tl sl buf es fs ts.
  assert (T1 : (c <? tt) = true) by (apply Z.ltb_lt; assumption).
  assert (T2 : (0 <? cap - Z.of_nat (length items)) = true) by (apply Z.ltb_lt; lia).
  assert (T3 : (Z.of_nat (length items) <? cap) = true) by (apply Z.ltb_lt; assumption).
  unfold approaching, only.
  destruct ((c + 1) mod si =? 0) eqn:Hsnap.
  - exists 15%nat. eexists. split.
    + advance. rewrite Hp. do 3 advance. rewrite T1.
      advance. rewrite T2. do 4 advance. rewrite T1.
      do 2 advance. rewrite T3.
      do 8 advance. rewrite Hsnap. do 5 advance. reflexivity.
    + split; project; try reflexivity.
      * back_to_idle Hi (Producer 0).
      * rewrite !upd_other by discriminate. assumption.
      * unfold count. rewrite length_app. cbn [length]. lia.
      * unfold count. rewrite length_app. cbn [length]. lia.
  - exists 14%nat. eexists. split.
    + advance. rewrite Hp. do 3 advance. rewrite T1.
      advance. rewrite T2. do 4 advance. rewrite T1.
      do 2 advance. rewrite T3.
      do 8 advance. rewrite Hsnap. do 4 advance. reflexivity.
    + split; project; try reflexivity.
      * back_to_idle Hi (Producer 0).
      * rewrite !upd_other by discriminate. assumption.
      * unfold count. rewrite length_app. cbn [length]. lia.
      * unfold count. rewrite length_app. cbn [length]. lia.
Qed.

Lemma consumer_round c x rest s :
  settled c (x :: rest) s ->
  c < total_timesteps (line s) ->
  exists s',
    run s (approaching (Consumer 0) ++ only (Consumer 0) 9) = Some (s', [Take x]) /\
    settled c rest s'.
Proof.
  intros [Hm Hi Hp Hc Hr Hmx Htl Hsl Hb He Hf Hk] Hlt.
  destruct s as [l pm pw].
  destruct l as [cap np nc tt buf mx es fs ts rn tl st sl si].
  unfold count in *.
  cbn [line at_main at_worker buffer_capacity total_timesteps buffer mutex empty_slots
       filled_slots current_timestep running timestep_lock stats_lock] in *.
  subst pm rn mx tl sl buf es fs ts.
  assert (T1 : (c <? tt) = true) by (apply Z.ltb_lt; assumption).
  assert (T2 : (0 <? Z.of_nat (length (x :: rest))) = true)
    by (apply Z.ltb_lt; cbn [length]; lia).
  unfold approaching, only.
  eexists. split.
  - advance. rewrite Hc. do 3 advance. rewrite T1.
    advance. rewrite T2. do 4 advance. rewrite T1.
    do 2 advance. rewrite T2.
    do 8 advance. reflexivity.
  - split; project; try reflexivity.
    + back_to_idle Hi (Consumer 0).
    + rewrite !upd_other by discriminate. assumption.
    + unfold count. cbn [length]. lia.
    + unfold count. cbn [length]. lia.
Qed.

(** Producer 0 and consumer 0 hand over [k] pieces one at a time. *)
Lemma handoffs_settle : forall k c s,
  settled c [] s ->
  c + Z.of_nat k < total_timesteps (line s) ->
  0 < buffer_capacity (line s) ->
  exists more s' tr,
    run s more = Some (s', tr) /\ settled (c + Z.of_nat k) [] s'.
Proof.
  induction k as [|k IH]; intros c s Hs Hlt Hcap.
  - exists [], s, []. split; [reflexivity|]. now rewrite Z.add_0_r.
  - destruct (producer_round c [] s Hs ltac:(lia) ltac:(cbn; lia))
      as (n & s1 & Hrun1 & Hs1).
    pose proof (run_config _ _ _ _ Hrun1) as (Hc1 & _ & _ & Ht1 & _).
    cbn [app] in Hs1.
    destruct (consumer_round (c + 1) _ [] s1 Hs1 ltac:(lia)) as (s2 & Hrun2 & Hs2).
    pose proof (run_config _ _ _ _ Hrun2) as (Hc2 & _ & _ & Ht2 & _).
    destruct (IH (c + 1) s2 Hs2 ltac:(lia) ltac:(lia)) as (more & s3 & tr3 & Hrun3 & Hs3).
    eexists. exists s3. eexists. split.
    + rewrite run_app, Hrun1, run_app, Hrun2, Hrun3. reflexivity.
    + replace (c + Z.of_nat (S k)) with (c + 1 + Z.of_nat k) by lia. assumption.
Qed.

(** ** The stop *)

(** The poll that sees the total reached, and [self.running = False]. *)
Lemma stop_signalled c items s :
  settled c items s ->
  total_timesteps (line s) <= c ->
  exists s',
    run s (repeat Main 4) = Some (s', []) /\
    running (line s') = false /\ idle s' /\
    current_timestep (line s') = c /\ buffer (line s') = items /\
    mutex (line s') = None.
Proof.
  intros [Hm Hi Hp Hc Hr Hmx Htl Hsl Hb He Hf Hk] Hge.
  destruct s as [l pm pw].
  destruct l as [cap np nc tt buf mx es fs ts rn tl st sl si].
  cbn [line at_main at_worker buffer_capacity total_timesteps buffer mutex empty_slots
       filled_slots current_timestep running timestep_lock stats_lock] in *.
  subst pm rn mx tl sl buf ts.
  assert (T : (c <? tt) = false) by (apply Z.ltb_ge; assumption).
  eexists. split.
  - cbn [repeat run step]. unfold main_step, get_current_timestep, lock_acquire, main_goto.
    project. rewrite T. project. reflexivity.
  - project. auto.
Qed.

(** Once the counter has reached the total, no producer gets armed any
    more: the counter and the armed producers together do not grow. *)
Lemma step_quiet s t s' e :
  coherent s -> balanced s ->
  total_timesteps (line s) <= current_timestep (line s) ->
  step s t = Some (s', e) ->
  current_timestep (line s') + producers (armed (total_timesteps (line s'))) s'
  <= current_timestep (line s) + producers (armed (total_timesteps (line s))) s.
Proof.
  intros [_ _ _ Hu] Hb Hge H.
  pose proof (bal_producers s Hb) as Bp.
  destruct t as [|[i|i]]; cbn [step worker_step] in H.
  - destruct s as [l pm pw]. unfold main_step, get_current_timestep in H.
    unfold unborn in Hu. fields. crack; fields.
    all: tests.
    all: try match goal with
         | Hu : (forall j, (?i <= j)%nat -> ?f (Producer j) = NotStarted) |- _ =>
             pose proof (Hu i (Nat.le_refl i)) as Hnew
         end.
    all: resum; try rewrite Hnew in *; cbn [armed] in *.
    all: lia.
  - assert (Hi : Z.of_nat i < num_producers (line s)).
    { destruct (Z_lt_le_dec (Z.of_nat i) (num_producers (line s))) as [|Hlt]; [assumption|].
      apply Bp in Hlt. unfold producer_task in H. rewrite Hlt in H. discriminate. }
    destruct s as [l pm pw].
    unfold producer_task, should_continue, get_current_timestep, increment_timestep in H.
    fields. crack; fields.
    all: resum.
    all: try match goal with E : ?f (Producer _) = _ |- _ => rewrite E in * end.
    all: cbn [armed] in *.
    all: decide_tests; try lia.
  - destruct s as [l pm pw].
    unfold consumer_task, should_continue, get_current_timestep in H.
    fields. crack; fields.
    all: resum.
    all: lia.
Qed.

Lemma run_quiet cap np nc tt v : forall more schedule s tr s' tr',
  execution cap np nc tt v schedule s tr ->
  tt <= current_timestep (line s) ->
  run s more = Some (s', tr') ->
  current_timestep (line s') + producers (armed tt) s'
  <= current_timestep (line s) + producers (armed tt) s.
Proof.
  induction more as [|t more IH]; intros schedule s tr s' tr' Hex Hge Hrun.
  - inversion Hrun; subst. lia.
  - cbn [run] in Hrun.
    destruct (step s t) as [[s1 e]|] eqn:Hs; [|discriminate].
    destruct (run s1 more) as [[s2 tr2]|] eqn:Hr; [|discriminate].
    inversion Hrun; subst s2 tr'. clear Hrun.
    pose proof (execution_step _ _ _ _ _ _ _ _ _ _ _ Hex Hs) as Hex1.
    destruct (execution_invariant _ _ _ _ _ _ _ _ Hex) as [Hcoh _].
    pose proof (execution_balanced _ _ _ _ _ _ _ _ Hex) as Hb.
    pose proof (execution_config _ _ _ _ _ _ _ _ Hex) as (_ & _ & _ & Ht & _).
    pose proof (execution_config _ _ _ _ _ _ _ _ Hex1) as (_ & _ & _ & Ht1 & _).
    pose proof (step_quiet s t s1 e Hcoh Hb ltac:(lia) Hs) as Hq.
    rewrite Ht, Ht1 in Hq.
    destruct (clock_monotone _ _ _ _ _ _ _ _ Hex) as (_ & _ & Hmono).
    specialize (Hmono t s1 e Hs).
    specialize (IH _ _ _ _ _ Hex1 ltac:(lia) Hr). lia.
Qed.

(** No armed producer among idle workers. *)
Lemma idle_unarmed tt s : idle s -> producers (armed tt) s = 0.
Proof.
  intros Hi. unfold producers, among.
  induction (Z.to_nat (num_producers (line s))) as [|k IH]; cbn [tally]; [reflexivity|].
  rewrite IH. destruct (Hi (Producer k)) as [-> | ->]; reflexivity.
Qed.

(** The counters when the buffer mutex is free. *)
Lemma counts_outside s tr :
  consistent s tr -> mutex (line s) = None ->
  current_timestep (line s) = count (puts tr) /\
  total_produced (stats (line s)) = count (puts tr) /\
  total_consumed (stats (line s)) = count (takes tr) /\
  count (puts tr) = count (takes tr) + len (line s).
Proof.
  intros [F1 F2 F3 F4 F5 F6 F7 F8 F9 F10] Hm.
  unfold critical in *. rewrite Hm in *. cbn in F3, F5, F6.
  assert (HL : length (puts tr) = (length (takes tr) + length (buffer (line s)))%nat)
    by (rewrite F1 at 1; apply length_app).
  unfold count, len in *. lia.
Qed.

(** X19.  A run that completes exactly.  For every object the
    constructor builds with [buffer_capacity >= 1], [num_producers >= 1],
    [num_consumers >= 1] and [total_timesteps >= 1], some schedule lets
    [start()] and [wait_completion()] return with every worker ended, the
    counter at [total_timesteps], [total_timesteps] pieces produced, all
    but the last one consumed, and that one left in the buffer. *)
Theorem exact_run_exists cap np nc tt v l0 :
  __init__ cap np nc tt v = inr l0 ->
  1 <= cap -> 1 <= np -> 1 <= nc -> 1 <= tt ->
  exists schedule s tr,
    execution cap np nc tt v schedule s tr /\
    at_main s = Completed /\ workers_ended s /\
    current_timestep (line s) = tt /\
    total_produced (stats (line s)) = tt /\
    total_consumed (stats (line s)) = tt - 1 /\
    len (line s) = 1.
Proof.
  intros Hinit Hcap Hnp Hnc Htt.
  pose proof (init_fresh _ _ _ _ _ _ Hinit) as [Hl0 _].
  (* start() *)
  destruct (start_returns (start_rank (boot l0)) (boot l0) (Nat.le_refl _) eq_refl)
    as (k & s1 & Hrun1 & Hm1 & Hline1 & Hi1); [intros w; right; reflexivity|].
  assert (Hex1 : execution cap np nc tt v (repeat Main k) s1 []) by (exists l0; auto).
  pose proof (execution_config _ _ _ _ _ _ _ _ Hex1) as (Hc1 & Hp1 & Hn1 & Ht1 & _).
  pose proof (execution_launched _ _ _ _ _ _ _ _ Hex1) as Hl1.
  assert (Hs1 : settled 0 [] s1).
  { cbn [boot line] in Hline1.
    split; try assumption; try (rewrite Hline1, Hl0; reflexivity).
    - destruct (Hi1 (Producer 0)) as [H|H]; [assumption|exfalso].
      apply Hl1 in H. rewrite Hm1, Hp1 in H. cbn in H. apply Z.ltb_ge in H. lia.
    - destruct (Hi1 (Consumer 0)) as [H|H]; [assumption|exfalso].
      apply Hl1 in H. rewrite Hm1, Hn1 in H. cbn in H. apply Z.ltb_ge in H. lia.
    - rewrite Hline1, Hl0. cbn. lia. }
  (* total_timesteps - 1 pieces handed over, then the last one produced *)
  destruct (handoffs_settle (Z.to_nat (tt - 1)) 0 s1 Hs1 ltac:(lia) ltac:(lia))
    as (more2 & s2 & tr2 & Hrun2 & Hs2).
  pose proof (execution_app _ _ _ _ _ _ _ _ _ _ _ Hex1 Hrun2) as Hex2.
  pose proof (execution_config _ _ _ _ _ _ _ _ Hex2) as (Hc2 & _ & _ & Ht2 & _).
  replace (0 + Z.of_nat (Z.to_nat (tt - 1))) with (tt - 1) in Hs2 by lia.
  destruct (producer_round (tt - 1) [] s2 Hs2 ltac:(lia) ltac:(cbn; lia))
    as (n & s3 & Hrun3 & Hs3).
  pose proof (execution_app _ _ _ _ _ _ _ _ _ _ _ Hex2 Hrun3) as Hex3.
  pose proof (execution_config _ _ _ _ _ _ _ _ Hex3) as (_ & _ & _ & Ht3 & _).
  replace (tt - 1 + 1) with tt in * by lia. cbn [app] in Hs3.
  (* the poll of wait_completion and self.running = False *)
  destruct (stop_signalled tt _ s3 Hs3 ltac:(lia))
    as (s4 & Hrun4 & Hr4 & Hi4 & Hk4 & Hb4 & Hmx4).
  pose proof (execution_app _ _ _ _ _ _ _ _ _ _ _ Hex3 Hrun4) as Hex4.
  match type of Hex4 with
  | execution _ _ _ _ _ ?sch ?s ?tr => set (schedule4 := sch) in *; set (tr4 := tr) in *
  end.
  destruct (execution_invariant _ _ _ _ _ _ _ _ Hex4) as [_ Hcon4].
  destruct (counts_outside _ _ Hcon4 Hmx4) as (Q1 & _ & _ & Q4).
  unfold len in Q4. rewrite Hb4 in Q4. cbn [length] in Q4.
  (* the shutdown *)
  pose proof (remaining_nonneg s4 (execution_ledger _ _ _ _ _ _ _ _ Hex4)) as Hrem.
  destruct (shutdown_completes cap np nc tt v (Z.to_nat (remaining s4)) _ s4 _ Hex4 Hr4
              ltac:(lia))
    as (more5 & s5 & tr5 & Hrun5 & Hm5 & Hw5).
  pose proof (execution_app _ _ _ _ _ _ _ _ _ _ _ Hex4 Hrun5) as Hex5.
  assert (Hend : workers_ended s5) by (intros w; destruct (Hw5 w); auto).
  destruct (execution_invariant _ _ _ _ _ _ _ _ Hex5) as [Hcoh5 Hcon5].
  pose proof (ended_outside s5 Hcoh5 Hend) as Hmx5.
  destruct (counts_outside _ _ Hcon5 Hmx5) as (R1 & R2 & R3 & R4).
  pose proof (run_quiet cap np nc tt v _ _ _ _ _ _ Hex4 ltac:(lia) Hrun5) as Hq.
  rewrite (idle_unarmed tt s4 Hi4) in Hq.
  pose proof (among_nonneg Producer (armed tt) (num_producers (line s5)) (at_worker s5)
                (armed_nonneg tt)) as Hpos.
  fold (producers (armed tt) s5) in Hpos.
  pose proof (execution_gate _ _ _ _ _ _ _ _ Hex5) as [_ G2 _].
  pose proof (execution_config _ _ _ _ _ _ _ _ Hex5) as (_ & _ & _ & Ht5 & _).
  rewrite Hm5, Ht5 in G2. specialize (G2 eq_refl).
  pose proof (taken_at_most _ _ _ _ _ _ _ _ Hex5) as Hmost.
  assert (Hleast : count (takes tr4) <= count (takes (tr4 ++ tr5))).
  { rewrite takes_app. unfold count. rewrite length_app. lia. }
  exists (schedule4 ++ more5), s5.
  eexists. split; [exact Hex5|].
  split; [assumption|]. split; [assumption|]. lia.
Qed.

Lemma exact_run_exists_witness :
  exists schedule s tr,
    execution 1 1 1 2 false schedule s tr /\
    at_main s = Completed /\ workers_ended s /\
    current_timestep (line s) = 2 /\
    total_produced (stats (line s)) = 2 /\
    total_consumed (stats (line s)) = 2 - 1 /\
    len (line s) = 1.
Proof.
  eapply (exact_run_exists 1 1 1 2 false); [vm_compute; reflexivity | lia | lia | lia | lia].
Defined.

(** ** The workers never all wait (X6) *)

Lemma step_staying s t s' e :
  gate s -> staying s -> step s t = Some (s', e) -> staying s'.
Proof.
  intros [_ G2 G3] Hs H.
  assert (Hrun : current_timestep (line s) < total_timesteps (line s) ->
                 running (line s) = true).
  { intros Hlt. destruct (running (line s)) eqn:Hr; [reflexivity|].
    specialize (G3 eq_refl).
    assert (Hp : past_polling (at_main s) = true)
      by (destruct (at_main s); cbn in *; congruence).
    specialize (G2 Hp). lia. }
  destruct s as [l pm pw]. destruct t as [|[i|i]]; open_step H.
  all: unfold staying in *; fields.
  all: intros Hlt; tests.
  all: try specialize (Hs ltac:(lia)).
  all: try specialize (Hrun ltac:(lia)).
  all: try congruence.
  all: let x := fresh "x" in intros x; pose proof (Hs x) as Hx.
  all: try assumption.
  all: match goal with
       | |- context [upd ?f ?w ?p ?x] =>
           destruct (worker_eq_dec x w) as [->|Hne];
           [ rewrite upd_same | rewrite upd_other by assumption; assumption ]
       end.
  all: try reflexivity.
  all: try match goal with E : ?f ?w = _, Hx : context [?f ?w] |- _ => rewrite E in Hx end.
  all: cbn [leaving] in *.
  all: try congruence.
  all: try (apply Z.leb_gt; lia).
  all: try (apply Z.leb_gt in Hx; lia).
Qed.

Lemma execution_staying cap np nc tt v schedule s tr :
  execution cap np nc tt v schedule s tr -> staying s.
Proof.
  revert schedule s tr. apply (execution_ind (fun s _ => staying s)).
  - intros l0 _ _ w. reflexivity.
  - intros schedule s tr t s' e Hex Hs Hstep.
    eapply step_staying; eauto using execution_gate.
Qed.

(** With the inner locks free, the worker inside [with self.mutex] is
    not blocked. *)
Lemma mutex_holder_moves s w :
  coherent s -> in_role s -> mutex (line s) = Some (Worker w) ->
  timestep_lock (line s) = None -> stats_lock (line s) = None ->
  enabled s (Worker w) = true.
Proof.
  intros Hcoh Hr H Ht Hs. apply (coh_mutex s Hcoh) in H. cbn [stands] in H.
  destruct s as [l pm pw]. cbn [line at_worker] in *.
  destruct w as [i|i]; [destruct (Hr i) as [Hp _] | destruct (Hr i) as [_ Hp]];
    cbn [at_worker] in Hp;
    match goal with
    | |- enabled {| line := _; at_main := _; at_worker := ?f |} (Worker ?w) = true =>
        destruct (f w) as [| | | | | | | [] | | | [] | [] | | | | | | | |] eqn:E
    end;
    cbn in H; try discriminate; try discriminate Hp; can_step.
Qed.

(** With every lock free, a started worker that has not ended and does
    not wait for its semaphore is not blocked. *)
Lemma free_worker_moves s w :
  in_role s -> mutex (line s) = None ->
  timestep_lock (line s) = None -> stats_lock (line s) = None ->
  live (at_worker s w) = 1 -> at_worker s w <> SemAcquire ->
  enabled s (Worker w) = true.
Proof.
  intros Hr Hm Ht Hs Hl Hsem.
  destruct s as [l pm pw]. cbn [line at_worker] in *.
  destruct w as [i|i]; [destruct (Hr i) as [Hp _] | destruct (Hr i) as [_ Hp]];
    cbn [at_worker] in Hp;
    match goal with
    | |- enabled {| line := _; at_main := _; at_worker := ?f |} (Worker ?w) = true =>
        destruct (f w) as [| [|[]] | | [|[]] | | | | [] | | | [] | [] | | | | | | | |] eqn:E
    end;
    cbn in Hl; try discriminate; try discriminate Hp; try congruence; can_step.
Qed.

(** The holders of the locks: whoever holds the timestep lock or the
    statistics lock can step; whoever holds the buffer mutex can step, or
    waits for one of these two, held by another thread. *)
Lemma lock_holders_move s :
  coherent s -> in_role s ->
  (forall t, timestep_lock (line s) = Some t \/ stats_lock (line s) = Some t ->
     enabled s t = true) /\
  (forall t, mutex (line s) = Some t ->
     enabled s t = true \/
     exists t', t' <> t /\
       (timestep_lock (line s) = Some t' \/ stats_lock (line s) = Some t') /\
       enabled s t' = true).
Proof.
  intros Hcoh Hr. split.
  - intros t [H|H]; [now apply timestep_holder_enabled | now apply stats_holder_enabled].
  - intros t H.
    destruct (enabled s t) eqn:He; [left; reflexivity|right].
    assert (Hw : exists w, t = Worker w).
    { pose proof (proj1 (coh_mutex s Hcoh t) H) as Hst.
      destruct t as [|w]; [discriminate Hst | eauto]. }
    destruct Hw as (w & ->).
    destruct (timestep_lock (line s)) as [t1|] eqn:Ht.
    { exists t1. pose proof (timestep_holder_enabled s t1 Hcoh Hr Ht) as H1.
      split; [congruence|]. auto. }
    destruct (stats_lock (line s)) as [t2|] eqn:Hs.
    { exists t2. pose proof (stats_holder_enabled s t2 Hcoh Hr Hs) as H2.
      split; [congruence|]. auto. }
    rewrite (mutex_holder_moves s w Hcoh Hr H Ht Hs) in He. discriminate.
Qed.

(** With every lock free, some worker of a positive sum of [holding] or
    [passing] weights is not blocked. *)
Lemma weight_moves s role g n :
  in_role s -> mutex (line s) = None ->
  timestep_lock (line s) = None -> stats_lock (line s) = None ->
  (forall p, 0 < g p -> live p = 1 /\ p <> SemAcquire) ->
  0 < among role g n (at_worker s) -> exists w, enabled s (Worker w) = true.
Proof.
  intros Hr Hm Ht Hs Hg H. apply among_positive in H. destruct H as (k & _ & Hk).
  apply Hg in Hk. destruct Hk. exists (role k). now apply free_worker_moves.
Qed.

(** While the counter is below the total, with a slot, a producer and a
    consumer, some worker can step, or the main thread can and holds the
    timestep lock. *)
Lemma workers_move cap np nc tt v schedule s tr :
  execution cap np nc tt v schedule s tr ->
  1 <= cap -> 1 <= np -> 1 <= nc ->
  after_start (at_main s) = true ->
  current_timestep (line s) < tt ->
  exists t, moving s t.
Proof.
  intros Hex Hcap Hnp Hnc Hstart Hlt.
  destruct (execution_invariant _ _ _ _ _ _ _ _ Hex) as [Hcoh Hcon].
  pose proof (execution_balanced _ _ _ _ _ _ _ _ Hex) as Hbal.
  pose proof (execution_in_role _ _ _ _ _ _ _ _ Hex) as Hr.
  pose proof (execution_launched _ _ _ _ _ _ _ _ Hex) as Hl.
  pose proof (execution_staying _ _ _ _ _ _ _ _ Hex) as Hs.
  pose proof (execution_gate _ _ _ _ _ _ _ _ Hex) as [_ G2 G3].
  pose proof (execution_config _ _ _ _ _ _ _ _ Hex) as (Hc & Hp & Hn & Ht & _).
  unfold moving.
  destruct (timestep_lock (line s)) as [t1|] eqn:Htl.
  { exists t1. split; [now apply timestep_holder_enabled | congruence]. }
  destruct (stats_lock (line s)) as [t2|] eqn:Hsl.
  { exists t2. split; [now apply stats_holder_enabled|].
    intros ->. apply (coh_stats s Hcoh) in Hsl. discriminate Hsl. }
  destruct (mutex (line s)) as [t3|] eqn:Hmx.
  { exists t3. pose proof (proj1 (coh_mutex s Hcoh t3) Hmx) as Hst.
    destruct t3 as [|w]; [discriminate Hst|].
    split; [now apply mutex_holder_moves | discriminate]. }
  assert (Hrun : running (line s) = true).
  { destruct (running (line s)) eqn:E; [reflexivity|].
    specialize (G3 eq_refl).
    assert (Hpp : past_polling (at_main s) = true)
      by (destruct (at_main s); cbn in *; congruence).
    specialize (G2 Hpp). lia. }
  unfold staying in Hs. rewrite Ht in Hs. specialize (Hs Hlt).
  assert (Hlive : forall w,
            started (at_main s) (num_producers (line s)) (num_consumers (line s)) w = true ->
            live (at_worker s w) = 1).
  { intros w Hw. pose proof (Hs w) as Hq. pose proof (bal_alive s Hbal w) as Ha.
    destruct (at_worker s w) eqn:E; cbn in *; try reflexivity; try discriminate.
    apply Hl in E. congruence. }
  assert (Hmove : forall w, enabled s (Worker w) = true ->
                  exists t, enabled s t = true /\ (t = Main -> @None tid = Some Main))
    by (intros w Hw; exists (Worker w); split; [assumption | discriminate]).
  assert (HP0 : live (at_worker s (Producer 0)) = 1).
  { apply Hlive. rewrite Hp. destruct (at_main s); try discriminate Hstart; cbn;
      apply Z.ltb_lt; lia. }
  assert (HC0 : live (at_worker s (Consumer 0)) = 1).
  { apply Hlive. rewrite Hn. destruct (at_main s); try discriminate Hstart; cbn;
      apply Z.ltb_lt; lia. }
  destruct (pc_eq_SemAcquire (at_worker s (Producer 0))) as [HsemP|HsemP];
    [|apply (Hmove (Producer 0)); now apply free_worker_moves].
  destruct (pc_eq_SemAcquire (at_worker s (Consumer 0))) as [HsemC|HsemC];
    [|apply (Hmove (Consumer 0)); now apply free_worker_moves].
  pose proof (bal_slots s Hbal Hrun) as Hslots.
  pose proof (bal_items s Hbal Hrun) as Hitems.
  destruct (bal_counts s Hbal) as [He Hf].
  pose proof (among_facts Producer (num_producers (line s)) (at_worker s)) as (_ & HpH & _ & HpP).
  pose proof (among_facts Consumer (num_consumers (line s)) (at_worker s)) as (_ & HcH & _ & HcP).
  unfold producers, consumers in *.
  destruct (Z_lt_le_dec 0 (empty_slots (line s))) as [Hpos|Hzero].
  { apply (Hmove (Producer 0)). apply Z.ltb_lt in Hpos.
    unfold enabled, step, worker_step, producer_task. rewrite HsemP, Hpos. reflexivity. }
  destruct (Z_lt_le_dec 0 (filled_slots (line s))) as [Hpos|Hzero'].
  { apply (Hmove (Consumer 0)). apply Z.ltb_lt in Hpos.
    unfold enabled, step, worker_step, consumer_task. rewrite HsemC, Hpos. reflexivity. }
  destruct (Z_lt_le_dec 0 (among Producer holding (num_producers (line s)) (at_worker s)))
    as [Hh|Hh].
  { destruct (weight_moves s Producer holding _ Hr Hmx Htl Hsl holding_live Hh) as (w & Hw).
    now apply (Hmove w). }
  destruct (Z_lt_le_dec 0 (among Consumer passing (num_consumers (line s)) (at_worker s)))
    as [Hh1|Hh1].
  { destruct (weight_moves s Consumer passing _ Hr Hmx Htl Hsl passing_live Hh1) as (w & Hw).
    now apply (Hmove w). }
  destruct (Z_lt_le_dec 0 (among Consumer holding (num_consumers (line s)) (at_worker s)))
    as [Hh2|Hh2].
  { destruct (weight_moves s Consumer holding _ Hr Hmx Htl Hsl holding_live Hh2) as (w & Hw).
    now apply (Hmove w). }
  destruct (Z_lt_le_dec 0 (among Producer passing (num_producers (line s)) (at_worker s)))
    as [Hh3|Hh3].
  { destruct (weight_moves s Producer passing _ Hr Hmx Htl Hsl passing_live Hh3) as (w & Hw).
    now apply (Hmove w). }
  exfalso. lia.
Qed.

(** The main thread leaves [get_current_timestep] in at most two steps
    of its own, and changes nothing but the lock. *)
Lemma main_releases s :
  coherent s -> timestep_lock (line s) = Some Main ->
  exists n s1,
    (n <= 2)%nat /\ run s (repeat Main n) = Some (s1, []) /\
    timestep_lock (line s1) = None /\
    current_timestep (line s1) = current_timestep (line s) /\
    after_start (at_main s1) = true.
Proof.
  intros Hcoh H. apply (coh_timestep s Hcoh) in H. cbn [stands] in H.
  destruct s as [l pm pw]. cbn [line at_main] in *.
  destruct pm as [| |[| |r]| | | | | | |]; try discriminate H.
  - exists 2%nat. cbn [repeat run step main_step at_main line get_current_timestep main_goto].
    destruct (current_timestep l <? total_timesteps (set_timestep_lock None l));
      eexists; (split; [lia|]); (split; [reflexivity|]); cbn; fields; auto.
  - exists 1%nat. cbn [repeat run step main_step at_main line get_current_timestep main_goto].
    destruct (r <? total_timesteps (set_timestep_lock None l));
      eexists; (split; [lia|]); (split; [reflexivity|]); cbn; fields; auto.
Qed.

(** While the counter is below the total, with a slot, a producer and a
    consumer, some worker can step, at the latest once the main thread has
    left [get_current_timestep]. *)
Lemma workers_never_all_wait cap np nc tt v schedule s tr :
  execution cap np nc tt v schedule s tr ->
  1 <= cap -> 1 <= np -> 1 <= nc ->
  after_start (at_main s) = true ->
  current_timestep (line s) < tt ->
  (exists w, enabled s (Worker w) = true) \/
  (timestep_lock (line s) = Some Main /\
   exists n s1,
     (n <= 2)%nat /\ run s (repeat Main n) = Some (s1, []) /\
     timestep_lock (line s1) = None /\
     exists w, enabled s1 (Worker w) = true).
Proof.
  intros Hex Hcap Hnp Hnc Hstart Hlt.
  destruct (workers_move _ _ _ _ _ _ _ _ Hex Hcap Hnp Hnc Hstart Hlt) as ([|w] & He & Hm);
    [|left; eauto].
  right. specialize (Hm eq_refl). split; [assumption|].
  destruct (execution_invariant _ _ _ _ _ _ _ _ Hex) as [Hcoh _].
  destruct (main_releases s Hcoh Hm) as (n & s1 & Hn & Hrun & Hfree & Hsame & Hstart1).
  exists n, s1. repeat (split; [assumption|]).
  pose proof (execution_app _ _ _ _ _ _ _ _ _ _ _ Hex Hrun) as Hex1.
  rewrite <- Hsame in Hlt.
  destruct (workers_move _ _ _ _ _ _ _ _ Hex1 Hcap Hnp Hnc Hstart1 Hlt) as ([|w] & He1 & Hm1).
  - specialize (Hm1 eq_refl). congruence.
  - eauto.
Qed.

(** A parked line stays parked: no worker can step, and a step of the main
    thread keeps it polling. *)
Lemma step_parked s t s' e :
  parked s -> step s t = Some (s', e) -> t = Main /\ parked s'.
Proof.
  intros (He & Hlt & Hp & Hc & Hm) H.
  destruct s as [l pm pw]. cbn [line at_main at_worker] in *.
  destruct t as [|[i|i]].
  - split; [reflexivity|]. unfold parked.
    unfold step, main_step in H. cbn [at_main line] in H.
    destruct pm as [| |[| |r]| | | | | | |]; cbn [polling] in Hm; try contradiction.
    + cbn [get_current_timestep] in H. rewrite Hm in H. cbn in H.
      injection H as <- <-. cbn. fields. auto.
    + cbn [get_current_timestep] in H. injection H as <- <-. cbn. fields.
      repeat split; auto.
    + destruct Hm as [Hm Hr]. cbn [get_current_timestep] in H.
      replace (total_timesteps (set_timestep_lock None l)) with (total_timesteps l) in H
        by (destruct l; reflexivity).
      apply Z.ltb_lt in Hr. rewrite Hr in H. injection H as <- <-. cbn. fields. auto.
    + injection H as <- <-. cbn. auto.
  - exfalso. cbn [step worker_step] in H. unfold producer_task in H.
    cbn [at_worker line] in H. destruct (Hp i) as [E|E]; rewrite E in H.
    + rewrite He in H. discriminate H.
    + discriminate H.
  - exfalso. cbn [step worker_step] in H. unfold consumer_task in H.
    cbn [at_worker line] in H. rewrite (Hc i) in H. discriminate H.
Qed.

Lemma run_parked : forall more s s' tr,
  parked s -> run s more = Some (s', tr) ->
  parked s' /\ more = repeat Main (length more).
Proof.
  induction more as [|t more IH]; intros s s' tr Hp H.
  - injection H as <- <-. auto.
  - cbn [run] in H. destruct (step s t) as [[s1 e]|] eqn:E; [|discriminate].
    destruct (step_parked s t s1 e Hp E) as [-> Hp1].
    destruct (run s1 more) as [[s2 tr2]|] eqn:E2; [|discriminate].
    injection H as <- <-.
    destruct (IH s1 s2 tr2 Hp1 E2) as [Hp2 Hm]. split; [assumption|].
    cbn [length repeat]. now rewrite <- Hm.
Qed.

Lemma parked_blocks s : parked s -> forall w, enabled s (Worker w) = false.
Proof.
  intros Hp w. unfold enabled. destruct (step s (Worker w)) as [[s' e]|] eqn:E; [|reflexivity].
  destruct (step_parked s _ s' e Hp E) as [H _]. discriminate H.
Qed.

Lemma enabled_steps s t : enabled s t = true -> exists s' e, step s t = Some (s', e).
Proof.
  unfold enabled. destruct (step s t) as [[s' e]|]; [eauto | discriminate].
Qed.

(** Without a consumer the producers fill the buffer and wait for ever:
    capacity 2, one producer, no consumer, 3 timesteps.  After two pieces
    the producer waits at [empty_slots.acquire()], the counter is 2, and
    from then on only the main thread steps, polling. *)
Lemma workers_park_without_a_consumer :
  exists s tr,
    execution 2 1 0 3 false (starting 1 0 ++ only (Producer 0) 52) s tr /\
    after_start (at_main s) = true /\ current_timestep (line s) = 2 /\
    timestep_lock (line s) = None /\
    forall more s' tr', run s more = Some (s', tr') ->
      more = repeat Main (length more) /\
      current_timestep (line s') < 3 /\
      forall w, step s' (Worker w) = None.
Proof.
  eexists. eexists. split; [apply outcome_execution; vm_compute; reflexivity|].
  split; [reflexivity|]. split; [reflexivity|]. split; [reflexivity|].
  intros more s' tr' H.
  match type of H with run ?s _ = _ => assert (Hp : parked s) end.
  { unfold parked. cbn [line at_main at_worker].
    split; [reflexivity|]. split; [vm_compute; reflexivity|].
    split; [intros [|i]; [left | right]; reflexivity|].
    split; [intros i; reflexivity | reflexivity]. }
  destruct (run_parked _ _ _ _ Hp H) as [Hp' Hm]. split; [assumption|].
  split.
  - destruct Hp' as (_ & Hlt & _).
    pose proof (run_config _ _ _ _ H) as Hc. cbn in Hc. intuition congruence.
  - intros w. pose proof (parked_blocks s' Hp' w) as Hb. unfold enabled in Hb.
    destruct (step s' (Worker w)); [discriminate | reflexivity].
Qed.

(** X6.  No deadlock.  A thread is blocked only while it waits for a lock
    another thread holds or for a semaphore at 0.  In every reachable
    state:
    - the thread that holds the timestep lock or the statistics lock can
      step;
    - the thread that holds the buffer mutex can step, or it waits for one
      of these two locks, held by another thread, which can step;
    - with at least one slot, one producer and one consumer, once
      [start()] has returned and while the counter is below
      [total_timesteps], some worker can step: at once, or, when the main
      thread stands inside [get_current_timestep], after the one or two
      steps in which it leaves it.  So the workers never all wait, and the
      polling of the main thread is not what keeps the run going;
    - some thread can step, unless [wait_completion] has returned and
      every worker that was started has left its loop.
    The three lower bounds are needed: without a consumer the workers can
    all wait for ever while the main thread polls
    ([workers_park_without_a_consumer]). *)
Theorem no_deadlock cap np nc tt v schedule s tr :
  execution cap np nc tt v schedule s tr ->
  (forall t, timestep_lock (line s) = Some t \/ stats_lock (line s) = Some t ->
     exists s' e, step s t = Some (s', e)) /\
  (forall t, mutex (line s) = Some t ->
     (exists s' e, step s t = Some (s', e)) \/
     exists t', t' <> t /\
       (timestep_lock (line s) = Some t' \/ stats_lock (line s) = Some t') /\
       exists s' e, step s t' = Some (s', e)) /\
  (1 <= cap -> 1 <= np -> 1 <= nc ->
   after_start (at_main s) = true -> current_timestep (line s) < tt ->
     (exists w s' e, step s (Worker w) = Some (s', e)) \/
     (timestep_lock (line s) = Some Main /\
      exists n s1,
        (1 <= n <= 2)%nat /\ run s (repeat Main n) = Some (s1, []) /\
        timestep_lock (line s1) = None /\
        exists w s' e, step s1 (Worker w) = Some (s', e))) /\
  ((exists t s' e, step s t = Some (s', e)) \/
   (at_main s = Completed /\
    forall w, at_worker s w = NotStarted \/ at_worker s w = Finished)).
Proof.
  intros Hex.
  destruct (execution_invariant _ _ _ _ _ _ _ _ Hex) as [Hcoh _].
  pose proof (execution_in_role _ _ _ _ _ _ _ _ Hex) as Hr.
  destruct (lock_holders_move s Hcoh Hr) as [H1 H2].
  split; [|split; [|split]].
  - intros t Ht. apply enabled_steps. auto.
  - intros t Ht. destruct (H2 t Ht) as [He|(t' & Hne & Hl & He)].
    + left. now apply enabled_steps.
    + right. exists t'. repeat (split; [assumption|]). now apply enabled_steps.
  - intros Hcap Hnp Hnc Hstart Hlt.
    destruct (workers_never_all_wait _ _ _ _ _ _ _ _ Hex Hcap Hnp Hnc Hstart Hlt)
      as [(w & Hw)|(Hm & n & s1 & Hn & Hrun & Hfree & w & Hw)].
    + left. exists w. now apply enabled_steps.
    + right. split; [assumption|]. exists n, s1.
      split.
      { destruct n as [|n]; [|lia]. cbn in Hrun. injection Hrun as <-. congruence. }
      repeat (split; [assumption|]). exists w. now apply enabled_steps.
  - destruct (some_thread_can_step _ _ _ _ _ _ _ _ Hex) as [(t & Ht)|H]; [left|right; exact H].
    exists t. now apply enabled_steps.
Qed.

Lemma no_deadlock_witness :
  exists s tr,
    outcome 1 1 1 5 false nested_locks = Some (s, tr) /\
    timestep_lock (line s) = Some (Worker (Producer 0)) /\
    mutex (line s) = Some (Worker (Producer 0)) /\
    after_start (at_main s) = true /\ current_timestep (line s) < 5 /\
    (exists s' e, step s (Worker (Producer 0)) = Some (s', e)) /\
    ((exists w s' e, step s (Worker w) = Some (s', e)) \/
     (timestep_lock (line s) = Some Main /\
      exists n s1,
        (1 <= n <= 2)%nat /\ run s (repeat Main n) = Some (s1, []) /\
        timestep_lock (line s1) = None /\
        exists w s' e, step s1 (Worker w) = Some (s', e))).
Proof.
  eexists. eexists. split; [vm_compute; reflexivity|].
  split; [reflexivity|]. split; [reflexivity|]. split; [reflexivity|].
  split; [vm_compute; reflexivity|].
  match goal with
  | |- (exists s' e, step ?s _ = _) /\ _ =>
      pose proof (no_deadlock 1 1 1 5 false nested_locks s []
                    (outcome_execution 1 1 1 5 false nested_locks s []
                       ltac:(vm_compute; reflexivity))) as (H1 & _ & H3 & _)
  end.
  split.
  - apply H1. left. reflexivity.
  - apply H3; [lia | lia | lia | reflexivity | vm_compute; reflexivity].
Defined.
